(** * Terraform VPC security enhancer: dependency graph and context pipeline

    A shallow embedding of the core of [scriptv3.py] (class
    [TerraformEnhancer]): the dependency graph built from module references,
    the resolution of the files relevant to an entry point, the token-budgeted
    context assembly, the extraction of per-file content from a reply, the
    saving of the extracted files, and the loop that enhances one file at a
    time.

    Conventions.
    - A Python [str] is a sequence of Unicode code points.  Text handled by
      the pipeline is embedded as [string], one [ascii] per code point (the
      embedding covers the code points below 256); the token counter is
      defined on arbitrary code-point sequences ([pystr]).
    - The file system is a tree of directories and regular files without
      symbolic links; [Path.resolve] is therefore lexical normalisation
      against the working directory.
    - Logging has no effect on any returned value and is left out. *)

From Stdlib Require Import ZArith NArith Lia Ascii.
From stdpp Require Import gmap strings list fin_maps relations.

Set Warnings "-clear-no-such-hyp,-register-all".
Open Scope string_scope.
Open Scope list_scope.

(** ** Python string operations *)

Module Py.

(** The line feed and the double quote, which have no escape in a literal. *)
Definition LF : ascii := "010"%char.
Definition nl : string := String LF EmptyString.
Definition dq : string := String "034"%char EmptyString.

(** [s.startswith(prefix)] *)
Fixpoint startswith (s prefix : string) {struct prefix} : bool :=
  match prefix with
  | EmptyString => true
  | String c prefix' =>
      match s with
      | EmptyString => false
      | String d s' => Ascii.eqb c d && startswith s' prefix'
      end
  end.

(** [needle in hay] for two strings *)
Fixpoint contains (needle hay : string) : bool :=
  startswith hay needle ||
  match hay with
  | EmptyString => false
  | String _ hay' => contains needle hay'
  end.

(** [s.endswith(suffix)] *)
Fixpoint endswith (s suffix : string) : bool :=
  String.eqb s suffix ||
  match s with
  | EmptyString => false
  | String _ s' => endswith s' suffix
  end.

(** [s.split(sep)] for a non-empty separator: the pieces between the
    non-overlapping occurrences of [sep], found from the left.  [skip]
    counts the characters of the current occurrence still to pass over. *)
Fixpoint split_from (sep : string) (skip : nat) (s : string) : list string :=
  match s with
  | EmptyString => [EmptyString]
  | String c s' =>
      match skip with
      | S k => split_from sep k s'
      | O =>
          if startswith s sep
          then EmptyString :: split_from sep (String.length sep - 1) s'
          else match split_from sep 0 s' with
               | [] => [String c EmptyString]
               | w :: ws => String c w :: ws
               end
      end
  end.

Definition split (s sep : string) : list string := split_from sep 0 s.

(** [sep.join(l)] *)
Fixpoint join (sep : string) (l : list string) : string :=
  match l with
  | [] => EmptyString
  | [x] => x
  | x :: l' => x +:+ sep +:+ join sep l'
  end.

(** [str.isspace] on one character (code points below 256): the
    characters removed by [str.strip()] and matched by [\s]. *)
Definition isspace (c : ascii) : bool :=
  let n := N_of_ascii c in
  ((9 <=? n) && (n <=? 13) || (28 <=? n) && (n <=? 32)
   || (n =? 133) || (n =? 160))%N.

Fixpoint lstrip (s : string) : string :=
  match s with
  | EmptyString => EmptyString
  | String c s' => if isspace c then lstrip s' else s
  end.

(** [rstrip] keeps a character when it is not a space or when something
    is kept after it. *)
Fixpoint rstrip (s : string) : string :=
  match s with
  | EmptyString => EmptyString
  | String c s' =>
      match rstrip s' with
      | EmptyString => if isspace c then EmptyString else String c EmptyString
      | r => String c r
      end
  end.

(** [s.strip()] *)
Definition strip (s : string) : string := rstrip (lstrip s).

(** Truth value of a string: non-empty. *)
Definition truthy (s : string) : bool :=
  match s with EmptyString => false | _ => true end.

(** The code points of an embedded string. *)
Definition pystr := list N.

Fixpoint codepoints (s : string) : pystr :=
  match s with
  | EmptyString => []
  | String c s' => N_of_ascii c :: codepoints s'
  end.

(** [len(l)] of a sequence; for a [pystr], the number of code points. *)
Definition len {A} (l : list A) : Z := Z.of_nat (length l).

(** The number of bytes of one code point in UTF-8. *)
Definition utf8_width (c : N) : Z :=
  if (c <? 128)%N then 1
  else if (c <? 2048)%N then 2
  else if (c <? 65536)%N then 3 else 4.

(** [len(text.encode("utf-8"))] *)
Definition length_in_bytes (text : pystr) : Z :=
  foldr (fun c acc => utf8_width c + acc)%Z 0%Z text.

End Py.

(** ** The part of [networkx] the script uses

    A [DiGraph] is its successor table: every node is a key, mapped to the
    set of its successors. *)

Module nx.

Abbreviation DiGraph := (gmap string (gset string)).

Definition nodes (g : DiGraph) : gset string := dom g.

Definition successors (g : DiGraph) (n : string) : gset string :=
  default ∅ (g !! n).

(** [u -> v] is an edge of [g]. *)
Definition edge (g : DiGraph) (u v : string) : Prop := v ∈ successors g u.

(** [graph.add_node(n)] *)
Definition add_node (g : DiGraph) (n : string) : DiGraph :=
  match g !! n with
  | Some _ => g
  | None => <[n := ∅]> g
  end.

(** [graph.add_edge(u, v)]: both end points become nodes. *)
Definition add_edge (g : DiGraph) (u v : string) : DiGraph :=
  let g' := add_node (add_node g u) v in
  <[u := successors g' u ∪ {[v]}]> g'.

(** The edges from one node to a list of targets, added in order. *)
Definition add_edges (g : DiGraph) (u : string) (targets : list string)
    : DiGraph :=
  foldl (fun g v => add_edge g u v) g targets.

(** Every successor is a node: holds of every graph made by [add_node]
    and [add_edge]. *)
Definition closed (g : DiGraph) : Prop := ∀ u, successors g u ⊆ dom g.

(** The same as a test. *)
Definition closed_dec (g : DiGraph) : bool :=
  bool_decide (map_Forall (fun _ (succs : gset string) => succs ⊆ dom g) g).

(** Modelled from the spec: [nx.descendants] belongs to the networkx
    library and is not part of the sources; the spec words it as "all
    nodes transitively reachable via outgoing edges, excluding entry
    itself, using a visited-set traversal".  This is the library's
    breadth-first search over a queue of discovered nodes: a child not
    yet visited is reported, marked visited and queued; the result is the
    set of reported children.  The loop runs on [fuel]; [None] is fuel
    exhausted. *)
Fixpoint bfs (fuel : nat) (g : DiGraph) (visited out : gset string)
    (queue : list string) : option (gset string) :=
  match fuel with
  | O => None
  | S fuel' =>
      match queue with
      | [] => Some out
      | parent :: rest =>
          let children := elements (successors g parent ∖ visited) in
          bfs fuel' g (visited ∪ list_to_set children)
              (out ∪ list_to_set children) (rest ++ children)
      end
  end.

(** What holds of the visited set, the reported set and the queue every
    time the loop tests its queue. *)
Record bfs_inv (g : DiGraph) (source : string) (visited out : gset string)
    (queue : list string) : Prop := {
  inv_source : source ∈ visited;
  inv_out : out = visited ∖ {[source]};
  inv_dom : visited ⊆ dom g;
  inv_queue : ∀ v, v ∈ queue → v ∈ visited;
  inv_frontier : ∀ v, v ∈ visited → v ∈ queue ∨ successors g v ⊆ visited;
  inv_sound : ∀ v, v ∈ visited → rtc (edge g) source v
}.

(** Modelled from the spec: [nx.descendants(g, source)], the search
    from [source] alone, with fuel for one round per node and one more. *)
Definition descendants (g : DiGraph) (source : string)
    : option (gset string) :=
  bfs (S (size (dom g))) g {[source]} ∅ [source].

End nx.

(** ** [pathlib] paths and the file system *)

Module pathlib.
Import Py.

(** A pure path: anchored at the root or relative, with its components;
    the constructor drops empty and [.] components. *)
Record Path := mkPath { absolute : bool; parts : list string }.

Definition keep_part (p : string) : bool :=
  negb (String.eqb p EmptyString) && negb (String.eqb p ".").

(** [Path(s)].  (A root written with exactly two slashes, which pathlib
    keeps apart, is read as the root.) *)
Definition Path_of (s : string) : Path :=
  {| absolute := startswith s "/";
     parts := List.filter keep_part (split s "/") |}.

(** [p / s] *)
Definition joinpath (p : Path) (s : string) : Path :=
  let q := Path_of s in
  if absolute q then q
  else {| absolute := absolute p; parts := parts p ++ parts q |}.

(** [p / name] for one component produced by a directory listing. *)
Definition child (p : Path) (name : string) : Path :=
  {| absolute := absolute p; parts := parts p ++ [name] |}.

(** [str(p)] *)
Definition str (p : Path) : string :=
  if absolute p then "/" +:+ join "/" (parts p)
  else match parts p with
       | [] => "."
       | _ => join "/" (parts p)
       end.

(** [p.parent] *)
Definition parent (p : Path) : Path :=
  {| absolute := absolute p; parts := removelast (parts p) |}.

(** [p.parts]: the anchor counts as a part. *)
Definition py_parts (p : Path) : list string :=
  if absolute p then "/" :: parts p else parts p.

(** Lexical normalisation of components against a stack of directories. *)
Fixpoint normalize (stack : list string) (ps : list string) : list string :=
  match ps with
  | [] => stack
  | p :: ps' =>
      if String.eqb p ".." then normalize (removelast stack) ps'
      else normalize (stack ++ [p]) ps'
  end.

(** The file system: a tree of directories and regular files.  It has no
    symbolic links, no permissions and no limits on names. *)
Inductive fsnode :=
| File (text : option string)
    (* a regular file; [None]: opening or decoding it fails *)
| Dir (entries : list (string * fsnode)).

(** The file system with the working directory of the process. *)
Record world := mkWorld { root : fsnode; cwd : list string }.

Fixpoint assoc {A} (k : string) (l : list (string * A)) : option A :=
  match l with
  | [] => None
  | (k', v) :: l' => if String.eqb k k' then Some v else assoc k l'
  end.

(** The node at normalised absolute components. *)
Fixpoint lookup_node (n : fsnode) (ps : list string) : option fsnode :=
  match ps with
  | [] => Some n
  | p :: ps' =>
      match n with
      | File _ => None
      | Dir es =>
          match assoc p es with
          | Some c => lookup_node c ps'
          | None => None
          end
      end
  end.

Definition is_dir_node (o : option fsnode) : bool :=
  match o with Some (Dir _) => true | _ => false end.

(** [p.resolve()] (non strict): with no symbolic links in the tree, the
    path is made absolute and normalised as it is written. *)
Definition resolve (w : world) (p : Path) : Path :=
  {| absolute := true;
     parts := normalize (if absolute p then [] else cwd w) (parts p) |}.

(** Where the operating system arrives when it walks the components of a
    path: every component is taken from an existing directory. *)
Fixpoint walk (r : fsnode) (cur : list string) (ps : list string)
    : option (list string) :=
  match ps with
  | [] => Some cur
  | p :: ps' =>
      if is_dir_node (lookup_node r cur)
      then walk r (if String.eqb p ".." then removelast cur
                   else cur ++ [p]) ps'
      else None
  end.

Definition locate (w : world) (p : Path) : option (list string) :=
  walk (root w) (if absolute p then [] else cwd w) (parts p).

Definition stat (w : world) (p : Path) : option fsnode :=
  match locate w p with
  | Some loc => lookup_node (root w) loc
  | None => None
  end.

Definition exists_ (w : world) (p : Path) : bool :=
  match stat w p with Some _ => true | None => false end.

Definition is_dir (w : world) (p : Path) : bool := is_dir_node (stat w p).

Definition is_file (w : world) (p : Path) : bool :=
  match stat w p with Some (File _) => true | _ => false end.

(** [open(p, "r", encoding="utf-8").read()]; [None] is an exception.
    The text is returned as the file holds it: that reading in text mode
    turns a carriage return, alone or before a line feed, into a line
    feed is not modelled. *)
Definition read_text (w : world) (p : Path) : option string :=
  match stat w p with
  | Some (File (Some text)) => Some text
  | _ => None
  end.

(** The pattern [*.tf] on one name. *)
Definition is_tf (name : string) : bool := endswith name ".tf".

(** [p.glob("*.tf")]: the direct entries of the directory [p]; nothing
    when [p] is not a directory. *)
Definition glob_tf (w : world) (p : Path) : list Path :=
  match stat w p with
  | Some (Dir es) =>
      map (child p) (List.filter is_tf (map fst es))
  | _ => []
  end.

(** The entries named [*.tf] at any depth below a node, as components
    relative to it. *)
Fixpoint tf_below (n : fsnode) : list (list string) :=
  match n with
  | File _ => []
  | Dir es =>
      (fix go (es : list (string * fsnode)) : list (list string) :=
         match es with
         | [] => []
         | (name, c) :: es' =>
             (if is_tf name then [[name]] else [])
             ++ map (cons name) (tf_below c) ++ go es'
         end) es
  end.

(** [p.glob("**/*.tf")] *)
Definition rglob_tf (w : world) (p : Path) : list Path :=
  match stat w p with
  | Some n =>
      map (fun rel => {| absolute := absolute p; parts := parts p ++ rel |})
          (tf_below n)
  | None => []
  end.

Fixpoint update_assoc {A} (k : string) (v : A) (l : list (string * A))
    : list (string * A) :=
  match l with
  | [] => [(k, v)]
  | (k', v') :: l' =>
      if String.eqb k k' then (k, v) :: l' else (k', v') :: update_assoc k v l'
  end.

(** Writing a file at normalised components: the directory above must
    exist and the target must not be a directory. *)
Fixpoint write_node (ps : list string) (text : string) (n : fsnode)
    : option fsnode :=
  match ps, n with
  | [], File _ => Some (File (Some text))
  | [], Dir _ => None
  | _ :: _, File _ => None
  | p :: ps', Dir es =>
      match assoc p es with
      | Some c =>
          match write_node ps' text c with
          | Some c' => Some (Dir (update_assoc p c' es))
          | None => None
          end
      | None =>
          match ps' with
          | [] => Some (Dir (update_assoc p (File (Some text)) es))
          | _ :: _ => None
          end
      end
  end.

(** [with open(p, "w", encoding="utf-8") as f: f.write(text)];
    [None] is an exception.  The write fails when the directory above is
    missing or a directory stands in the place of the file; what else an
    operating system refuses (a name of more than 255 bytes or with a NUL
    character, a missing permission, a text that cannot be encoded) is
    not modelled. *)
Definition write_text (w : world) (p : Path) (text : string)
    : option world :=
  match locate w (parent p), parts p with
  | Some dir, _ :: _ =>
      let name := List.last (parts p) EmptyString in
      if String.eqb name ".." then None
      else if is_dir_node (lookup_node (root w) dir)
      then match write_node (dir ++ [name]) text (root w) with
           | Some r => Some {| root := r; cwd := cwd w |}
           | None => None
           end
      else None
  | _, _ => None
  end.

(** Two nodes name the same file when they resolve to the same path. *)
Definition same_file (w : world) (n1 n2 : string) : Prop :=
  resolve w (Path_of n1) = resolve w (Path_of n2).

(** The ways a system call on a path fails in a tree without
    permissions. *)
Inductive errno := ENOENT | EEXIST | ENOTDIR.

(** The exception raised for an error number. *)
Definition exception (e : errno) : string :=
  match e with
  | ENOENT => "FileNotFoundError"
  | EEXIST => "FileExistsError"
  | ENOTDIR => "NotADirectoryError"
  end.

(** [walk] with the reason for which the walk stops. *)
Fixpoint trace (r : fsnode) (cur : list string) (ps : list string)
    : list string + errno :=
  match ps with
  | [] => inl cur
  | p :: ps' =>
      match lookup_node r cur with
      | Some (Dir _) =>
          trace r (if String.eqb p ".." then removelast cur
                   else cur ++ [p]) ps'
      | Some (File _) => inr ENOTDIR
      | None => inr ENOENT
      end
  end.

(** A new empty directory at normalised components: the directory above
    must exist and the name must be free. *)
Fixpoint mkdir_node (ps : list string) (n : fsnode) : fsnode + errno :=
  match n with
  | File _ => match ps with [] => inr EEXIST | _ :: _ => inr ENOTDIR end
  | Dir es =>
      match ps with
      | [] => inr EEXIST
      | p :: ps' =>
          match assoc p es, ps' with
          | Some c, _ =>
              match mkdir_node ps' c with
              | inl c' => inl (Dir (update_assoc p c' es))
              | inr e => inr e
              end
          | None, [] => inl (Dir (update_assoc p (Dir []) es))
          | None, _ :: _ => inr ENOENT
          end
      end
  end.

(** [os.mkdir(p)] *)
Definition os_mkdir (w : world) (p : Path) : world + errno :=
  match parts p with
  | [] => inr EEXIST
  | _ :: _ =>
      let name := List.last (parts p) EmptyString in
      match trace (root w) (if absolute p then [] else cwd w)
                  (parts (parent p)) with
      | inr e => inr e
      | inl dir =>
          if String.eqb name ".." then
            match lookup_node (root w) dir with
            | Some (Dir _) => inr EEXIST
            | Some (File _) => inr ENOTDIR
            | None => inr ENOENT
            end
          else
            match mkdir_node (dir ++ [name]) (root w) with
            | inl r => inl {| root := r; cwd := cwd w |}
            | inr e => inr e
            end
      end
  end.

(** [p.mkdir(parents=True, exist_ok=True)] for the path with the
    components [rev rparts]: [os.mkdir]; when a directory above is
    missing, the same for the parent and [os.mkdir] once more; any other
    error is passed over when the path is a directory.  The result is the
    file system left behind, with the error when the call raises. *)
Fixpoint mkdir_from (w : world) (anchored : bool) (rparts : list string)
    : world * option errno :=
  let self := {| absolute := anchored; parts := rev rparts |} in
  match os_mkdir w self with
  | inl w' => (w', None)
  | inr ENOENT =>
      match rparts with
      | [] => (w, Some ENOENT)
      | _ :: rparent =>
          match mkdir_from w anchored rparent with
          | (w1, None) =>
              match os_mkdir w1 self with
              | inl w2 => (w2, None)
              | inr ENOENT => (w1, Some ENOENT)
              | inr e => if is_dir w1 self then (w1, None) else (w1, Some e)
              end
          | (w1, Some e) => (w1, Some e)
          end
      end
  | inr e => if is_dir w self then (w, None) else (w, Some e)
  end.

Definition mkdir (w : world) (p : Path) : world * option errno :=
  mkdir_from w (absolute p) (rev (parts p)).

(** [p == q] for two paths *)
Definition path_eqb (p q : Path) : bool :=
  Bool.eqb (absolute p) (absolute q) && bool_decide (parts p = parts q).

Definition is_file_node (o : option fsnode) : bool :=
  match o with Some (File _) => true | _ => false end.

(** From one tree to another, every directory is still a directory and
    every regular file still a regular file. *)
Definition keeps_kinds (r r' : fsnode) : Prop :=
  (∀ q, is_dir_node (lookup_node r q) = true →
        is_dir_node (lookup_node r' q) = true)
  ∧ (∀ q, is_file_node (lookup_node r q) = true →
          is_file_node (lookup_node r' q) = true).

(** A name that is one component of a path and names an entry. *)
Definition bare (name : string) : bool :=
  negb (contains "/" name) && keep_part name && negb (String.eqb name "..").

(** A tree in which every entry of every directory has a name that is
    one component of a path. *)
Fixpoint well_named (n : fsnode) : bool :=
  match n with
  | File _ => true
  | Dir es =>
      (fix go (es : list (string * fsnode)) : bool :=
         match es with
         | [] => true
         | (name, c) :: es' => bare name && well_named c && go es'
         end) es
  end.

End pathlib.

(** ** The part of the [re] module the script uses

    A backtracking matcher for the constructs that occur in the patterns of
    the script.  Repetition is only ever applied to one character class, so
    the matcher is structurally recursive.  Alternatives are tried in
    order, greedy repetition tries the longest run first and lazy
    repetition the shortest, as [re] does. *)

Module re.
Import Py.

Inductive cclass :=
| Any                    (* [.] under DOTALL *)
| Space                  (* [\s] *)
| OneOf (cs : string)    (* [[...]] *)
| NoneOf (cs : string).  (* [[^...]] *)

Fixpoint mem (c : ascii) (cs : string) : bool :=
  match cs with
  | EmptyString => false
  | String d cs' => Ascii.eqb c d || mem c cs'
  end.

Definition in_class (k : cclass) (c : ascii) : bool :=
  match k with
  | Any => true
  | Space => isspace c
  | OneOf cs => mem c cs
  | NoneOf cs => negb (mem c cs)
  end.

Inductive regex :=
| Lit (s : string)            (* the characters of [s] *)
| Cls (k : cclass)            (* one character of a class *)
| Seq (r1 r2 : regex)         (* [r1 r2] *)
| Alt (r1 r2 : regex)         (* [r1|r2] *)
| Opt (r : regex)             (* [r?] *)
| Star (k : cclass)           (* [k*] *)
| Plus (k : cclass)           (* [k+] *)
| LazyStar (k : cclass)       (* [k*?] *)
| LazyPlus (k : cclass)       (* [k+?] *)
| Group (i : nat) (r : regex) (* the capturing group number [i] *)
| Lookahead (r : regex)       (* [(?=r)] *)
| Bos                         (* [^] without MULTILINE *)
| Eos.                        (* [$] without MULTILINE *)

(** The regexes of a list one after the other. *)
Definition cat (rs : list regex) : regex := foldr Seq (Lit EmptyString) rs.

(** A position of the matcher: the text still ahead, whether it is the
    start of the subject, and the groups captured so far. *)
Record mstate := mkState {
  rest : string;
  bos : bool;
  caps : list (nat * string)
}.

Definition advance (st : mstate) (s : string) : mstate :=
  {| rest := s; bos := false; caps := caps st |}.

(** [s] without the prefix [p], when it starts with it. *)
Fixpoint strip_prefix (p s : string) : option string :=
  match p with
  | EmptyString => Some s
  | String c p' =>
      match s with
      | EmptyString => None
      | String d s' => if Ascii.eqb c d then strip_prefix p' s' else None
      end
  end.

(** The first [n] characters of [s]. *)
Fixpoint take (n : nat) (s : string) : string :=
  match n, s with
  | S n', String c s' => String c (take n' s')
  | _, _ => EmptyString
  end.

(** The text between two positions of the same subject. *)
Definition between (before after : string) : string :=
  take (String.length before - String.length after) before.

Fixpoint greedy (k : cclass) (st : mstate) (s : string)
    (cont : mstate -> option mstate) (first : bool) : option mstate :=
  let here := if first then st else advance st s in
  match s with
  | String c s' =>
      if in_class k c then
        match greedy k st s' cont false with
        | Some m => Some m
        | None => cont here
        end
      else cont here
  | EmptyString => cont here
  end.

Fixpoint lazy (k : cclass) (st : mstate) (s : string)
    (cont : mstate -> option mstate) (first : bool) : option mstate :=
  let here := if first then st else advance st s in
  match cont here with
  | Some m => Some m
  | None =>
      match s with
      | String c s' => if in_class k c then lazy k st s' cont false else None
      | EmptyString => None
      end
  end.

(** One character of the class, then the continuation. *)
Definition one (k : cclass) (st : mstate)
    (cont : mstate -> string -> option mstate) : option mstate :=
  match rest st with
  | String c s' => if in_class k c then cont st s' else None
  | EmptyString => None
  end.

Definition at_end (s : string) : bool :=
  String.eqb s EmptyString || String.eqb s nl.

Fixpoint run (r : regex) (st : mstate) (cont : mstate -> option mstate)
    : option mstate :=
  match r with
  | Lit l =>
      match l with
      | EmptyString => cont st
      | _ => match strip_prefix l (rest st) with
             | Some s' => cont (advance st s')
             | None => None
             end
      end
  | Cls k => one k st (fun st s' => cont (advance st s'))
  | Seq r1 r2 => run r1 st (fun st' => run r2 st' cont)
  | Alt r1 r2 =>
      match run r1 st cont with
      | Some m => Some m
      | None => run r2 st cont
      end
  | Opt r1 =>
      match run r1 st cont with
      | Some m => Some m
      | None => cont st
      end
  | Star k => greedy k st (rest st) cont true
  | Plus k => one k st (fun st s' => greedy k st s' cont false)
  | LazyStar k => lazy k st (rest st) cont true
  | LazyPlus k => one k st (fun st s' => lazy k st s' cont false)
  | Group i r1 =>
      run r1 st (fun st' =>
        cont {| rest := rest st'; bos := bos st';
                caps := (i, between (rest st) (rest st')) :: caps st' |})
  | Lookahead r1 =>
      match run r1 st Some with
      | Some _ => cont st
      | None => None
      end
  | Bos => if bos st then cont st else None
  | Eos => if at_end (rest st) then cont st else None
  end.

(** A match of [r] starting exactly at the position [s]. *)
Definition match_at (r : regex) (start : bool) (s : string)
    : option mstate :=
  run r {| rest := s; bos := start; caps := [] |} Some.

(** The number of characters a match starting at [s] covers. *)
Definition span (s : string) (m : mstate) : nat :=
  String.length s - String.length (rest m).

(** The matches found from the left without overlap.  [skip] counts the
    characters of the last match still to pass over. *)
Fixpoint scan (r : regex) (start : bool) (skip : nat) (s : string)
    : list mstate :=
  match s with
  | EmptyString =>
      match skip, match_at r start s with
      | O, Some m => [m]
      | _, _ => []
      end
  | String c s' =>
      match skip with
      | S k => scan r false k s'
      | O =>
          match match_at r start s with
          | Some m => m :: scan r false (span s m - 1) s'
          | None => scan r false 0 s'
          end
      end
  end.

(** The text of group [i] of a match, empty when the group took no part. *)
Definition group (i : nat) (m : mstate) : string :=
  default EmptyString (snd <$> List.find (fun c => Nat.eqb (fst c) i) (caps m)).

(** [pattern.findall(s)] for a pattern with two groups. *)
Definition findall (r : regex) (s : string) : list (string * string) :=
  map (fun m => (group 1 m, group 2 m)) (scan r true 0 s).

(** [re.sub(pattern, '', s)] *)
Fixpoint sub_from (r : regex) (start : bool) (skip : nat) (s : string)
    : string :=
  match s with
  | EmptyString => EmptyString
  | String c s' =>
      match skip with
      | S k => sub_from r false k s'
      | O =>
          match match_at r start s with
          | Some m =>
              match span s m with
              | O => String c (sub_from r false 0 s')
              | S k => sub_from r false k s'
              end
          | None => String c (sub_from r false 0 s')
          end
      end
  end.

Definition sub (r : regex) (s : string) : string := sub_from r true 0 s.

(** [re.search(pattern, s)] as a truth value *)
Definition search (r : regex) (s : string) : bool :=
  match scan r true 0 s with [] => false | _ => true end.

(** Every character of a text is of a class. *)
Fixpoint all_in (k : cclass) (s : string) : bool :=
  match s with
  | EmptyString => true
  | String c s' => in_class k c && all_in k s'
  end.

(** What a successful run of a pattern between two positions tells about
    the text passed over and the groups captured. *)
Fixpoint reaches (r : regex) (st st' : mstate) : Prop :=
  match r with
  | Lit l => rest st = l +:+ rest st' ∧ caps st' = caps st
  | Cls k =>
      ∃ c, rest st = String c (rest st') ∧ in_class k c = true
           ∧ caps st' = caps st
  | Seq r1 r2 => ∃ mid, reaches r1 st mid ∧ reaches r2 mid st'
  | Alt r1 r2 => reaches r1 st st' ∨ reaches r2 st st'
  | Opt r1 => reaches r1 st st' ∨ st' = st
  | Star k | LazyStar k =>
      ∃ run, rest st = run +:+ rest st' ∧ all_in k run = true
             ∧ caps st' = caps st
  | Plus k | LazyPlus k =>
      ∃ c run, rest st = String c run +:+ rest st'
               ∧ all_in k (String c run) = true ∧ caps st' = caps st
  | Group i r1 =>
      ∃ st1, reaches r1 st st1 ∧ rest st' = rest st1
             ∧ caps st' = (i, between (rest st) (rest st1)) :: caps st1
  | Lookahead r1 => st' = st ∧ ∃ st1, reaches r1 st st1
  | Bos => st' = st
  | Eos => st' = st ∧ at_end (rest st) = true
  end.

End re.

(** ** Values produced by the HCL parser *)

Module hcl.

Inductive pyval :=
| VStr (s : string)
| VList (l : list pyval)
| VDict (d : list (string * pyval))   (* items in insertion order *)
| VOther.                             (* numbers, booleans, None *)

(** ["source" in v]; [None] is a TypeError. *)
Definition has_source (v : pyval) : option bool :=
  match v with
  | VDict d => Some (bool_decide (is_Some (pathlib.assoc "source" d)))
  | VStr s => Some (Py.contains "source" s)
  | VList l =>
      Some (existsb (fun x => match x with
                              | VStr s => String.eqb s "source"
                              | _ => false
                              end) l)
  | VOther => None
  end.

(** [v["source"]]; [None] is a KeyError or a TypeError. *)
Definition get_source (v : pyval) : option pyval :=
  match v with
  | VDict d => pathlib.assoc "source" d
  | _ => None
  end.

(** A declaration whose configuration is a dictionary with a [source]
    attribute. *)
Definition has_source_key (decl : string * pyval) : Prop :=
  ∃ d, snd decl = VDict d ∧ is_Some (pathlib.assoc "source" d).

End hcl.

(** ** The class [TerraformEnhancer] *)

Module TerraformEnhancer.
Import Py nx pathlib hcl.

(** The attributes of an instance that the core reads.  [encoding] is
    the tokenizer chosen by the constructor, [None] when it could not be
    built; [graph] is [None] until the graph is built. *)
Record t := mk {
  target_dir : Path;
  output_dir : Path;
  encoding : option (pystr -> list Z);
  graph : option DiGraph
}.

(** An argument typed [Union[str, Path]]. *)
Inductive str_or_path :=
| AsStr (s : string)
| AsPath (p : Path).

(** [str(x)] *)
Definition py_str (x : str_or_path) : string :=
  match x with AsStr s => s | AsPath p => str p end.

(** How a call ends; [OutOfFuel] is a library loop of the model left
    without fuel. *)
Inductive outcome (A : Type) :=
| Returns (a : A)
| Raises (exn : string)
| OutOfFuel.
Arguments Returns {A} a.
Arguments Raises {A} exn.
Arguments OutOfFuel {A}.

(** How a block of statements ends inside a [try]. *)
Inductive completion := Normal | Raised.

(** A [for] loop whose body updates the graph and may raise: the loop
    stops at the first exception and keeps the updates made so far. *)
Fixpoint for_each {A} (body : A -> DiGraph -> DiGraph * completion)
    (l : list A) (g : DiGraph) : DiGraph * completion :=
  match l with
  | [] => (g, Normal)
  | x :: l' =>
      match body x g with
      | (g', Normal) => for_each body l' g'
      | (g', Raised) => (g', Raised)
      end
  end.

(** [count_tokens] *)
Definition count_tokens (self : t) (text : pystr) : Z :=
  match encoding self with
  | Some encode => len (encode text)
  | None => (len text / 4)%Z
  end.

Section methods.

(** [hcl2.load] on the text of a file: the top-level dictionary, or
    [None] when the parser raises. *)
Variable hcl2_load : string -> option (list (string * pyval)).

Variable w : world.

(** [_add_module_dependency] *)
Definition _add_module_dependency (graph : DiGraph) (source : pyval)
    (tf_file : Path) (file_path : string) : DiGraph * completion :=
  match source with
  | VStr source =>
      if startswith source "."
         || negb (startswith source "git::" || contains ":" source)
      then
        let base_dir := parent tf_file in
        let module_path := resolve w (joinpath base_dir source) in
        if exists_ w module_path && is_dir w module_path then
          (foldl (fun g module_tf => add_edge g file_path (str module_tf))
                 graph (glob_tf w module_path), Normal)
        else if String.eqb source "../../" || String.eqb source "../" then
          let root_path := module_path in
          (foldl (fun g root_tf => add_edge g file_path (str root_tf))
                 graph (glob_tf w root_path), Normal)
        else (graph, Normal)
      else (graph, Normal)
  | _ => (graph, Raised)
  end.

(** The test by which [_add_module_dependency] takes a source as a
    local path. *)
Definition local_source (source : string) : bool :=
  startswith source "."
  || negb (startswith source "git::" || contains ":" source).

(** [_process_module_list] *)
Definition _process_module_list (graph : DiGraph) (modules : list pyval)
    (tf_file : Path) (file_path : string) : DiGraph * completion :=
  for_each (fun module_dict g =>
    match module_dict with
    | VDict items =>
        for_each (fun (item : string * pyval) g =>
          let module_config := snd item in
          match has_source module_config with
          | Some true =>
              match get_source module_config with
              | Some source =>
                  _add_module_dependency g source tf_file file_path
              | None => (g, Raised)
              end
          | Some false => (g, Normal)
          | None => (g, Raised)
          end) items g
    | _ => (g, Raised)
    end) modules graph.

(** [_process_module_dict] *)
Definition _process_module_dict (graph : DiGraph) (modules : pyval)
    (tf_file : Path) (file_path : string) : DiGraph * completion :=
  match modules with
  | VDict items =>
      for_each (fun (item : string * pyval) g =>
        let module_config :=
          match snd item with
          | VList (first :: _) => first
          | other => other
          end in
        match module_config with
        | VDict d =>
            let source := default (VStr EmptyString) (assoc "source" d) in
            _add_module_dependency g source tf_file file_path
        | _ => (g, Raised)
        end) items graph
  | _ => (graph, Raised)
  end.

(** The body of the scanning loop of [build_dependency_graph]. *)
Definition scan_file (graph : DiGraph) (tf_file : Path) : DiGraph :=
  if contains ".terraform" (str tf_file)
     || existsb (fun p => startswith p ".") (py_parts tf_file)
  then graph
  else
    let file_path := str tf_file in
    let graph := add_node graph file_path in
    match read_text w tf_file with
    | None => graph
    | Some text =>
        match hcl2_load text with
        | None => graph
        | Some data =>
            let modules := default (VDict []) (assoc "module" data) in
            fst match modules with
                | VList (m :: ms) =>
                    _process_module_list graph (m :: ms) tf_file file_path
                | _ =>
                    _process_module_dict graph modules tf_file file_path
                end
        end
    end.

(** [build_dependency_graph]: the graph it returns and stores. *)
Definition build_dependency_graph (self : t) : DiGraph :=
  let repo_root := target_dir self in
  let tf_files := rglob_tf w repo_root in
  foldl scan_file ∅ tf_files.

(** [get_relevant_files] *)
Definition get_relevant_files (self : t) (entry_point : str_or_path)
    : outcome (gset string) :=
  let entry_str := py_str entry_point in
  match graph self with
  | None => Raises "ValueError"
  | Some g =>
      if bool_decide (dom g = ∅) then Raises "ValueError"
      else if bool_decide (entry_str ∈ dom g) then
        match descendants g entry_str with
        | Some found => Returns found
        | None => OutOfFuel
        end
      else Returns ∅
  end.

(** The labelled block of one file, when the file is a regular file
    that can be read and is not blank. *)
Definition file_block (file_path : string) : option string :=
  let path := Path_of file_path in
  if is_file w path then
    match read_text w path with
    | Some content =>
        if truthy (strip content)
        then Some ("FILE: " +:+ str path +:+ nl +:+ content +:+ nl)
        else None
    | None => None
    end
  else None.

(** The state of the loops of [_truncate_context]. *)
Record budget := mkBudget {
  truncated_context : list string;
  current_tokens : Z;
  files_included : Z
}.

(** The body shared by the two loops of [_truncate_context]. *)
Definition consider (self : t) (st : budget) (file_path : string)
    : budget :=
  match file_block file_path with
  | Some file_text =>
      let file_tokens := count_tokens self (codepoints file_text) in
      if (current_tokens st + file_tokens <=? 70000)%Z then
        {| truncated_context := truncated_context st ++ [file_text];
           current_tokens := (current_tokens st + file_tokens)%Z;
           files_included := (files_included st + 1)%Z |}
      else st
  | None => st
  end.

(** The tokens of a labelled block. *)
Definition tokens (self : t) (file_text : string) : Z :=
  count_tokens self (codepoints file_text).

(** The state after a block was taken in. *)
Definition include (self : t) (st : budget) (file_text : string) : budget :=
  {| truncated_context := truncated_context st ++ [file_text];
     current_tokens := current_tokens st + tokens self file_text;
     files_included := files_included st + 1 |}%Z.

(** The running total and the counter describe the blocks kept. *)
Definition accurate (self : t) (st : budget) : Prop :=
  current_tokens st = foldr (fun t acc => tokens self t + acc)%Z 0%Z
                            (truncated_context st)
  ∧ files_included st = len (truncated_context st).

(** [_truncate_context], up to its last log line: the state reached
    after the priority files and the other files. *)
Definition truncate_walk (self : t) (files_to_read : list string)
    (entry_point : str_or_path) : budget :=
  let priority_files := [py_str entry_point] in
  let other_files :=
    List.filter (fun f => negb (String.eqb f (py_str entry_point)))
                files_to_read in
  foldl (consider self)
        (foldl (consider self) (mkBudget [] 0 0) priority_files)
        other_files.

(** [_truncate_context] *)
Definition _truncate_context (self : t) (files_to_read : list string)
    (entry_point : str_or_path) : string :=
  join nl (truncated_context (truncate_walk self files_to_read entry_point)).

(** The text of the prompt of [generate_prompt]. *)
Definition prompt_text (entry_point : str_or_path)
    (combined_context : string) : string :=
  nl +:+ join nl [
    "You are a Terraform expert. Update the VPC configuration in "
      +:+ py_str entry_point +:+ " ";
    "to add security configurations including:";
    "1. Network ACLs with strict inbound/outbound rules";
    "2. Flow logs for VPC traffic monitoring to CloudWatch";
    "3. Security Group enhancements with least privilege access";
    "4. Encryption for S3 endpoints and any other relevant services";
    "5. VPC Endpoint policies with proper restrictions";
    EmptyString;
    "IMPORTANT: Format your response as follows:";
    "- For each file you modify, include the filename preceded by "
      +:+ dq +:+ "FILE: " +:+ dq;
    "- Example: " +:+ dq +:+ "FILE: main.tf" +:+ dq;
    "- Then provide the complete file content with your security enhancements";
    "- DO NOT include markdown code block markers";
    "- DO NOT include any explanatory text outside the actual code";
    "- Include ALL necessary code for each file, not just the changes";
    "- The content must be valid Terraform syntax that can be directly saved to .tf files";
    EmptyString;
    "Only modify AWS resources, keeping the existing structure and module usage patterns.";
    EmptyString;
    "Current code context:";
    combined_context;
    EmptyString ].

(** The context of [generate_prompt] with its number of files, before
    the prompt is composed.  [relevant_files] is the set in the order
    in which Python enumerates it. *)
Definition assemble (self : t) (entry_point : str_or_path)
    (relevant_files : list string) : string * Z :=
  let files_to_read := py_str entry_point :: relevant_files in
  let code_context := omap file_block files_to_read in
  let files_included := len code_context in
  let combined_context := join nl code_context in
  let token_estimate := count_tokens self (codepoints combined_context) in
  if (80000 <? token_estimate)%Z then
    let combined_context :=
      _truncate_context self files_to_read entry_point in
    (combined_context,
     (len (split combined_context "FILE:") - 1)%Z)
  else (combined_context, files_included).

(** [generate_prompt]: (prompt, token_count, files_included) *)
Definition generate_prompt (self : t) (entry_point : str_or_path)
    (relevant_files : list string) : string * Z * Z :=
  let '(combined_context, files_included) :=
    assemble self entry_point relevant_files in
  let prompt := prompt_text entry_point combined_context in
  let total_tokens := count_tokens self (codepoints prompt) in
  (prompt, total_tokens, files_included).

(** The patterns of [extract_file_content]. *)

(** [```(?:terraform|hcl|tf)?\n] *)
Definition FENCE_OPEN : re.regex :=
  re.cat [re.Lit "```";
          re.Opt (re.Alt (re.Lit "terraform")
                    (re.Alt (re.Lit "hcl") (re.Lit "tf")));
          re.Lit nl].

(** [```] *)
Definition FENCE : re.regex := re.Lit "```".

(** [FILE:\s+(.+?\.tf)\s*\n(.*?)(?=FILE:|$)] under DOTALL *)
Definition FILE_PATTERN : re.regex :=
  re.cat [re.Lit "FILE:"; re.Plus re.Space;
          re.Group 1 (re.cat [re.LazyPlus re.Any; re.Lit ".tf"]);
          re.Star re.Space; re.Lit nl;
          re.Group 2 (re.LazyStar re.Any);
          re.Lookahead (re.Alt (re.Lit "FILE:") re.Eos)].

(** [(?:^|\n)([^:\n]+\.tf)\s*[:]\s*\n(.*?)(?=\n[^:\n]+\.tf\s*[:]\s*\n|$)]
    under DOTALL *)
Definition PATH_COLON_PATTERN : re.regex :=
  let not_colon_nl := re.NoneOf (String ":" nl) in
  re.cat [re.Alt re.Bos (re.Lit nl);
          re.Group 1 (re.cat [re.Plus not_colon_nl; re.Lit ".tf"]);
          re.Star re.Space; re.Cls (re.OneOf ":");
          re.Star re.Space; re.Lit nl;
          re.Group 2 (re.LazyStar re.Any);
          re.Lookahead
            (re.Alt (re.cat [re.Lit nl; re.Plus not_colon_nl;
                             re.Lit ".tf"; re.Star re.Space;
                             re.Cls (re.OneOf ":"); re.Star re.Space;
                             re.Lit nl])
                    re.Eos)].

(** A text that opens with the three backquotes of a fence. *)
Definition fenced (s : string) : string :=
  String "`" (String "`" (String "`" s)).

(** The tags that the opening fence takes with it. *)
Definition known_tags : list string := ["terraform"; "hcl"; "tf"; EmptyString].

(** The first step of [extract_file_content]: the reply without its
    Markdown fences. *)
Definition clean_response (response : string) : string :=
  let cleaned_response := re.sub FENCE_OPEN response in
  re.sub FENCE cleaned_response.

(** The segments found by the [FILE:] grammar or, when it finds none,
    by the path-colon grammar. *)
Definition find_segments (cleaned_response : string)
    : list (string * string) :=
  match re.findall FILE_PATTERN cleaned_response with
  | [] => re.findall PATH_COLON_PATTERN cleaned_response
  | file_matches => file_matches
  end.

(** [os.path.basename] *)
Definition basename (p : string) : string :=
  List.last (split p "/") EmptyString.

(** [(?:provider|module|resource|variable|output|locals)\s+], the
    pattern of the sanity check on the content of a segment. *)
Definition DECLARATION : re.regex :=
  re.cat [re.Alt (re.Lit "provider")
            (re.Alt (re.Lit "module")
               (re.Alt (re.Lit "resource")
                  (re.Alt (re.Lit "variable")
                     (re.Alt (re.Lit "output") (re.Lit "locals")))));
          re.Plus re.Space].

(** Whether the sanity check passes; when it does not, the script logs a
    warning and keeps the content all the same. *)
Definition looks_like_terraform (clean_content : string) : bool :=
  re.search DECLARATION clean_content.

(** The body of the loop over the segments. *)
Definition record_file (extracted_files : gmap string string)
    (segment : string * string) : gmap string string :=
  let clean_filename := strip (fst segment) in
  let clean_content := strip (snd segment) in
  let clean_filename :=
    if contains "/" clean_filename || contains "\" clean_filename
    then basename clean_filename else clean_filename in
  <[clean_filename := clean_content]> extracted_files.

(** [extract_file_content]: how the call ends and the file system it
    leaves.  The raw reply is written below the output directory when
    nothing was extracted; that write can fail. *)
Definition extract_file_content (self : t) (response : string)
    : outcome (gmap string string) * world :=
  let cleaned_response := clean_response response in
  let file_matches := find_segments cleaned_response in
  let extracted_files := foldl record_file ∅ file_matches in
  if bool_decide (extracted_files = ∅) then
    let debug_file := child (output_dir self) "claude_response.txt" in
    match write_text w debug_file response with
    | Some w' => (Returns extracted_files, w')
    | None => (Raises "OSError", w)
    end
  else (Returns extracted_files, w).

End methods.

(** The test by which the scan of [build_dependency_graph] passes over a
    file. *)
Definition skipped (tf_file : Path) : bool :=
  contains ".terraform" (str tf_file)
  || existsb (fun p => startswith p ".") (py_parts tf_file).

(** A graph that has everything another one has. *)
Definition extends (g g' : DiGraph) : Prop :=
  dom g ⊆ dom g' ∧ ∀ u, successors g u ⊆ successors g' u.

(** A relative path whose first component starts with a character other
    than the slash. *)
Definition relative_named (p : Path) : bool :=
  negb (absolute p)
  && match parts p with
     | String c _ :: _ => negb (Ascii.eqb c "/")
     | _ => false
     end.

(** Edges added for one file: from that file, to names of [*.tf] entries
    of resolved directories. *)
Definition adds_from (file_path : string) (g g' : DiGraph) : Prop :=
  ∀ x v, edge g' x v →
    edge g x v
    ∨ x = file_path ∧ startswith v "/" = true ∧ endswith v ".tf" = true.

(** [Path(x)] for an argument typed [Union[str, Path]]; [open(x)] opens
    the same file. *)
Definition py_path (x : str_or_path) : Path :=
  match x with AsStr s => Path_of s | AsPath p => p end.

(** The text of the prompt of [generate_prompt_for_file]. *)
Definition file_prompt_text (target_file : str_or_path)
    (combined_context : string) : string :=
  nl +:+ join nl [
    "You are a Terraform expert. Update the following Terraform file to add security configurations:";
    basename (py_str target_file);
    EmptyString;
    "Add the following security features as appropriate for this specific file:";
    "1. Network ACLs with strict inbound/outbound rules";
    "2. Flow logs for VPC traffic monitoring to CloudWatch";
    "3. Security Group enhancements with least privilege access";
    "4. Encryption for S3 endpoints and any other relevant services";
    "5. VPC Endpoint policies with proper restrictions";
    EmptyString;
    "IMPORTANT: Format your response as follows:";
    "- Start with " +:+ dq +:+ "FILE: " +:+ basename (py_str target_file)
      +:+ dq;
    "- Then provide the complete file content with your security enhancements";
    "- DO NOT include markdown code block markers";
    "- DO NOT include any explanatory text outside the actual code";
    "- Include ALL necessary code for the file, not just the changes";
    "- The content must be valid Terraform syntax";
    EmptyString;
    "Only modify AWS resources, keeping the existing structure and module usage patterns.";
    EmptyString;
    "Current code context:";
    combined_context;
    EmptyString ].

(** [generate_prompt_for_file]: (prompt, token_count, files_included).
    [context_files] is the set in the order in which Python enumerates
    it. *)
Definition generate_prompt_for_file (w : world) (self : t)
    (target_file : str_or_path) (context_files : list string)
    : string * Z * Z :=
  match read_text w (py_path target_file) with
  | None => (EmptyString, 0%Z, 0%Z)
  | Some content =>
      let code_context :=
        (if truthy (strip content)
         then ["FILE: " +:+ py_str target_file +:+ nl +:+ content +:+ nl]
         else [])
        ++ omap (file_block w) context_files in
      let files_included := len code_context in
      let combined_context := join nl code_context in
      let prompt := file_prompt_text target_file combined_context in
      let token_count := count_tokens self (codepoints prompt) in
      (prompt, token_count, files_included)
  end.

(** The body of the loop of [extract_file_content] on a dictionary kept
    with its items in insertion order. *)
Definition record_item (extracted_files : list (string * string))
    (segment : string * string) : list (string * string) :=
  let clean_filename := strip (fst segment) in
  let clean_content := strip (snd segment) in
  let clean_filename :=
    if contains "/" clean_filename || contains "\" clean_filename
    then basename clean_filename else clean_filename in
  update_assoc clean_filename clean_content extracted_files.

(** The items of the dictionary returned by [extract_file_content], in
    insertion order. *)
Definition extracted_items (response : string) : list (string * string) :=
  foldl record_item [] (find_segments (clean_response response)).

(** The loop of [save_modified_code]: the first write that fails ends
    the call, with the files written so far left behind. *)
Fixpoint save_each (out : Path) (items : list (string * string))
    (w : world) (saved_files : list (string * Path))
    : outcome (list (string * Path)) * world :=
  match items with
  | [] => (Returns saved_files, w)
  | (filename, content) :: items' =>
      let output_file := joinpath out filename in
      match write_text w output_file content with
      | Some w' =>
          save_each out items' w' (update_assoc filename output_file saved_files)
      | None => (Raises "OSError", w)
      end
  end.

(** [save_modified_code] on the items of [file_content_map]: how the
    call ends and the file system it leaves. *)
Definition save_modified_code (w : world) (self : t)
    (file_content_map : list (string * string))
    : outcome (list (string * Path)) * world :=
  match mkdir w (output_dir self) with
  | (w', None) => save_each (output_dir self) file_content_map w' []
  | (w', Some e) => (Raises (exception e), w')
  end.

Section individually.

(** [apply_llm_changes] at its [n]-th call: the reply to a prompt, or
    [None] when the call raises. *)
Variable apply_llm_changes : nat -> string -> option string.

(** The order in which Python enumerates a set of strings. *)
Variable enumerate : gset string -> list string.

(** The state of the loop of [enhance_individual_files]. *)
Record progress := mkProgress {
  fs : world;
  calls : nat;
  all_saved_files : list (string * Path)
}.

(** The body of the loop of [enhance_individual_files]. *)
Definition process_file (self : t) (st : progress) (file : Path)
    : progress :=
  let w := fs st in
  if negb (exists_ w file) || negb (is_file w file) then st
  else
    let context_files :=
      match graph self with
      | Some g =>
          if negb (bool_decide (dom g = ∅)) && bool_decide (str file ∈ dom g)
          then successors g (str file) else ∅
      | None => ∅
      end in
    let '(prompt, _, _) :=
      generate_prompt_for_file w self (AsPath file)
                               (enumerate context_files) in
    if negb (truthy prompt) then st
    else
      match apply_llm_changes (calls st) prompt with
      | None => mkProgress w (S (calls st)) (all_saved_files st)
      | Some modified_code =>
          match extract_file_content w self modified_code with
          | (Raises _, w') | (OutOfFuel, w') =>
              mkProgress w' (S (calls st)) (all_saved_files st)
          | (Returns file_content_map, w') =>
              if bool_decide (file_content_map = ∅)
              then mkProgress w' (S (calls st)) (all_saved_files st)
              else
                match save_modified_code w' self
                        (extracted_items modified_code) with
                | (Returns saved_files, w'') =>
                    mkProgress w'' (S (calls st))
                      (foldl (fun all item =>
                                update_assoc (fst item) (snd item) all)
                             (all_saved_files st) saved_files)
                | (_, w'') =>
                    mkProgress w'' (S (calls st)) (all_saved_files st)
                end
          end
      end.

(** [enhance_individual_files]: the files saved, with the file system
    left behind. *)
Definition enhance_individual_files (w : world) (self : t)
    (entry_point : Path) (all_files : list Path)
    : list (string * Path) * world :=
  let primary_files := [entry_point] in
  let secondary_files :=
    List.filter (fun f => negb (path_eqb f entry_point)) all_files in
  let st := foldl (process_file self) (mkProgress w 0 [])
                  (primary_files ++ secondary_files) in
  (all_saved_files st, fs st).

End individually.

(** Every file reported so far is a [*.tf] file of the output directory
    itself, and is there. *)
Definition reported (self : t) (st : progress) : Prop :=
  ∀ k p, (k, p) ∈ all_saved_files st →
    p = child (output_dir self) k ∧ endswith k ".tf" = true
    ∧ contains "/" k = false ∧ is_file (fs st) p = true.

(** The name of an absolute path without [..] whose components are
    names of entries. *)
Definition canonical (n : string) : Prop :=
  ∃ ps, Forall (fun p => bare p = true) ps
        ∧ n = str {| absolute := true; parts := ps |}.

(** A graph all of whose nodes have such names. *)
Definition named_canonically (g : DiGraph) : Prop :=
  ∀ n, n ∈ dom g → canonical n.

End TerraformEnhancer.

(** * Sample inputs *)

Module Samples.
Import Py nx pathlib hcl TerraformEnhancer.

(** An instance holding a graph. *)
Definition enhancer_with (g : DiGraph) : t :=
  {| target_dir := Path_of "terraform-aws-vpc";
     output_dir := Path_of "modified_code";
     encoding := None;
     graph := Some g |}.

(** A -> B, B -> C, A -> C *)
Definition diamond : DiGraph :=
  add_edge (add_edge (add_edge ∅ "A" "B") "B" "C") "A" "C".

(** A -> B, B -> A *)
Definition cycle : DiGraph := add_edge (add_edge ∅ "A" "B") "B" "A".

(** An instance whose tokenizer could not be built. *)
Definition fallback : t :=
  {| target_dir := Path_of "terraform-aws-vpc";
     output_dir := Path_of "modified_code";
     encoding := None;
     graph := None |}.

(** Four times U+00E9, a text of four characters and eight bytes. *)
Definition e_acute4 : pystr := [233; 233; 233; 233]%N.

(** A working directory [/work] holding the clone [repo]:
    [repo/main.tf] declares a module whose source is [./modules/x],
    [repo/examples/main.tf] one whose source is [../modules/x], the
    directory [repo/modules/x] defines [a.tf] and [b.tf], and
    [repo/hashicorp/consul/aws] is a local directory named like a registry
    module. *)
Definition main_text : string :=
  "module " +:+ dq +:+ "x" +:+ dq +:+ " { source = " +:+ dq
  +:+ "./modules/x" +:+ dq +:+ " }".

Definition a_text : string := "variable " +:+ dq +:+ "a" +:+ dq +:+ " {}".
Definition b_text : string := "output " +:+ dq +:+ "b" +:+ dq +:+ " {}".

Definition example_text : string :=
  "module " +:+ dq +:+ "x" +:+ dq +:+ " { source = " +:+ dq
  +:+ "../modules/x" +:+ dq +:+ " }".

Definition x_entries : list (string * fsnode) :=
  [("a.tf", File (Some a_text)); ("b.tf", File (Some b_text))].

Definition repo_entries : list (string * fsnode) :=
  [("main.tf", File (Some main_text));
   ("examples", Dir [("main.tf", File (Some example_text))]);
   ("modules", Dir [("x", Dir x_entries)]);
   ("hashicorp",
    Dir [("consul", Dir [("aws", Dir [("c.tf", File (Some a_text))])])])].

Definition repo_tree : fsnode := Dir repo_entries.

Definition work : world :=
  {| root := Dir [("work", Dir [("repo", repo_tree)])]; cwd := ["work"] |}.

(** What the parser returns on the texts of [work]. *)
Definition parse (text : string) : option (list (string * pyval)) :=
  if String.eqb text main_text then
    Some [("module",
           VList [VDict [("x", VDict [("source", VStr "./modules/x")])]])]
  else if String.eqb text example_text then
    Some [("module",
           VList [VDict [("x", VDict [("source", VStr "../modules/x")])]])]
  else if String.eqb text a_text then Some [("variable", VList [])]
  else if String.eqb text b_text then Some [("output", VList [])]
  else None.

(** A parser that gives every file one module declaration without
    [source], in the dictionary shape. *)
Definition parse_without_source (text : string)
    : option (list (string * pyval)) :=
  Some [("module", VDict [("m", VDict [])])].

(** The instance run on the clone [repo], named relative to [/work]. *)
Definition on_repo : t :=
  {| target_dir := Path_of "repo";
     output_dir := Path_of "modified_code";
     encoding := None;
     graph := None |}.

(** Three files of 30000 tokens each under the character-based count:
    each labelled block has 120000 characters. *)
Fixpoint filler (n : nat) : string :=
  match n with
  | O => EmptyString
  | S n' => String "a" (filler n')
  end.

Definition big_entries : list (string * fsnode) :=
  [("main.tf", File (Some (filler (N.to_nat 119982))));
   ("b.tf", File (Some (filler (N.to_nat 119985))));
   ("c.tf", File (Some (filler (N.to_nat 119985))))].

Definition big : world :=
  {| root := Dir [("r", Dir big_entries)]; cwd := ["r"] |}.

(** Two files of some 50000 tokens each; the first one carries a comment
    that contains the marker of the labelled blocks. *)
Definition marked_entries : list (string * fsnode) :=
  [("main.tf",
    File (Some ("# FILE: notes" +:+ nl +:+ filler (N.to_nat 200000))));
   ("b.tf", File (Some (filler (N.to_nat 200000))))].

Definition marked : world :=
  {| root := Dir [("r", Dir marked_entries)]; cwd := ["r"] |}.

(** The working directory after [run] has made the output directory. *)
Definition work_with_output : world :=
  {| root := Dir [("work", Dir [("repo", repo_tree);
                                ("modified_code", Dir [])])];
     cwd := ["work"] |}.

(** A reply with two fenced blocks under [FILE:] markers, the second
    one with directories in its name. *)
Definition fenced_reply : string :=
  join nl ["FILE: a.tf"; "```hcl"; "resource {}"; "```";
           "FILE: sub/dir/c.tf"; "```"; "output {}"; "```"].

(** A reply in the path-colon form. *)
Definition colon_reply : string :=
  join nl ["main.tf:"; "resource {}"; "vars.tf :"; "variable {}"].

(** A reply without any marker of either grammar. *)
Definition prose : string := "I could not change the files.".

(** The working directory with a regular file in the place of the output
    directory. *)
Definition work_blocked : world :=
  {| root := Dir [("work", Dir [("repo", repo_tree);
                                ("modified_code", File (Some "x"))])];
     cwd := ["work"] |}.

(** The working directory with an output directory that holds a
    directory named [b.tf]. *)
Definition work_with_clash : world :=
  {| root := Dir [("work", Dir [("repo", repo_tree);
                                ("modified_code", Dir [("b.tf", Dir [])])])];
     cwd := ["work"] |}.


(** The clone below a hidden directory of the working directory. *)
Definition hidden_work : world :=
  {| root := Dir [("work", Dir [(".cache", Dir [("repo", repo_tree)])])];
     cwd := ["work"] |}.

(** The instance run on that clone. *)
Definition on_hidden_repo : t :=
  {| target_dir := Path_of ".cache/repo";
     output_dir := Path_of "modified_code";
     encoding := None;
     graph := None |}.

(** The instance run on the clone [repo], named by its absolute path. *)
Definition on_absolute_repo : t :=
  {| target_dir := Path_of "/work/repo";
     output_dir := Path_of "modified_code";
     encoding := None;
     graph := None |}.

End Samples.

(** * Properties *)

(** ** Graphs *)

Section graph_facts.
Import nx.

Lemma successors_add_node (g : DiGraph) n u :
  successors (add_node g n) u = successors g u.
Proof.
  unfold add_node, successors.
  destruct (g !! n) eqn:Hn; [done |].
  destruct (decide (n = u)) as [-> | Hne].
  - by rewrite lookup_insert_eq, Hn.
  - by rewrite lookup_insert_ne.
Qed.

Lemma dom_add_node (g : DiGraph) n : dom (add_node g n) = {[n]} ∪ dom g.
Proof.
  unfold add_node. destruct (g !! n) eqn:Hn.
  - assert (n ∈ dom g) by (apply elem_of_dom; eauto). set_solver.
  - by rewrite dom_insert_L.
Qed.

Lemma dom_add_edge (g : DiGraph) u v :
  dom (add_edge g u v) = {[u; v]} ∪ dom g.
Proof.
  unfold add_edge. rewrite dom_insert_L, !dom_add_node. set_solver.
Qed.

Lemma successors_add_edge (g : DiGraph) u v x :
  successors (add_edge g u v) x =
  if decide (x = u) then successors g u ∪ {[v]} else successors g x.
Proof.
  unfold add_edge. unfold successors at 1.
  destruct (decide (x = u)) as [-> | Hne].
  - by rewrite lookup_insert_eq, !successors_add_node.
  - rewrite lookup_insert_ne by done.
    fold (successors (add_node (add_node g u) v) x).
    by rewrite !successors_add_node.
Qed.

Lemma closed_empty : closed ∅.
Proof. intros u. unfold successors. rewrite lookup_empty. set_solver. Qed.

Lemma closed_add_node (g : DiGraph) n : closed g → closed (add_node g n).
Proof.
  intros Hg u. rewrite successors_add_node, dom_add_node.
  specialize (Hg u). set_solver.
Qed.

Lemma closed_add_edge (g : DiGraph) u v : closed g → closed (add_edge g u v).
Proof.
  intros Hg x. rewrite successors_add_edge, dom_add_edge.
  pose proof (Hg u). pose proof (Hg x). case_decide; set_solver.
Qed.

End graph_facts.

(** ** Breadth-first search reaches exactly the descendants *)

Section bfs_correct.
Import nx.

Variable g : DiGraph.
Variable source : string.
Hypothesis g_closed : closed g.

Lemma bfs_inv_init : source ∈ dom g → bfs_inv g source {[source]} ∅ [source].
Proof.
  intros Hin. split.
  - set_solver.
  - set_solver.
  - set_solver.
  - intros v Hv. set_solver.
  - intros v Hv. left. set_solver.
  - intros v Hv. apply elem_of_singleton in Hv as ->. done.
Qed.

Lemma bfs_inv_step visited out parent rest :
  let children := successors g parent ∖ visited in
  bfs_inv g source visited out (parent :: rest) →
  bfs_inv g source (visited ∪ children) (out ∪ children) (rest ++ elements children).
Proof.
  intros children Hinv.
  assert (Hp : parent ∈ visited)
    by (apply (inv_queue _ _ _ _ _ Hinv); left).
  split.
  - apply elem_of_union_l, (inv_source _ _ _ _ _ Hinv).
  - rewrite (inv_out _ _ _ _ _ Hinv). pose proof (inv_source _ _ _ _ _ Hinv).
    apply set_eq. intros v. subst children. set_solver.
  - pose proof (inv_dom _ _ _ _ _ Hinv). pose proof (g_closed parent).
    subst children. set_solver.
  - intros v Hv. apply elem_of_app in Hv as [Hv | Hv].
    + apply elem_of_union_l, (inv_queue _ _ _ _ _ Hinv). by right.
    + apply elem_of_union_r. by apply elem_of_elements.
  - intros v Hv. apply elem_of_union in Hv as [Hv | Hv].
    + destruct (inv_frontier _ _ _ _ _ Hinv v Hv) as [Hq | Hsub].
      * apply elem_of_cons in Hq as [-> | Hq].
        -- right. intros x Hx. subst children.
           destruct (decide (x ∈ visited)); set_solver.
        -- left. apply elem_of_app. by left.
      * right. set_solver.
    + left. apply elem_of_app. right. by apply elem_of_elements.
  - intros v Hv. apply elem_of_union in Hv as [Hv | Hv].
    + by apply (inv_sound _ _ _ _ _ Hinv).
    + subst children. apply elem_of_difference in Hv as [Hv _].
      eapply rtc_r; [| exact Hv]. by apply (inv_sound _ _ _ _ _ Hinv).
Qed.

Lemma frontier_empty_closed visited out x y :
  bfs_inv g source visited out [] → rtc (edge g) x y → x ∈ visited → y ∈ visited.
Proof.
  intros Hinv Hreach. induction Hreach as [x | x y z Hxy _ IH]; [done |].
  intros Hx. apply IH.
  destruct (inv_frontier _ _ _ _ _ Hinv x Hx) as [Hq | Hsub].
  - by apply elem_of_nil in Hq.
  - apply Hsub, Hxy.
Qed.

Lemma bfs_inv_done visited out v :
  bfs_inv g source visited out [] →
  v ∈ out ↔ v ≠ source ∧ rtc (edge g) source v.
Proof.
  intros Hinv.
  rewrite (inv_out _ _ _ _ _ Hinv), elem_of_difference, elem_of_singleton.
  split.
  - intros [Hv Hne]. split; [done |]. by apply (inv_sound _ _ _ _ _ Hinv).
  - intros [Hne Hreach]. split; [| done].
    eapply frontier_empty_closed; [done.. |]. apply (inv_source _ _ _ _ _ Hinv).
Qed.

(** The queue and the nodes not yet visited bound the number of rounds. *)
Lemma bfs_measure_step visited out parent rest :
  let children := successors g parent ∖ visited in
  bfs_inv g source visited out (parent :: rest) →
  length (rest ++ elements children) + size (dom g ∖ (visited ∪ children))
  = length rest + size (dom g ∖ visited).
Proof.
  intros children Hinv.
  rewrite length_app.
  assert (Heq : dom g ∖ visited = children ∪ dom g ∖ (visited ∪ children)).
  { pose proof (g_closed parent). apply set_eq. intros v. subst children.
    destruct (decide (v ∈ successors g parent)); set_solver. }
  assert (Hsize : size (dom g ∖ visited)
                  = size children + size (dom g ∖ (visited ∪ children))).
  { etransitivity; [exact (f_equal size Heq) |].
    apply size_union. set_solver. }
  rewrite Hsize. change (length (elements children)) with (size children).
  lia.
Qed.

Lemma bfs_terminates fuel visited out queue :
  bfs_inv g source visited out queue →
  length queue + size (dom g ∖ visited) < fuel →
  ∃ found, bfs fuel g visited out queue = Some found
           ∧ ∀ v, v ∈ found ↔ v ≠ source ∧ rtc (edge g) source v.
Proof.
  revert visited out queue.
  induction fuel as [| fuel IH]; intros visited out queue Hinv Hfuel; [lia |].
  destruct queue as [| parent rest]; simpl.
  - exists out. split; [done |]. intros v. by apply (bfs_inv_done visited).
  - rewrite list_to_set_elements_L. apply IH.
    + by apply bfs_inv_step.
    + rewrite (bfs_measure_step visited out parent rest Hinv).
      simpl in Hfuel. lia.
Qed.

Lemma descendants_spec :
  source ∈ dom g →
  ∃ found, descendants g source = Some found
           ∧ ∀ v, v ∈ found ↔ v ≠ source ∧ tc (edge g) source v.
Proof.
  intros Hin.
  destruct (bfs_terminates (S (size (dom g))) {[source]} ∅ [source])
    as (found & Hrun & Hfound).
  - by apply bfs_inv_init.
  - simpl. assert (size (dom g ∖ {[source]}) < size (dom g)); [| lia].
    apply subset_size. set_solver.
  - exists found. split; [done |]. intros v. rewrite Hfound.
    split; intros [Hne Hreach]; (split; [done |]).
    + apply rtc_tc in Hreach as [-> | Htc]; done.
    + by apply tc_rtc.
Qed.

End bfs_correct.

(** ** The token counter *)

Section token_counter.
Import Py TerraformEnhancer Samples.

Lemma length_in_bytes_ascii (text : pystr) :
  Forall (fun c => (c < 128)%N) text → length_in_bytes text = len text.
Proof.
  unfold len. induction 1 as [| c text Hc _ IH]; [done |].
  cbn [length_in_bytes foldr length]. fold (length_in_bytes text).
  rewrite IH. unfold utf8_width.
  apply N.ltb_lt in Hc. rewrite Hc. lia.
Qed.

(** C7, as the code has it.  Without a tokenizer the count is the number
    of characters of the text divided by 4, rounded down; it is never
    negative, whichever strategy is in use; and it is the byte length
    divided by 4 when every character is ASCII. *)
Theorem count_tokens_fallback (self : t) (text : pystr) :
  encoding self = None →
  count_tokens self text = (len text / 4)%Z
  ∧ (0 <= count_tokens self text)%Z
  ∧ (Forall (fun c => (c < 128)%N) text →
     count_tokens self text = (length_in_bytes text / 4)%Z).
Proof.
  intros Henc. unfold count_tokens. rewrite Henc. split; [done |]. split.
  - apply Z.div_pos; unfold len; lia.
  - intros Hascii. by rewrite length_in_bytes_ascii.
Qed.

Lemma count_tokens_fallback_witness :
  count_tokens fallback e_acute4 = (len e_acute4 / 4)%Z
  ∧ (0 <= count_tokens fallback e_acute4)%Z
  ∧ (Forall (fun c => (c < 128)%N) e_acute4 →
     count_tokens fallback e_acute4 = (length_in_bytes e_acute4 / 4)%Z).
Proof. apply (count_tokens_fallback fallback e_acute4). reflexivity. Defined.

(** C7 as stated fails: four characters of two bytes each count as one
    token, and their eight bytes divided by 4 are two. *)
Lemma count_tokens_not_bytes :
  ¬ (∀ (self : t) (text : pystr),
       encoding self = None →
       count_tokens self text = (length_in_bytes text / 4)%Z).
Proof.
  intros H. specialize (H fallback e_acute4 eq_refl).
  vm_compute in H. discriminate H.
Qed.

End token_counter.

(** ** Module references *)

Section module_references.
Import Py nx pathlib hcl TerraformEnhancer Samples.

Lemma foldl_add_edge_str (g : DiGraph) (u : string) (ps : list Path) :
  foldl (fun g p => add_edge g u (str p)) g ps = add_edges g u (map str ps).
Proof.
  unfold add_edges. revert g. induction ps as [| p ps IH]; intros g; [done |].
  simpl. apply IH.
Qed.

Lemma successors_add_edges (g : DiGraph) u targets x :
  successors (add_edges g u targets) x =
  if decide (x = u) then successors g u ∪ list_to_set targets
  else successors g x.
Proof.
  unfold add_edges. revert g.
  induction targets as [| v targets IH]; intros g; simpl.
  - case_decide; [subst; set_solver | done].
  - rewrite IH, !successors_add_edge.
    case_decide; [| done]. rewrite decide_True by done. set_solver.
Qed.

Lemma elem_of_bool_filter {A} (f : A → bool) (l : list A) (x : A) :
  x ∈ List.filter f l ↔ f x = true ∧ x ∈ l.
Proof. rewrite !list_elem_of_In, filter_In. tauto. Qed.

Lemma for_each_cons {A} (body : A → DiGraph → DiGraph * completion) x l g :
  for_each body (x :: l) g
  = match body x g with
    | (g', Normal) => for_each body l g'
    | (g', Raised) => (g', Raised)
    end.
Proof. done. Qed.




Lemma removelast_snoc {A} (l : list A) x : removelast (l ++ [x]) = l.
Proof. by rewrite removelast_app, app_nil_r. Qed.






Example builder_links_file_to_itself :
  edge (build_dependency_graph parse_without_source work on_repo)
       "repo/main.tf" "/work/repo/main.tf".
Proof. vm_compute. reflexivity. Qed.

(** C5, as the code has it.  The list shape [[{n1: c1}, {n2: c2}, ...]]
    and the dictionary shape [{n1: c1, n2: c2, ...}] of the same
    declarations leave the same graph, and end alike, when every
    configuration is a dictionary with a [source] attribute. *)
Theorem handlers_agree_with_sources (w : world) (g : DiGraph)
    (decls : list (string * pyval)) (tf_file : Path) (file_path : string) :
  Forall has_source_key decls →
  _process_module_list w g (map (fun decl => VDict [decl]) decls)
    tf_file file_path
  = _process_module_dict w g (VDict decls) tf_file file_path.
Proof.
  unfold _process_module_list, _process_module_dict.
  intros Hdecls. revert g.
  induction Hdecls as [| [name config] decls (d & Hconfig & [v Hv]) _ IH];
    intros g; [done |].
  cbn [map for_each snd] in *. subst config. cbn [has_source get_source].
  rewrite Hv, bool_decide_eq_true_2 by eauto. cbn [from_option id].
  destruct (_add_module_dependency w g v tf_file file_path) as [g' []];
    [apply IH | done].
Qed.

Lemma handlers_agree_with_sources_witness :
  _process_module_list work ∅
    [VDict [("x", VDict [("source", VStr "./modules/x")])]]
    (Path_of "repo/main.tf") "repo/main.tf"
  = _process_module_dict work ∅
      (VDict [("x", VDict [("source", VStr "./modules/x")])])
      (Path_of "repo/main.tf") "repo/main.tf".
Proof.
  apply (handlers_agree_with_sources work ∅
           [("x", VDict [("source", VStr "./modules/x")])]).
  repeat constructor. exists [("source", VStr "./modules/x")].
  split; [reflexivity | by eexists].
Defined.

(** C5 as stated fails: for one declaration without [source] the list
    handler leaves the graph empty and the dictionary handler does not. *)
Lemma handlers_disagree_without_source :
  ¬ (∀ (w : world) (g : DiGraph) (decls : list (string * pyval))
       (tf_file : Path) (file_path : string),
       fst (_process_module_list w g (map (fun decl => VDict [decl]) decls)
              tf_file file_path)
       = fst (_process_module_dict w g (VDict decls) tf_file file_path)).
Proof.
  intros H.
  specialize (H work ∅ [("m", VDict [])] (Path_of "repo/main.tf")
                "repo/main.tf").
  apply (f_equal (fun g : DiGraph => bool_decide (g = ∅))) in H.
  vm_compute in H. discriminate H.
Qed.

Lemma append_inj_l (s a b : string) : s +:+ a = s +:+ b → a = b.
Proof. induction s as [| c s IH]; cbn; [done |]. intros [= H]. auto. Qed.

Lemma join_snoc_inj (sep : string) (ps : list string) (a b : string) :
  join sep (ps ++ [a]) = join sep (ps ++ [b]) → a = b.
Proof.
  induction ps as [| p ps IH]; [done |].
  cbn [app]. intros H.
  assert (Hcons : ∀ x, join sep (p :: ps ++ [x])
                       = p +:+ sep +:+ join sep (ps ++ [x])).
  { intros x. cbn [join]. by destruct ps. }
  rewrite !Hcons in H. by apply append_inj_l, append_inj_l, IH in H.
Qed.

Lemma str_child_inj (p : Path) (a b : string) :
  str (child p a) = str (child p b) → a = b.
Proof.
  unfold str, child. cbn. destruct (absolute p).
  - intros H. by apply append_inj_l, join_snoc_inj in H.
  - destruct (parts p) as [| q qs] eqn:Hparts; cbn [app].
    + done.
    + change (q :: qs ++ [a]) with ((q :: qs) ++ [a]).
      change (q :: qs ++ [b]) with ((q :: qs) ++ [b]).
      apply join_snoc_inj.
Qed.

(** C4, as the code has it.  A source that does not start with a dot and
    starts with [git::] or contains a colon adds nothing to the graph.  A
    source taken as local that resolves, against the directory of the
    referencing file, to an existing directory adds an edge from that file
    to each direct [*.tf] entry of the directory and no other edge: two
    edges when the directory holds two such entries.  A source taken as
    local that does not resolve to a directory adds nothing. *)
Theorem module_source_resolution (w : world) (g : DiGraph) (source : string)
    (tf_file : Path) (file_path : string) :
  (local_source source = false →
   _add_module_dependency w g (VStr source) tf_file file_path = (g, Normal))
  ∧ (∀ es, local_source source = true →
       let module_path := resolve w (joinpath (parent tf_file) source) in
       let g' :=
         fst (_add_module_dependency w g (VStr source) tf_file file_path) in
       stat w module_path = Some (Dir es) →
       (∀ v, edge g' file_path v ↔
             edge g file_path v
             ∨ ∃ n, n ∈ map fst es ∧ is_tf n = true
                    ∧ v = str (child module_path n))
       ∧ (∀ u v, u ≠ file_path → edge g' u v ↔ edge g u v)
       ∧ (∀ n1 n2, List.filter is_tf (map fst es) = [n1; n2] → n1 ≠ n2 →
                   successors g file_path = ∅ →
                   size (successors g' file_path) = 2))
  ∧ (local_source source = true →
     is_dir w (resolve w (joinpath (parent tf_file) source)) = false →
     _add_module_dependency w g (VStr source) tf_file file_path = (g, Normal)).
Proof.
  split_and!.
  - unfold local_source, _add_module_dependency. by intros ->.
  - intros es Hlocal module_path g' Hdir.
    assert (Hg' : g' = add_edges g file_path
                    (map str (map (child module_path)
                                  (List.filter is_tf (map fst es))))).
    { subst g'. unfold _add_module_dependency.
      fold (local_source source). rewrite Hlocal.
      fold module_path. unfold exists_, is_dir, glob_tf. rewrite Hdir.
      cbn [is_dir_node andb fst]. by rewrite foldl_add_edge_str. }
    split_and!.
    + intros v. rewrite Hg'. unfold edge.
      rewrite successors_add_edges, decide_True by done.
      rewrite elem_of_union, elem_of_list_to_set.
      apply or_iff_compat_l. rewrite !list_elem_of_fmap. split.
      * intros (p & -> & (n & -> & Hn)%list_elem_of_fmap).
        apply elem_of_bool_filter in Hn as [Htf Hn]. by exists n.
      * intros (n & Hn & Htf & ->). exists (child module_path n).
        split; [done |]. apply list_elem_of_fmap. exists n. split; [done |].
        by apply elem_of_bool_filter.
    + intros u v Hu. rewrite Hg'. unfold edge.
      by rewrite successors_add_edges, decide_False.
    + intros n1 n2 Hnames Hne Hnone. rewrite Hg', Hnames.
      rewrite successors_add_edges, decide_True by done.
      rewrite Hnone. cbn [map list_to_set].
      assert (str (child module_path n1) ≠ str (child module_path n2))
        by (intros Heq; by apply str_child_inj in Heq).
      rewrite !size_union, !size_singleton, size_empty by set_solver. done.
  - intros Hlocal Hnodir. unfold _add_module_dependency.
    fold (local_source source). rewrite Hlocal, Hnodir, andb_false_r.
    unfold is_dir in Hnodir. unfold glob_tf.
    destruct (stat w _) as [[? | es] |]; try done; by destruct (_ || _).
Qed.

Lemma module_source_resolution_witness :
  _add_module_dependency work ∅ (VStr "git::https://example.com/vpc.git")
    (Path_of "repo/examples/main.tf") "repo/examples/main.tf" = (∅, Normal)
  ∧ size (successors
            (fst (_add_module_dependency work ∅ (VStr "../modules/x")
                    (Path_of "repo/examples/main.tf")
                    "repo/examples/main.tf"))
            "repo/examples/main.tf") = 2.
Proof.
  split.
  - apply (proj1 (module_source_resolution work ∅
                    "git::https://example.com/vpc.git"
                    (Path_of "repo/examples/main.tf")
                    "repo/examples/main.tf")).
    reflexivity.
  - destruct (proj1 (proj2 (module_source_resolution work ∅ "../modules/x"
                              (Path_of "repo/examples/main.tf")
                              "repo/examples/main.tf"))
                x_entries eq_refl eq_refl) as (_ & _ & Htwo).
    apply (Htwo "a.tf" "b.tf"); [reflexivity | discriminate | reflexivity].
Defined.

(** C4 as stated fails for a registry identifier: it has no colon, is
    taken as a local path, and adds an edge when a directory of that name
    lies beside the referencing file. *)
Lemma registry_identifier_adds_edge :
  edge (fst (_add_module_dependency work ∅ (VStr "hashicorp/consul/aws")
               (Path_of "repo/main.tf") "repo/main.tf"))
       "repo/main.tf" "/work/repo/hashicorp/consul/aws/c.tf".
Proof. vm_compute. reflexivity. Qed.

(** C1 at a failing input.  The graph built for the clone [repo], given
    relative to the working directory, holds the file [modules/x/a.tf]
    twice: under the name it was scanned by and under the resolved name
    it has as the target of the module reference of [main.tf]. *)
Theorem one_file_two_nodes :
  let g := build_dependency_graph parse work on_repo in
  "repo/modules/x/a.tf" ∈ nodes g
  ∧ "/work/repo/modules/x/a.tf" ∈ nodes g
  ∧ same_file work "repo/modules/x/a.tf" "/work/repo/modules/x/a.tf"
  ∧ "repo/modules/x/a.tf" ≠ "/work/repo/modules/x/a.tf"
  ∧ edge g "repo/main.tf" "/work/repo/modules/x/a.tf"
  ∧ ¬ edge g "repo/main.tf" "repo/modules/x/a.tf".
Proof.
  split_and!; try (vm_compute; reflexivity).
  - discriminate.
  - intros H. vm_compute in H. discriminate H.
Qed.

End module_references.

(** ** Every graph the builder makes has its successors among its nodes *)

Section built_graphs.
Import Py nx pathlib hcl TerraformEnhancer.

Variable hcl2_load : string → option (list (string * pyval)).
Variable w : world.

Lemma closed_add_edges (g : DiGraph) u targets :
  closed g → closed (add_edges g u targets).
Proof.
  unfold add_edges. revert g.
  induction targets as [| v targets IH]; intros g Hg; [done |].
  cbn [foldl]. by apply IH, closed_add_edge.
Qed.

Lemma for_each_preserves {A} (P : DiGraph → Prop)
    (body : A → DiGraph → DiGraph * completion) (l : list A) (g : DiGraph) :
  (∀ x g, P g → P (fst (body x g))) → P g → P (fst (for_each body l g)).
Proof.
  intros Hbody. revert g. induction l as [| x l IH]; intros g Hg; [done |].
  rewrite for_each_cons. specialize (Hbody x g Hg).
  destruct (body x g) as [g' []]; [by apply IH | done].
Qed.

Lemma closed_add_module_dependency (g : DiGraph) source tf_file file_path :
  closed g →
  closed (fst (_add_module_dependency w g source tf_file file_path)).
Proof.
  intros Hg. unfold _add_module_dependency.
  destruct source as [source | | |]; try done.
  repeat case_match; try done; cbn [fst];
    rewrite foldl_add_edge_str; by apply closed_add_edges.
Qed.

Lemma closed_process_module_list (g : DiGraph) modules tf_file file_path :
  closed g →
  closed (fst (_process_module_list w g modules tf_file file_path)).
Proof.
  unfold _process_module_list. apply (for_each_preserves closed).
  intros module_dict g' Hg'. destruct module_dict; try done.
  apply (for_each_preserves closed); [| done].
  intros item g'' Hg''. repeat case_match; try done.
  by apply closed_add_module_dependency.
Qed.

Lemma closed_process_module_dict (g : DiGraph) modules tf_file file_path :
  closed g →
  closed (fst (_process_module_dict w g modules tf_file file_path)).
Proof.
  intros Hg. unfold _process_module_dict. destruct modules; try done.
  apply (for_each_preserves closed); [| done].
  intros item g' Hg'. repeat case_match; try done;
    by apply closed_add_module_dependency.
Qed.

Lemma closed_scan_file (g : DiGraph) tf_file :
  closed g → closed (scan_file hcl2_load w g tf_file).
Proof.
  intros Hg. unfold scan_file.
  pose proof (closed_add_node g (str tf_file) Hg).
  repeat case_match; try done;
    by (apply closed_process_module_list || apply closed_process_module_dict).
Qed.

Lemma closed_build_dependency_graph (self : t) :
  closed (build_dependency_graph hcl2_load w self).
Proof.
  unfold build_dependency_graph.
  generalize (rglob_tf w (target_dir self)). intros tf_files.
  assert (H : ∀ g, closed g → closed (foldl (scan_file hcl2_load w) g tf_files)).
  { induction tf_files as [| f l IH]; intros g Hg; [done |].
    cbn [foldl]. by apply IH, closed_scan_file. }
  apply H, closed_empty.
Qed.

End built_graphs.

(** ** Relevant files *)

Section relevant_files.
Import nx TerraformEnhancer Samples.

Lemma closed_dec_closed (g : DiGraph) : closed_dec g = true → closed g.
Proof.
  unfold closed_dec. intros Hall%bool_decide_eq_true u. unfold successors.
  destruct (g !! u) as [succs |] eqn:Hu; [| set_solver].
  exact (Hall u succs Hu).
Qed.

(** C2.  For every graph whose successors are nodes (cycles allowed) and
    every entry node of it, [get_relevant_files] returns, and what it
    returns is exactly the set of the nodes other than the entry that
    are reachable from it along one or more edges; the result is a set,
    so no node occurs twice.  Every graph that [build_dependency_graph]
    makes is such a graph.  With the edges A->B, B->C, A->C the result
    from A is {B, C}; with A->B, B->A it is {B} from A and {A} from B. *)
Theorem get_relevant_files_reachable :
  (∀ (self : t) (g : DiGraph) (entry_point : str_or_path),
      graph self = Some g → closed g → py_str entry_point ∈ dom g →
      ∃ found : gset string,
        get_relevant_files self entry_point = Returns found
        ∧ ∀ v, v ∈ found ↔
               v ≠ py_str entry_point
               ∧ tc (edge g) (py_str entry_point) v)
  ∧ (∀ hcl2_load w self, closed (build_dependency_graph hcl2_load w self))
  ∧ get_relevant_files (enhancer_with diamond) (AsStr "A")
    = Returns {[ "B"; "C" ]}
  ∧ get_relevant_files (enhancer_with cycle) (AsStr "A") = Returns {[ "B" ]}
  ∧ get_relevant_files (enhancer_with cycle) (AsStr "B") = Returns {[ "A" ]}.
Proof.
  split; [| split; [apply closed_build_dependency_graph | by vm_compute]].
  intros self g entry_point Hgraph Hclosed Hin.
  destruct (descendants_spec g (py_str entry_point) Hclosed Hin)
    as (found & Hrun & Hfound).
  exists found. split; [| done].
  unfold get_relevant_files. rewrite Hgraph.
  rewrite bool_decide_eq_false_2 by set_solver.
  rewrite bool_decide_eq_true_2 by done.
  by rewrite Hrun.
Qed.

Lemma get_relevant_files_reachable_witness :
  ∃ found : gset string,
    get_relevant_files (enhancer_with diamond) (AsStr "A") = Returns found
    ∧ ∀ v, v ∈ found ↔ v ≠ "A" ∧ tc (edge diamond) "A" v.
Proof.
  apply (proj1 get_relevant_files_reachable
           (enhancer_with diamond) diamond (AsStr "A")).
  - reflexivity.
  - apply closed_dec_closed. vm_compute. reflexivity.
  - vm_compute. reflexivity.
Defined.

End relevant_files.


(** ** Context assembly under a token budget *)

Section context_budget.
Import Py pathlib TerraformEnhancer Samples.

Variable w : world.
Variable self : t.

Lemma consider_fits st file_path file_text :
  file_block w file_path = Some file_text →
  (current_tokens st + tokens self file_text <= 70000)%Z →
  consider w self st file_path = include self st file_text.
Proof.
  intros Hblock Hfits. unfold consider. rewrite Hblock.
  fold (tokens self file_text). by rewrite (proj2 (Z.leb_le _ _) Hfits).
Qed.

Lemma consider_overflows st file_path file_text :
  file_block w file_path = Some file_text →
  (70000 < current_tokens st + tokens self file_text)%Z →
  consider w self st file_path = st.
Proof.
  intros Hblock Hover. unfold consider. rewrite Hblock.
  fold (tokens self file_text). by rewrite (proj2 (Z.leb_gt _ _) Hover).
Qed.

Lemma consider_within_limit st file_path :
  (current_tokens st <= 70000)%Z →
  (current_tokens (consider w self st file_path) <= 70000)%Z.
Proof.
  intros Hst. unfold consider.
  destruct (file_block w file_path) as [file_text |]; [| done].
  destruct (Z.leb_spec (current_tokens st
                        + count_tokens self (codepoints file_text)) 70000);
    [cbn; lia | done].
Qed.

Lemma walk_within_limit files st :
  (current_tokens st <= 70000)%Z →
  (current_tokens (foldl (consider w self) st files) <= 70000)%Z.
Proof.
  revert st. induction files as [| f files IH]; intros st Hst; [done |].
  cbn [foldl]. by apply IH, consider_within_limit.
Qed.

Lemma foldr_tokens_snoc l t :
  foldr (fun t acc => tokens self t + acc)%Z 0%Z (l ++ [t])
  = (foldr (fun t acc => tokens self t + acc)%Z 0%Z l + tokens self t)%Z.
Proof. induction l as [| x l IH]; cbn; [lia |]. rewrite IH. lia. Qed.

Lemma consider_accurate st file_path :
  accurate self st → accurate self (consider w self st file_path).
Proof.
  intros [Htok Hlen]. unfold consider.
  destruct (file_block w file_path) as [file_text |]; [| done].
  destruct (Z.leb_spec (current_tokens st
                        + count_tokens self (codepoints file_text)) 70000);
    [| done].
  split; cbn.
  - fold (tokens self file_text). rewrite foldr_tokens_snoc, Htok. done.
  - rewrite Hlen. unfold len. rewrite length_app. cbn. lia.
Qed.

Lemma walk_accurate files st :
  accurate self st → accurate self (foldl (consider w self) st files).
Proof.
  revert st. induction files as [| f files IH]; intros st Hst; [done |].
  cbn [foldl]. by apply IH, consider_accurate.
Qed.

End context_budget.

Section fallback_estimate.
Import Py TerraformEnhancer.

Lemma codepoints_app (a b : string) :
  codepoints (a +:+ b) = codepoints a ++ codepoints b.
Proof.
  induction a as [| c a IH]; [done |].
  change (String c a +:+ b) with (String c (a +:+ b)).
  cbn [codepoints app]. by rewrite IH.
Qed.

Lemma len_codepoints_app (a b : string) :
  len (codepoints (a +:+ b)) = (len (codepoints a) + len (codepoints b))%Z.
Proof. unfold len. rewrite codepoints_app, length_app. lia. Qed.

(** Under the character-based count, three blocks of 30000 tokens each
    make an untruncated estimate above the soft limit. *)
Lemma fallback_three_blocks_overflow (self : t) (t1 t2 t3 : string) :
  encoding self = None →
  tokens self t1 = 30000%Z → tokens self t2 = 30000%Z →
  tokens self t3 = 30000%Z →
  (80000 < tokens self (join nl [t1; t2; t3]))%Z.
Proof.
  unfold tokens, count_tokens. intros -> H1 H2 H3.
  cbn [join]. rewrite !len_codepoints_app.
  change (len (codepoints nl)) with 1%Z.
  pose proof (Z.mul_div_le (len (codepoints t1)) 4 ltac:(lia)).
  pose proof (Z.mul_div_le (len (codepoints t2)) 4 ltac:(lia)).
  pose proof (Z.mul_div_le (len (codepoints t3)) 4 ltac:(lia)).
  apply Z.lt_le_trans with 90000%Z; [lia |].
  apply Z.div_le_lower_bound; lia.
Qed.

End fallback_estimate.

Section budget_properties.
Import Py pathlib TerraformEnhancer Samples.

Lemma some_default (o : option string) :
  match o with Some _ => true | None => false end = true →
  o = Some (default EmptyString o).
Proof. by destruct o. Qed.

(** C3.  The context of [generate_prompt] is the untruncated bundle unless
    its estimate exceeds 80000 tokens; then it is the bundle of
    [_truncate_context], which walks the entry first and then the other
    files, never lets the running total exceed 70000, keeps a file exactly
    when the total stays within 70000 with it, and goes on with the later
    files after one was left out (a file that cannot be read or is blank
    is passed over).  With three files of 30000 tokens each
    and an untruncated estimate above 80000, the bundle is the entry and
    the second file: 2 files, 60000 tokens; under the character-based
    count such an estimate is always above 80000. *)
Theorem truncation_best_effort (w : world) (self : t) :
  (∀ entry_point relevant_files,
     let files_to_read := py_str entry_point :: relevant_files in
     let unbounded := join nl (omap (file_block w) files_to_read) in
     fst (assemble w self entry_point relevant_files)
     = if (80000 <? count_tokens self (codepoints unbounded))%Z
       then _truncate_context w self files_to_read entry_point
       else unbounded)
  ∧ (∀ entry_point files_to_read,
       truncate_walk w self files_to_read entry_point
       = foldl (consider w self) (mkBudget [] 0 0)
           (py_str entry_point
            :: List.filter (fun f => negb (String.eqb f (py_str entry_point)))
                           files_to_read))
  ∧ (∀ entry_point files_to_read,
       let st := truncate_walk w self files_to_read entry_point in
       (current_tokens st <= 70000)%Z ∧ accurate self st)
  ∧ (∀ st file_path file_text later,
       file_block w file_path = Some file_text →
       foldl (consider w self) st (file_path :: later)
       = if (current_tokens st + tokens self file_text <=? 70000)%Z
         then foldl (consider w self) (include self st file_text) later
         else foldl (consider w self) st later)
  ∧ (∀ st file_path later,
       file_block w file_path = None →
       foldl (consider w self) st (file_path :: later)
       = foldl (consider w self) st later)
  ∧ (∀ entry f2 f3 t1 t2 t3,
       f2 ≠ entry → f3 ≠ entry →
       file_block w entry = Some t1 →
       file_block w f2 = Some t2 →
       file_block w f3 = Some t3 →
       tokens self t1 = 30000%Z → tokens self t2 = 30000%Z →
       tokens self t3 = 30000%Z →
       (80000 < tokens self (join nl [t1; t2; t3]))%Z →
       truncate_walk w self [entry; f2; f3] (AsStr entry)
       = mkBudget [t1; t2] 60000 2
       ∧ fst (assemble w self (AsStr entry) [f2; f3]) = t1 +:+ nl +:+ t2)
  ∧ (∀ t1 t2 t3,
       encoding self = None →
       tokens self t1 = 30000%Z → tokens self t2 = 30000%Z →
       tokens self t3 = 30000%Z →
       (80000 < tokens self (join nl [t1; t2; t3]))%Z).
Proof.
  split_and!; [| | | | | | apply fallback_three_blocks_overflow].
  - intros entry_point relevant_files files_to_read unbounded.
    unfold assemble. fold files_to_read. fold unbounded.
    by destruct (80000 <? _)%Z.
  - done.
  - intros entry_point files_to_read st. split.
    + by apply walk_within_limit, walk_within_limit.
    + by apply walk_accurate, walk_accurate.
  - intros st file_path file_text later Hblock. cbn [foldl].
    destruct (Z.leb_spec (current_tokens st + tokens self file_text) 70000).
    + by rewrite (consider_fits w self st file_path file_text).
    + by rewrite (consider_overflows w self st file_path file_text).
  - intros st file_path later Hnone. cbn [foldl]. unfold consider at 2.
    by rewrite Hnone.
  - intros entry f2 f3 t1 t2 t3 Hf2 Hf3 H1 H2 H3 Ht1 Ht2 Ht3 Hover.
    assert (Hwalk : truncate_walk w self [entry; f2; f3] (AsStr entry)
                    = mkBudget [t1; t2] 60000 2).
    { unfold truncate_walk. cbn [py_str List.filter].
      rewrite String.eqb_refl, (proj2 (String.eqb_neq f2 entry) Hf2),
        (proj2 (String.eqb_neq f3 entry) Hf3).
      cbn [negb foldl].
      rewrite (consider_fits w self _ entry t1 H1)
        by (cbn; rewrite Ht1; lia).
      rewrite (consider_fits w self _ f2 t2 H2)
        by (cbn; rewrite Ht1, Ht2; lia).
      rewrite (consider_overflows w self _ f3 t3 H3)
        by (cbn; rewrite Ht1, Ht2, Ht3; lia).
      unfold include. cbn. by rewrite Ht1, Ht2. }
    split; [done |].
    unfold assemble. cbn [py_str omap list_omap]. rewrite H1, H2, H3.
    fold (tokens self (join nl [t1; t2; t3])).
    rewrite (proj2 (Z.ltb_lt _ _) Hover). cbn [fst].
    unfold _truncate_context. rewrite Hwalk. done.
Qed.

Lemma truncation_best_effort_witness :
  truncate_walk big fallback ["/r/main.tf"; "/r/b.tf"; "/r/c.tf"]
    (AsStr "/r/main.tf")
  = mkBudget [default EmptyString (file_block big "/r/main.tf");
              default EmptyString (file_block big "/r/b.tf")] 60000 2
  ∧ fst (assemble big fallback (AsStr "/r/main.tf") ["/r/b.tf"; "/r/c.tf"])
    = default EmptyString (file_block big "/r/main.tf") +:+ nl
      +:+ default EmptyString (file_block big "/r/b.tf").
Proof.
  apply (proj1 (proj2 (proj2 (proj2 (proj2 (proj2
                  (truncation_best_effort big fallback))))))
           "/r/main.tf" "/r/b.tf" "/r/c.tf" _ _
           (default EmptyString (file_block big "/r/c.tf"))).
  - apply String.eqb_neq. reflexivity.
  - apply String.eqb_neq. reflexivity.
  - apply some_default. vm_compute. reflexivity.
  - apply some_default. vm_compute. reflexivity.
  - apply some_default. vm_compute. reflexivity.
  - vm_compute. reflexivity.
  - vm_compute. reflexivity.
  - vm_compute. reflexivity.
  - vm_compute. reflexivity.
Defined.

(** The token total that [generate_prompt] reports is the count of the
    prompt it returns. *)
Lemma generate_prompt_total (w : world) (self : t) entry_point relevant_files :
  let '(prompt, total_tokens, _) :=
    generate_prompt w self entry_point relevant_files in
  total_tokens = count_tokens self (codepoints prompt).
Proof.
  unfold generate_prompt.
  by destruct (assemble w self entry_point relevant_files).
Qed.

(** Without truncation the reported number of files is the number of
    blocks in the context. *)
Lemma assemble_untruncated_count (w : world) (self : t) entry_point
    relevant_files :
  let blocks := omap (file_block w) (py_str entry_point :: relevant_files) in
  (count_tokens self (codepoints (join nl blocks)) <= 80000)%Z →
  assemble w self entry_point relevant_files = (join nl blocks, len blocks).
Proof.
  intros blocks Hfits. unfold assemble. fold blocks.
  by rewrite (proj2 (Z.ltb_ge _ _) Hfits).
Qed.

(** C8 at a failing input.  The context of [marked] is truncated to the
    entry file alone, one file, and [generate_prompt] reports two: it
    counts the occurrences of [FILE:] in the truncated context, and the
    entry file holds one of its own. *)
Theorem truncated_count_counts_markers :
  let files_to_read := ["/r/main.tf"; "/r/b.tf"] in
  let st := truncate_walk marked fallback files_to_read (AsStr "/r/main.tf") in
  len (truncated_context st) = 1%Z
  ∧ files_included st = 1%Z
  ∧ snd (generate_prompt marked fallback (AsStr "/r/main.tf") ["/r/b.tf"])
    = 2%Z.
Proof. split_and!; vm_compute; reflexivity. Qed.

End budget_properties.

(** ** Cleaning the reply *)

Section fences.
Import Py re TerraformEnhancer.

Lemma startswith_strip_prefix (p s : string) :
  startswith s p = match strip_prefix p s with Some _ => true | None => false end.
Proof.
  revert s. induction p as [| c p IH]; intros s; [done |].
  destruct s as [| d s]; [done |]. cbn.
  destruct (Ascii.eqb c d); [apply IH | done].
Qed.

Lemma strip_prefix_length (p s r : string) :
  strip_prefix p s = Some r →
  String.length s = String.length p + String.length r.
Proof.
  revert s. induction p as [| c p IH]; intros s; cbn.
  - by intros [= ->].
  - destruct s as [| d s]; [done |].
    destruct (Ascii.eqb c d); [| done]. intros H. cbn. by rewrite (IH s).
Qed.

Lemma startswith_cons (c d : ascii) (s p : string) :
  startswith (String c s) (String d p) = Ascii.eqb d c && startswith s p.
Proof. done. Qed.

(** One step of the substitution of a literal pattern. *)
Lemma sub_from_lit (c0 : ascii) (l0 : string) (start : bool) (c : ascii)
    (s : string) :
  let l := String c0 l0 in
  sub_from (Lit l) start 0 (String c s)
  = if startswith (String c s) l
    then sub_from (Lit l) false (String.length l0) s
    else String c (sub_from (Lit l) false 0 s).
Proof.
  intros l. rewrite startswith_strip_prefix.
  cbn [sub_from]. unfold match_at. cbn [run rest]. subst l.
  destruct (strip_prefix (String c0 l0) (String c s)) as [r |] eqn:Hr;
    [| done].
  unfold span. cbn [rest advance].
  apply strip_prefix_length in Hr. rewrite Hr. cbn [String.length].
  replace (S (String.length l0) + String.length r - String.length r)
    with (S (String.length l0)) by lia.
  done.
Qed.

Lemma sub_fence_at_fence (start : bool) (s : string) :
  sub_from FENCE start 0 (fenced s) = sub_from FENCE false 0 s.
Proof.
  unfold FENCE, fenced. by rewrite (sub_from_lit "`" "``").
Qed.

Lemma sub_fence_elsewhere (start : bool) (c : ascii) (s : string) :
  startswith (String c s) "```" = false →
  sub_from FENCE start 0 (String c s) = String c (sub_from FENCE false 0 s).
Proof.
  intros H. unfold FENCE. by rewrite (sub_from_lit "`" "``"), H.
Qed.

(** A text starts with three backquotes or it does not. *)
Lemma fence_or_not (s : string) :
  (∃ s', s = fenced s') ∨ startswith s "```" = false.
Proof.
  destruct s as [| c1 [| c2 [| c3 s]]]; try (by right);
    try (right; cbn; by rewrite ?andb_false_r).
  cbn [startswith].
  destruct (Ascii.eqb_spec "`" c1) as [<- |]; [| by right].
  destruct (Ascii.eqb_spec "`" c2) as [<- |]; [| by right].
  destruct (Ascii.eqb_spec "`" c3) as [<- |]; [| by right].
  left. by exists s.
Qed.

(** After the fences are taken out, a text starts with no more
    backquotes than before, and never with three. *)
Lemma sub_fence_head (n : nat) (s : string) (start : bool) :
  String.length s < n →
  let cleaned := sub_from FENCE start 0 s in
  startswith cleaned "```" = false
  ∧ (startswith s "``" = false → startswith cleaned "``" = false)
  ∧ (startswith s "`" = false → startswith cleaned "`" = false).
Proof.
  cbv zeta.
  revert s start. induction n as [| n IH]; intros s start Hlen; [lia |].
  destruct (fence_or_not s) as [[s' ->] | Hno].
  - rewrite sub_fence_at_fence. cbn [String.length fenced] in Hlen.
    destruct (IH s' false ltac:(lia)) as (H3 & _ & _). by split_and!.
  - destruct s as [| c s]; [by split_and! |].
    rewrite (sub_fence_elsewhere _ _ _ Hno). cbn [String.length] in Hlen.
    destruct (IH s false ltac:(lia)) as (_ & H2 & H1).
    set (cleaned := sub_from FENCE false 0 s) in *.
    rewrite (startswith_cons c "`" s "``") in Hno.
    rewrite (startswith_cons c "`" cleaned "``"),
      (startswith_cons c "`" cleaned "`"), (startswith_cons c "`" s "`"),
      (startswith_cons c "`" cleaned EmptyString),
      (startswith_cons c "`" s EmptyString).
    destruct (Ascii.eqb "`" c); cbn [andb] in Hno |- *; [| done].
    split_and!; [by apply H2 | exact H1 | done].
Qed.

(** No fence is left after the substitution of the fences. *)
Lemma sub_fence_free (n : nat) (s : string) (start : bool) :
  String.length s < n →
  contains "```" (sub_from FENCE start 0 s) = false.
Proof.
  revert s start. induction n as [| n IH]; intros s start Hlen; [lia |].
  destruct (fence_or_not s) as [[s' ->] | Hno].
  - rewrite sub_fence_at_fence. cbn [String.length fenced] in Hlen.
    apply IH. lia.
  - destruct s as [| c s]; [done |].
    pose proof (sub_fence_head (S (S (String.length s))) (String c s) start
                  ltac:(cbn; lia)) as (H3 & _ & _).
    rewrite (sub_fence_elsewhere _ _ _ Hno) in H3 |- *.
    cbn [contains]. rewrite H3. cbn [orb String.length] in *.
    apply IH. lia.
Qed.

Lemma sub_from_no_match (r : regex) (start : bool) (c : ascii) (s : string) :
  match_at r start (String c s) = None →
  sub_from r start 0 (String c s) = String c (sub_from r false 0 s).
Proof. intros H. cbn [sub_from]. by rewrite H. Qed.

Lemma sub_from_match (r : regex) (start : bool) (c : ascii) (s : string)
    (m : mstate) (k : nat) :
  match_at r start (String c s) = Some m →
  String.length (String c s) = S k + String.length (rest m) →
  sub_from r start 0 (String c s) = sub_from r false k s.
Proof.
  intros H Hlen. cbn [sub_from]. rewrite H. unfold span. rewrite Hlen.
  by replace (S k + String.length (rest m) - String.length (rest m))
    with (S k) by lia.
Qed.

(** The opening fence does not match where no backquote stands. *)
Lemma fence_open_needs_backquote (start : bool) (c : ascii) (s : string) :
  Ascii.eqb "`" c = false → match_at FENCE_OPEN start (String c s) = None.
Proof.
  intros H. unfold match_at, FENCE_OPEN. cbn -[Ascii.eqb]. by rewrite H.
Qed.

Lemma contains_backquote_cons (c : ascii) (s : string) :
  contains "`" (String c s) = false →
  Ascii.eqb "`" c = false ∧ contains "`" s = false.
Proof.
  cbn [contains]. rewrite (startswith_cons c "`" s EmptyString).
  cbn [startswith]. rewrite andb_true_r. by intros [? ?]%orb_false_elim.
Qed.

Lemma sub_fence_open_plain (body : string) (start : bool) :
  contains "`" body = false →
  sub_from FENCE_OPEN start 0 (body +:+ "```") = body +:+ "```".
Proof.
  revert start. induction body as [| c body IH]; intros start Hfree.
  - by destruct start.
  - apply contains_backquote_cons in Hfree as [Hc Hfree].
    change (String c body +:+ "```") with (String c (body +:+ "```")).
    rewrite sub_from_no_match by by apply fence_open_needs_backquote.
    by rewrite IH.
Qed.

Lemma sub_fence_plain (body : string) (start : bool) :
  contains "`" body = false →
  sub_from FENCE start 0 (body +:+ "```") = body.
Proof.
  revert start. induction body as [| c body IH]; intros start Hfree.
  - by destruct start.
  - apply contains_backquote_cons in Hfree as [Hc Hfree].
    change (String c body +:+ "```") with (String c (body +:+ "```")).
    rewrite sub_fence_elsewhere.
    + by rewrite IH.
    + rewrite (startswith_cons c "`" _ "``"). by rewrite Hc.
Qed.

Lemma sub_fence_open_tag (tag rest : string) :
  tag ∈ known_tags →
  sub FENCE_OPEN ("```" +:+ tag +:+ nl +:+ rest)
  = sub_from FENCE_OPEN false 0 rest.
Proof.
  unfold known_tags. rewrite !elem_of_cons, elem_of_nil.
  intros [-> | [-> | [-> | [-> | []]]]]; unfold sub;
    match goal with
    | |- sub_from _ _ _ ?x = _ =>
        let x' := eval cbv in x in change x with x'
    end.
  - by rewrite (sub_from_match _ _ _ _
                  {| rest := rest; bos := false; caps := [] |} 12).
  - by rewrite (sub_from_match _ _ _ _
                  {| rest := rest; bos := false; caps := [] |} 6).
  - by rewrite (sub_from_match _ _ _ _
                  {| rest := rest; bos := false; caps := [] |} 5).
  - by rewrite (sub_from_match _ _ _ _
                  {| rest := rest; bos := false; caps := [] |} 3).
Qed.

(** A fenced block with a known tag and no backquote inside is reduced
    to what the fences enclose. *)
Lemma clean_fenced_block (tag body : string) :
  tag ∈ known_tags → contains "`" body = false →
  clean_response ("```" +:+ tag +:+ nl +:+ body +:+ "```") = body.
Proof.
  intros Htag Hfree. unfold clean_response.
  rewrite sub_fence_open_tag, sub_fence_open_plain by done.
  by apply sub_fence_plain.
Qed.

(** C6 as stated fails for a tag outside the known ones: the fence goes
    and the tag stays in the cleaned text. *)
Lemma unknown_tag_remains :
  clean_response ("```json" +:+ nl +:+ "FILE: a.tf" +:+ nl +:+ "x" +:+ nl
                  +:+ "```")
  = "json" +:+ nl +:+ "FILE: a.tf" +:+ nl +:+ "x" +:+ nl.
Proof. vm_compute. reflexivity. Qed.

End fences.

(** ** Extraction of the files of a reply *)

Section file_system.
Import pathlib.

Lemma assoc_update_eq {A} (k : string) (v : A) (l : list (string * A)) :
  assoc k (update_assoc k v l) = Some v.
Proof.
  induction l as [| [k' v'] l IH]; cbn.
  - by rewrite String.eqb_refl.
  - destruct (String.eqb k k') eqn:Hk; cbn; rewrite ?String.eqb_refl, ?Hk; done.
Qed.

Lemma assoc_update_ne {A} (k k' : string) (v : A) (l : list (string * A)) :
  k' ≠ k → assoc k' (update_assoc k v l) = assoc k' l.
Proof.
  intros Hne. induction l as [| [k0 v0] l IH]; cbn.
  - by rewrite (proj2 (String.eqb_neq k' k)).
  - destruct (String.eqb_spec k k0) as [<- | Hk]; cbn.
    + by rewrite !(proj2 (String.eqb_neq k' k)).
    + destruct (String.eqb k' k0); [done | apply IH].
Qed.

(** Writing a file below an existing directory succeeds, puts the text
    there, and leaves every directory a directory and nothing else one. *)
Lemma write_node_below (loc : list string) (name text : string) :
  ∀ (n : fsnode) (es : list (string * fsnode)),
    lookup_node n loc = Some (Dir es) →
    (∀ sub, assoc name es ≠ Some (Dir sub)) →
    ∃ n', write_node (loc ++ [name]) text n = Some n'
          ∧ lookup_node n' (loc ++ [name]) = Some (File (Some text))
          ∧ ∀ q, is_dir_node (lookup_node n' q) = is_dir_node (lookup_node n q).
Proof.
  induction loc as [| p loc IH]; intros n es Hn Hfree.
  - cbn in Hn. injection Hn as ->. cbn [app write_node].
    exists (Dir (update_assoc name (File (Some text)) es)).
    split_and!.
    + destruct (assoc name es) as [[? | sub] |] eqn:Hname; cbn; try done.
      by destruct (Hfree sub).
    + cbn. by rewrite assoc_update_eq.
    + intros [| k q]; [done |]. cbn [lookup_node].
      destruct (String.eqb_spec k name) as [-> | Hk].
      * rewrite assoc_update_eq.
        destruct (assoc name es) as [[? | sub] |] eqn:Hname.
        -- by destruct q.
        -- by destruct (Hfree sub).
        -- by destruct q.
      * by rewrite assoc_update_ne.
  - cbn [lookup_node] in Hn. destruct n as [? | es0]; [done |].
    destruct (assoc p es0) as [c |] eqn:Hp; [| done].
    destruct (IH c es Hn Hfree) as (c' & Hwrite & Hread & Hdirs).
    exists (Dir (update_assoc p c' es0)). cbn [app write_node].
    rewrite Hp, Hwrite. split_and!; [done | |].
    + cbn [lookup_node]. by rewrite assoc_update_eq.
    + intros [| k q]; [done |]. cbn [lookup_node].
      destruct (String.eqb_spec k p) as [-> | Hk].
      * rewrite assoc_update_eq, Hp. apply Hdirs.
      * by rewrite assoc_update_ne.
Qed.

Lemma walk_app (r : fsnode) (ps qs cur : list string) :
  walk r cur (ps ++ qs)
  = match walk r cur ps with Some c => walk r c qs | None => None end.
Proof.
  revert cur. induction ps as [| p ps IH]; intros cur; [done |].
  cbn. destruct (is_dir_node (lookup_node r cur)); [apply IH | done].
Qed.

Lemma walk_same_dirs (r r' : fsnode) (ps cur : list string) :
  (∀ q, is_dir_node (lookup_node r' q) = is_dir_node (lookup_node r q)) →
  walk r' cur ps = walk r cur ps.
Proof.
  intros Hdirs. revert cur. induction ps as [| p ps IH]; intros cur; [done |].
  cbn. rewrite Hdirs. destruct (is_dir_node (lookup_node r cur)); [apply IH | done].
Qed.

Lemma parent_child (p : Path) (name : string) : parent (child p name) = p.
Proof. unfold parent, child. cbn. rewrite removelast_snoc. by destruct p. Qed.

(** A file written below an existing directory can be read back. *)
Lemma write_then_read (w : world) (dir : Path) (name text : string)
    (es : list (string * fsnode)) :
  stat w dir = Some (Dir es) →
  (∀ sub, assoc name es ≠ Some (Dir sub)) →
  name ≠ ".." →
  ∃ w', write_text w (child dir name) text = Some w'
        ∧ read_text w' (child dir name) = Some text.
Proof.
  intros Hstat Hfree Hname. unfold stat in Hstat.
  destruct (locate w dir) as [loc |] eqn:Hloc; [| done].
  destruct (write_node_below loc name text (root w) es Hstat Hfree)
    as (r' & Hwrite & Hread & Hdirs).
  exists {| root := r'; cwd := cwd w |}. split.
  - unfold write_text. rewrite parent_child, Hloc.
    cbn [child parts]. rewrite last_last.
    rewrite (proj2 (String.eqb_neq name "..")) by done.
    rewrite Hstat, Hwrite. cbn. by destruct (parts dir).
  - unfold read_text, stat, locate in *. cbn [child parts absolute root cwd].
    rewrite walk_app, (walk_same_dirs (root w) r') by done.
    rewrite Hloc. cbn [walk]. rewrite Hdirs, Hstat. cbn [is_dir_node].
    rewrite (proj2 (String.eqb_neq name "..")) by done.
    by rewrite Hread.
Qed.

End file_system.

Section extraction.
Import Py re pathlib TerraformEnhancer Samples.

Lemma record_file_nonempty (files : gmap string string) segment :
  record_file files segment ≠ ∅.
Proof. unfold record_file. apply insert_non_empty. Qed.

Lemma foldl_record_file_nonempty segments (files : gmap string string) :
  files ≠ ∅ → foldl record_file files segments ≠ ∅.
Proof.
  revert files. induction segments as [| x l IH]; intros files Hne; [done |].
  cbn [foldl]. apply IH, record_file_nonempty.
Qed.

Lemma no_files_no_segments (segments : list (string * string)) :
  foldl record_file ∅ segments = ∅ ↔ segments = [].
Proof.
  split; [| by intros ->]. destruct segments as [| x l]; [done |].
  cbn [foldl]. intros H.
  by destruct (foldl_record_file_nonempty l (record_file ∅ x)
                 (record_file_nonempty ∅ x)).
Qed.

Lemma no_segments_both_grammars (cleaned : string) :
  find_segments cleaned = [] ↔
  findall FILE_PATTERN cleaned = [] ∧ findall PATH_COLON_PATTERN cleaned = [].
Proof.
  unfold find_segments.
  destruct (findall FILE_PATTERN cleaned); [| split; [done | by intros [? _]]].
  split; [done | by intros [_ ?]].
Qed.

Example extract_fenced_reply :
  extract_file_content work on_repo fenced_reply
  = (Returns {[ "a.tf" := "resource {}"; "c.tf" := "output {}" ]}, work).
Proof. vm_compute. reflexivity. Qed.

Example extract_colon_reply :
  extract_file_content work on_repo colon_reply
  = (Returns {[ "main.tf" := "resource {}"; "vars.tf" := "variable {}" ]},
     work).
Proof. vm_compute. reflexivity. Qed.

Example sanity_check_is_advisory :
  looks_like_terraform "resource {}" = true
  ∧ looks_like_terraform "nothing declared" = false.
Proof. by vm_compute. Qed.

(** C9, as the code has it.  The mapping built from a reply is empty
    exactly when neither grammar finds a segment in the cleaned reply.
    When it is not empty the call returns it and writes nothing.  When it
    is empty and the output directory exists (and the diagnostic file is
    not a directory), the call returns the empty mapping and the
    diagnostic file then holds the raw reply verbatim; when the raw reply
    cannot be written the call raises.  Nothing else can happen. *)
Theorem extract_file_content_outcome (w : world) (self : t)
    (response : string) :
  let cleaned := clean_response response in
  let files := foldl record_file ∅ (find_segments cleaned) in
  let debug_file := child (output_dir self) "claude_response.txt" in
  (files = ∅ ↔
   findall FILE_PATTERN cleaned = []
   ∧ findall PATH_COLON_PATTERN cleaned = [])
  ∧ (files ≠ ∅ → extract_file_content w self response = (Returns files, w))
  ∧ (files = ∅ →
     ∀ es, stat w (output_dir self) = Some (Dir es) →
           (∀ sub, assoc "claude_response.txt" es ≠ Some (Dir sub)) →
           ∃ w', extract_file_content w self response = (Returns ∅, w')
                 ∧ read_text w' debug_file = Some response)
  ∧ (files = ∅ → write_text w debug_file response = None →
     extract_file_content w self response = (Raises "OSError", w)).
Proof.
  intros cleaned files debug_file. split_and!.
  - subst files. by rewrite no_files_no_segments, no_segments_both_grammars.
  - intros Hne. unfold extract_file_content. fold cleaned. fold files.
    by rewrite bool_decide_eq_false_2.
  - intros Hempty es Hdir Hfree.
    destruct (write_then_read w (output_dir self) "claude_response.txt"
                response es Hdir Hfree ltac:(done)) as (w' & Hwrite & Hread).
    exists w'. split; [| done].
    unfold extract_file_content. fold cleaned. fold files.
    rewrite bool_decide_eq_true_2 by done.
    by rewrite Hwrite, Hempty.
  - intros Hempty Hfail.
    unfold extract_file_content. fold cleaned. fold files.
    rewrite bool_decide_eq_true_2 by done. fold debug_file.
    by rewrite Hfail.
Qed.

Lemma extract_file_content_outcome_witness :
  ∃ w', extract_file_content work_with_output on_repo prose = (Returns ∅, w')
        ∧ read_text w' (child (output_dir on_repo) "claude_response.txt")
          = Some prose.
Proof.
  apply (proj1 (proj2 (proj2 (extract_file_content_outcome
                                work_with_output on_repo prose)))
           ltac:(vm_compute; reflexivity) []).
  - vm_compute. reflexivity.
  - intros sub. discriminate.
Defined.

(** C9 as stated fails: on a reply without markers, in a directory where
    the output directory was not made, the call raises. *)
Lemma extract_file_content_raises :
  extract_file_content work on_repo prose = (Raises "OSError", work).
Proof. vm_compute. reflexivity. Qed.

End extraction.

(** ** What the graph builder keeps and where its edges go *)

Section builder_reach.
Import Py nx pathlib re hcl TerraformEnhancer.
Import Samples.
Import Py nx pathlib hcl TerraformEnhancer.

Variable hcl2_load : string → option (list (string * pyval)).
Variable w : world.

Lemma extends_refl (g : DiGraph) : extends g g.
Proof. by split. Qed.

Lemma extends_trans (g1 g2 g3 : DiGraph) :
  extends g1 g2 → extends g2 g3 → extends g1 g3.
Proof. intros [? H1] [? H2]. split; [set_solver |]. intros u. specialize (H1 u). specialize (H2 u). set_solver. Qed.

Lemma extends_add_node (g : DiGraph) n : extends g (add_node g n).
Proof.
  split; [rewrite dom_add_node; set_solver |].
  intros u. by rewrite successors_add_node.
Qed.

Lemma extends_add_edge (g : DiGraph) u v : extends g (add_edge g u v).
Proof.
  split; [rewrite dom_add_edge; set_solver |].
  intros x. rewrite successors_add_edge. case_decide; [subst; set_solver | done].
Qed.

Lemma extends_add_edges (g : DiGraph) u targets :
  extends g (add_edges g u targets).
Proof.
  unfold add_edges. revert g.
  induction targets as [| v targets IH]; intros g; [apply extends_refl |].
  cbn [foldl]. eapply extends_trans; [apply extends_add_edge | apply IH].
Qed.

(** A loop keeps what its body keeps. *)
Lemma for_each_relates {A} (R : DiGraph → DiGraph → Prop)
    (body : A → DiGraph → DiGraph * completion) (l : list A) (g : DiGraph) :
  (∀ g, R g g) → (∀ g1 g2 g3, R g1 g2 → R g2 g3 → R g1 g3) →
  (∀ x g, R g (fst (body x g))) →
  R g (fst (for_each body l g)).
Proof.
  intros Hrefl Htrans Hbody. revert g.
  induction l as [| x l IH]; intros g; [apply Hrefl |].
  rewrite for_each_cons. specialize (Hbody x g).
  destruct (body x g) as [g' []]; [| done].
  eapply Htrans; [exact Hbody | apply IH].
Qed.

Lemma extends_add_module_dependency (g : DiGraph) source tf_file file_path :
  extends g (fst (_add_module_dependency w g source tf_file file_path)).
Proof.
  unfold _add_module_dependency.
  destruct source as [source | | |]; try apply extends_refl.
  repeat case_match; try apply extends_refl; cbn [fst];
    rewrite foldl_add_edge_str; apply extends_add_edges.
Qed.

Lemma extends_process_module_list (g : DiGraph) modules tf_file file_path :
  extends g (fst (_process_module_list w g modules tf_file file_path)).
Proof.
  unfold _process_module_list.
  apply (for_each_relates extends); [apply extends_refl | apply extends_trans |].
  intros module_dict g'. destruct module_dict; try apply extends_refl.
  apply (for_each_relates extends); [apply extends_refl | apply extends_trans |].
  intros item g''. repeat case_match; try apply extends_refl.
  apply extends_add_module_dependency.
Qed.

Lemma extends_process_module_dict (g : DiGraph) modules tf_file file_path :
  extends g (fst (_process_module_dict w g modules tf_file file_path)).
Proof.
  unfold _process_module_dict. destruct modules; try apply extends_refl.
  apply (for_each_relates extends); [apply extends_refl | apply extends_trans |].
  intros item g'. repeat case_match; try apply extends_refl;
    apply extends_add_module_dependency.
Qed.

Lemma scan_file_skipped (g : DiGraph) tf_file :
  skipped tf_file = true → scan_file hcl2_load w g tf_file = g.
Proof. unfold skipped, scan_file. by intros ->. Qed.

Lemma extends_scan_file (g : DiGraph) tf_file :
  extends g (scan_file hcl2_load w g tf_file).
Proof.
  unfold scan_file.
  pose proof (extends_add_node g (str tf_file)) as Hnode.
  repeat case_match; try apply extends_refl; try done;
    (eapply extends_trans; [exact Hnode |]);
    (apply extends_process_module_list || apply extends_process_module_dict).
Qed.

Lemma scan_file_adds_node (g : DiGraph) tf_file :
  skipped tf_file = false → str tf_file ∈ dom (scan_file hcl2_load w g tf_file).
Proof.
  intros Hkept. unfold scan_file. fold (skipped tf_file). rewrite Hkept.
  assert (Hin : str tf_file ∈ dom (add_node g (str tf_file)))
    by (rewrite dom_add_node; set_solver).
  repeat case_match; try done;
    first [ by apply (extends_process_module_list (add_node g (str tf_file)))
          | by apply (extends_process_module_dict (add_node g (str tf_file))) ].
Qed.

Lemma extends_scan (tf_files : list Path) (g : DiGraph) :
  extends g (foldl (scan_file hcl2_load w) g tf_files).
Proof.
  revert g. induction tf_files as [| f l IH]; intros g; [apply extends_refl |].
  cbn [foldl]. eapply extends_trans; [apply extends_scan_file | apply IH].
Qed.


Lemma scan_adds_nodes (tf_files : list Path) (g : DiGraph) (tf : Path) :
  tf ∈ tf_files → skipped tf = false →
  str tf ∈ dom (foldl (scan_file hcl2_load w) g tf_files).
Proof.
  revert g. induction tf_files as [| f l IH]; intros g Hin Hkept.
  - by apply elem_of_nil in Hin.
  - cbn [foldl]. apply elem_of_cons in Hin as [<- | Hin]; [| by apply IH].
    apply (extends_scan l), scan_file_adds_node, Hkept.
Qed.

(** X1.  Every file found below the target directory and not passed
    over is a node of the graph that [build_dependency_graph] makes,
    whether or not it can be read and parsed; and scanning further files
    only adds nodes and edges to the graph. *)
Theorem scanned_files_are_nodes (self : t) :
  (∀ tf, tf ∈ rglob_tf w (target_dir self) → skipped tf = false →
         str tf ∈ nodes (build_dependency_graph hcl2_load w self))
  ∧ (∀ before after g,
       extends (foldl (scan_file hcl2_load w) g before)
               (foldl (scan_file hcl2_load w) g (before ++ after))).
Proof.
  split.
  - intros tf Hin Hkept. by apply scan_adds_nodes.
  - intros before after g. rewrite foldl_app. apply extends_scan.
Qed.

(** *** Names as strings *)
Lemma append_cons (c : ascii) (a b : string) :
  String c a +:+ b = String c (a +:+ b).
Proof. done. Qed.

Lemma append_assoc (a b c : string) : (a +:+ b) +:+ c = a +:+ (b +:+ c).
Proof. induction a as [| x a IH]; [done |]. by rewrite !append_cons, IH. Qed.

Lemma endswith_app (a b suffix : string) :
  endswith b suffix = true → endswith (a +:+ b) suffix = true.
Proof.
  intros H. induction a as [| c a IH]; [done |].
  rewrite append_cons. cbn [endswith]. by rewrite IH, orb_true_r.
Qed.

Lemma join_snoc (sep : string) (ps : list string) (x : string) :
  ∃ pre, join sep (ps ++ [x]) = pre +:+ x.
Proof.
  induction ps as [| p ps [pre IH]]; [by exists EmptyString |].
  exists (p +:+ sep +:+ pre).
  replace (join sep ((p :: ps) ++ [x])) with (p +:+ sep +:+ join sep (ps ++ [x]))
    by (cbn; by destruct ps).
  by rewrite IH, !append_assoc.
Qed.

(** The name of a [*.tf] entry of a resolved directory. *)
Lemma str_child_target (p : Path) (name : string) :
  absolute p = true → is_tf name = true →
  startswith (str (child p name)) "/" = true
  ∧ endswith (str (child p name)) ".tf" = true.
Proof.
  intros Habs Htf. unfold str, child. cbn [absolute parts]. rewrite Habs.
  split; [done |]. destruct (join_snoc "/" (parts p) name) as [pre ->].
  rewrite <- append_assoc. by apply endswith_app.
Qed.

Lemma adds_from_refl file_path g : adds_from file_path g g.
Proof. intros x v ?. by left. Qed.

Lemma adds_from_trans file_path g1 g2 g3 :
  adds_from file_path g1 g2 → adds_from file_path g2 g3 →
  adds_from file_path g1 g3.
Proof.
  intros H12 H23 x v Hedge. destruct (H23 x v Hedge) as [H | H]; [| by right].
  by apply H12.
Qed.

Lemma adds_from_add_node file_path g n : adds_from file_path g (add_node g n).
Proof. intros x v. unfold edge. rewrite successors_add_node. by left. Qed.

Lemma adds_from_glob (g : DiGraph) file_path (module_path : Path) :
  absolute module_path = true →
  adds_from file_path g
    (add_edges g file_path (map str (glob_tf w module_path))).
Proof.
  intros Habs x v. unfold edge. rewrite successors_add_edges.
  case_decide as Hx; [| by left]. subst x.
  rewrite elem_of_union, elem_of_list_to_set.
  intros [H | H]; [by left | right]. split; [done |].
  apply list_elem_of_fmap in H as (p & -> & Hp).
  unfold glob_tf in Hp. destruct (stat w module_path) as [[? | es] |];
    try by apply elem_of_nil in Hp.
  apply list_elem_of_fmap in Hp as (name & -> & Hname).
  apply elem_of_bool_filter in Hname as [Htf _].
  by apply str_child_target.
Qed.

Lemma adds_from_add_module_dependency g source tf_file file_path :
  adds_from file_path g
    (fst (_add_module_dependency w g source tf_file file_path)).
Proof.
  unfold _add_module_dependency.
  destruct source as [source | | |]; try apply adds_from_refl.
  repeat case_match; try apply adds_from_refl; cbn [fst];
    rewrite foldl_add_edge_str; by apply adds_from_glob.
Qed.

Lemma adds_from_process_module_list g modules tf_file file_path :
  adds_from file_path g
    (fst (_process_module_list w g modules tf_file file_path)).
Proof.
  unfold _process_module_list.
  apply (for_each_relates (adds_from file_path));
    [apply adds_from_refl | apply adds_from_trans |].
  intros module_dict g'. destruct module_dict; try apply adds_from_refl.
  apply (for_each_relates (adds_from file_path));
    [apply adds_from_refl | apply adds_from_trans |].
  intros item g''. repeat case_match; try apply adds_from_refl.
  apply adds_from_add_module_dependency.
Qed.

Lemma adds_from_process_module_dict g modules tf_file file_path :
  adds_from file_path g
    (fst (_process_module_dict w g modules tf_file file_path)).
Proof.
  unfold _process_module_dict. destruct modules; try apply adds_from_refl.
  apply (for_each_relates (adds_from file_path));
    [apply adds_from_refl | apply adds_from_trans |].
  intros item g'. repeat case_match; try apply adds_from_refl;
    apply adds_from_add_module_dependency.
Qed.

Lemma adds_from_scan_file g tf_file :
  adds_from (str tf_file) g (scan_file hcl2_load w g tf_file).
Proof.
  unfold scan_file.
  pose proof (adds_from_add_node (str tf_file) g (str tf_file)) as Hnode.
  repeat case_match; try apply adds_from_refl; try done;
    (eapply adds_from_trans; [exact Hnode |]);
    (apply adds_from_process_module_list
     || apply adds_from_process_module_dict).
Qed.

Lemma scan_edges (tf_files : list Path) (g : DiGraph) x v :
  edge (foldl (scan_file hcl2_load w) g tf_files) x v →
  edge g x v
  ∨ (∃ tf, tf ∈ tf_files ∧ skipped tf = false ∧ x = str tf)
    ∧ startswith v "/" = true ∧ endswith v ".tf" = true.
Proof.
  revert g. induction tf_files as [| f l IH]; intros g; [by left |].
  cbn [foldl]. intros Hedge.
  destruct (IH _ Hedge) as [H | [(tf & Hin & Hkept & ->) HT]].
  - destruct (skipped f) eqn:Hf.
    + rewrite scan_file_skipped in H by done. by left.
    + destruct (adds_from_scan_file g f x v H) as [? | [-> HT]]; [by left |].
      right. split; [| done]. exists f. split_and!; [left | done | done].
  - right. split; [| done]. exists tf. split_and!; [by right | done | done].
Qed.

(** X2.  Every edge of the graph that [build_dependency_graph] makes
    leads from the name of a scanned file that was not passed over to an
    absolute name that ends in [.tf]. *)
Theorem edges_lead_from_scanned_to_resolved (self : t) (x v : string) :
  edge (build_dependency_graph hcl2_load w self) x v →
  (∃ tf, tf ∈ rglob_tf w (target_dir self) ∧ skipped tf = false ∧ x = str tf)
  ∧ startswith v "/" = true ∧ endswith v ".tf" = true.
Proof.
  intros Hedge. destruct (scan_edges _ _ _ _ Hedge) as [H | H]; [| done].
  unfold edge, successors in H. rewrite lookup_empty in H. set_solver.
Qed.

(** The name of a scanned file below a relative, named directory does not
    start with a slash. *)
Lemma str_below_relative (p : Path) (rel : list string) :
  relative_named p = true →
  startswith (str {| absolute := absolute p; parts := parts p ++ rel |}) "/"
  = false.
Proof.
  unfold relative_named, str. cbn [absolute parts].
  destruct (absolute p); [done |].
  destruct (parts p) as [| [| c first] ps]; try done.
  cbn [negb andb app]. intros Hc%negb_true_iff.
  assert (∃ tail, join "/" (String c first :: ps ++ rel) = String c tail)
    as [tail ->] by (cbn [join]; destruct (ps ++ rel); by eexists).
  cbn [startswith]. by rewrite Ascii.eqb_sym, Hc.
Qed.

Lemma rglob_tf_shape (p tf : Path) :
  tf ∈ rglob_tf w p →
  ∃ rel, tf = {| absolute := absolute p; parts := parts p ++ rel |}.
Proof.
  unfold rglob_tf. destruct (stat w p); [| by intros ?%elem_of_nil].
  intros (rel & -> & _)%list_elem_of_fmap. by exists rel.
Qed.

(** When edges lead from names of one kind to names of another kind, a
    chain of edges is one edge. *)
Lemma tc_edge_once (g : DiGraph) (a b : string) :
  (∀ x v, edge g x v →
          startswith x "/" = false ∧ startswith v "/" = true) →
  tc (edge g) a b ↔ edge g a b.
Proof.
  intros Hshape. split; [| apply tc_once].
  intros Htc. destruct Htc as [a b Hab | a x b Hax Hxb]; [done |].
  destruct (Hshape a x Hax) as [_ Hx].
  assert (∃ y, edge g x y) as [y Hxy] by (destruct Hxb; eauto).
  destruct (Hshape x y Hxy) as [Hx' _]. congruence.
Qed.

(** X3.  When the target directory is given as a relative path with a
    first component, the files relevant to an entry point of the graph
    are its direct successors and nothing more: edges lead to absolute
    names, and no scanned file has one. *)
Theorem relative_target_gives_direct_dependencies (self0 self : t)
    (entry_point : str_or_path) :
  let g := build_dependency_graph hcl2_load w self0 in
  relative_named (target_dir self0) = true →
  graph self = Some g →
  py_str entry_point ∈ dom g →
  get_relevant_files self entry_point
  = Returns (successors g (py_str entry_point)).
Proof.
  intros g Hrel Hgraph Hin.
  assert (Hshape : ∀ x v, edge g x v →
            startswith x "/" = false ∧ startswith v "/" = true).
  { intros x v Hedge.
    destruct (scan_edges _ _ _ _ Hedge)
      as [Hnone | ((tf & Htf & _ & ->) & Hv & _)].
    { unfold edge, successors in Hnone. rewrite lookup_empty in Hnone.
      set_solver. }
    split; [| done]. apply rglob_tf_shape in Htf as [rel ->].
    by apply str_below_relative. }
  destruct (descendants_spec g (py_str entry_point)
              (closed_build_dependency_graph hcl2_load w self0) Hin)
    as (found & Hrun & Hfound).
  unfold get_relevant_files. rewrite Hgraph.
  rewrite bool_decide_eq_false_2 by set_solver.
  rewrite bool_decide_eq_true_2 by done. rewrite Hrun. f_equal.
  apply set_eq. intros v. rewrite Hfound, (tc_edge_once g) by done.
  split; [by intros [_ ?] |]. intros Hedge. split; [| done].
  intros ->. destruct (Hshape _ _ Hedge). congruence.
Qed.


Lemma startswith_app (a b prefix : string) :
  startswith a prefix = true → startswith (a +:+ b) prefix = true.
Proof.
  revert a. induction prefix as [| c prefix IH]; intros a; [done |].
  destruct a as [| d a]; [done |]. rewrite append_cons. cbn [startswith].
  intros [-> H]%andb_true_iff. by rewrite IH.
Qed.

Lemma contains_app (needle a b : string) :
  contains needle a = true → contains needle (a +:+ b) = true.
Proof.
  induction a as [| c a IH].
  - destruct needle; [| done]. intros _. by destruct b.
  - rewrite append_cons. cbn [contains].
    intros [H | H]%orb_true_iff.
    + pose proof (startswith_app (String c a) b needle H) as H'.
      rewrite append_cons in H'. by rewrite H'.
    + by rewrite IH, orb_true_r.
Qed.

Lemma append_nil_r (a : string) : a +:+ EmptyString = a.
Proof. induction a as [| c a IH]; [done |]. by rewrite append_cons, IH. Qed.

Lemma join_cons_cons (sep x y : string) (l : list string) :
  join sep (x :: y :: l) = x +:+ sep +:+ join sep (y :: l).
Proof. done. Qed.

Lemma join_app (sep : string) (ps rel : list string) :
  ps ≠ [] → ∃ tail, join sep (ps ++ rel) = join sep ps +:+ tail.
Proof.
  induction ps as [| p ps IH]; [done |]. intros _.
  destruct ps as [| q ps].
  - destruct rel as [| r rel].
    + exists EmptyString. cbn [app join]. by rewrite append_nil_r.
    + exists (sep +:+ join sep (r :: rel)). done.
  - destruct (IH ltac:(done)) as [tail Htail]. exists tail.
    change ((p :: q :: ps) ++ rel) with (p :: q :: (ps ++ rel)).
    change (q :: ps ++ rel) with ((q :: ps) ++ rel).
    rewrite (join_cons_cons sep p q ps).
    change (join sep (p :: (q :: ps) ++ rel))
      with (join sep (p :: q :: (ps ++ rel))).
    rewrite (join_cons_cons sep p q (ps ++ rel)).
    change (q :: ps ++ rel) with ((q :: ps) ++ rel).
    by rewrite Htail, !append_assoc.
Qed.

(** Every file below a directory whose own path is passed over is passed
    over. *)
Lemma skipped_below (p : Path) (rel : list string) :
  skipped p = true →
  skipped {| absolute := absolute p; parts := parts p ++ rel |} = true.
Proof.
  unfold skipped. intros [H | H]%orb_true_iff; apply orb_true_iff.
  - left. unfold str in *. cbn [absolute parts].
    destruct (parts p) as [| q qs] eqn:Hparts.
    { by destruct (absolute p). }
    destruct (join_app "/" (q :: qs) rel ltac:(done)) as [tail Htail].
    destruct (absolute p).
    + rewrite Htail, <- append_assoc. by apply contains_app.
    + cbn [app]. change (q :: qs ++ rel) with ((q :: qs) ++ rel).
      rewrite Htail. by apply contains_app.
  - right. unfold py_parts in *. cbn [absolute parts].
    destruct (absolute p).
    + change ("/" :: parts p ++ rel) with (("/" :: parts p) ++ rel).
      by rewrite existsb_app, H.
    + by rewrite existsb_app, H.
Qed.

Lemma scan_all_skipped (tf_files : list Path) (g : DiGraph) :
  Forall (fun tf => skipped tf = true) tf_files →
  foldl (scan_file hcl2_load w) g tf_files = g.
Proof.
  intros Hall. revert g. induction Hall as [| f l Hf _ IH]; intros g; [done |].
  cbn [foldl]. by rewrite scan_file_skipped, IH.
Qed.

(** X4.  When the path of the target directory itself has a component
    that starts with a dot, or contains [.terraform], every file is
    passed over, the graph is empty, and [get_relevant_files] on it raises
    [ValueError]. *)
Theorem skipped_target_gives_empty_graph (self0 self : t)
    (entry_point : str_or_path) :
  skipped (target_dir self0) = true →
  build_dependency_graph hcl2_load w self0 = ∅
  ∧ (graph self = Some (build_dependency_graph hcl2_load w self0) →
     get_relevant_files self entry_point = Raises "ValueError").
Proof.
  intros Hskip.
  assert (Hempty : build_dependency_graph hcl2_load w self0 = ∅).
  { unfold build_dependency_graph. apply scan_all_skipped.
    apply Forall_forall. intros tf [rel ->]%rglob_tf_shape.
    by apply skipped_below. }
  split; [done |]. rewrite Hempty. intros Hgraph.
  unfold get_relevant_files. rewrite Hgraph.
  by rewrite bool_decide_eq_true_2 by apply dom_empty_L.
Qed.

Lemma tc_edge_in_dom (g : DiGraph) (a b : string) :
  closed g → tc (edge g) a b → b ∈ dom g.
Proof.
  intros Hclosed Htc. induction Htc as [a b Hab | a x b _ _ IH]; [| done].
  by apply (Hclosed a).
Qed.

(** X5.  On the graph that [build_dependency_graph] makes,
    [get_relevant_files] raises [ValueError] when the graph has no node,
    and otherwise returns a set of nodes of the graph without the entry
    point, the empty set when the entry point is no node. *)
Theorem get_relevant_files_on_built_graph (self0 self : t)
    (entry_point : str_or_path) :
  let g := build_dependency_graph hcl2_load w self0 in
  graph self = Some g →
  (dom g = ∅ → get_relevant_files self entry_point = Raises "ValueError")
  ∧ (dom g ≠ ∅ →
     ∃ found : gset string,
       get_relevant_files self entry_point = Returns found
       ∧ found ⊆ dom g ∖ {[py_str entry_point]}
       ∧ (py_str entry_point ∉ dom g → found = ∅)).
Proof.
  intros g Hgraph. unfold get_relevant_files. rewrite Hgraph. split.
  - intros Hempty. by rewrite bool_decide_eq_true_2.
  - intros Hne. rewrite bool_decide_eq_false_2 by done.
    destruct (decide (py_str entry_point ∈ dom g)) as [Hin | Hout].
    + rewrite bool_decide_eq_true_2 by done.
      pose proof (closed_build_dependency_graph hcl2_load w self0) as Hclosed.
      destruct (descendants_spec g (py_str entry_point) Hclosed Hin)
        as (found & -> & Hfound).
      exists found. split_and!; [done | | done].
      intros v [Hv Htc]%Hfound. apply elem_of_difference. split.
      * by apply (tc_edge_in_dom g (py_str entry_point)).
      * set_solver.
    + rewrite bool_decide_eq_false_2 by done. exists ∅. by split_and!.
Qed.

End builder_reach.

Section built_graph_samples.
Import Py nx pathlib re hcl TerraformEnhancer.
Import Samples.
(** *** The graph of the sample clone *)

Lemma scanned_files_are_nodes_witness :
  str (Path_of "repo/main.tf")
  ∈ nodes (build_dependency_graph parse work on_repo).
Proof.
  apply (proj1 (scanned_files_are_nodes parse work on_repo)).
  - apply list_elem_of_In. vm_compute. tauto.
  - vm_compute. reflexivity.
Defined.

Lemma edges_lead_from_scanned_to_resolved_witness :
  (∃ tf, tf ∈ rglob_tf work (target_dir on_repo) ∧ skipped tf = false
         ∧ "repo/main.tf" = str tf)
  ∧ startswith "/work/repo/modules/x/a.tf" "/" = true
  ∧ endswith "/work/repo/modules/x/a.tf" ".tf" = true.
Proof.
  apply (edges_lead_from_scanned_to_resolved parse work on_repo).
  unfold edge. vm_compute. reflexivity.
Defined.

Lemma relative_target_gives_direct_dependencies_witness :
  get_relevant_files
    (enhancer_with (build_dependency_graph parse work on_repo))
    (AsStr "repo/main.tf")
  = Returns (successors (build_dependency_graph parse work on_repo)
                        "repo/main.tf").
Proof.
  apply (relative_target_gives_direct_dependencies parse work on_repo
           (enhancer_with (build_dependency_graph parse work on_repo))
           (AsStr "repo/main.tf")).
  - vm_compute. reflexivity.
  - reflexivity.
  - vm_compute. reflexivity.
Defined.

Lemma skipped_target_gives_empty_graph_witness :
  build_dependency_graph parse hidden_work on_hidden_repo = ∅
  ∧ get_relevant_files
      (enhancer_with (build_dependency_graph parse hidden_work on_hidden_repo))
      (AsStr ".cache/repo/main.tf")
    = Raises "ValueError".
Proof.
  destruct (skipped_target_gives_empty_graph parse hidden_work on_hidden_repo
              (enhancer_with
                 (build_dependency_graph parse hidden_work on_hidden_repo))
              (AsStr ".cache/repo/main.tf")) as [Hempty Hraises].
  - vm_compute. reflexivity.
  - split; [exact Hempty | apply Hraises; reflexivity].
Defined.

Lemma get_relevant_files_on_built_graph_witness :
  ∃ found : gset string,
    get_relevant_files
      (enhancer_with (build_dependency_graph parse work on_repo))
      (AsStr "elsewhere.tf")
    = Returns found
    ∧ found ⊆ dom (build_dependency_graph parse work on_repo)
              ∖ {[ "elsewhere.tf" ]}
    ∧ ("elsewhere.tf" ∉ dom (build_dependency_graph parse work on_repo) →
       found = ∅).
Proof.
  apply (proj2 (get_relevant_files_on_built_graph parse work on_repo
                  (enhancer_with (build_dependency_graph parse work on_repo))
                  (AsStr "elsewhere.tf") eq_refl)).
  intros Hempty.
  assert (Hin : "repo/main.tf"
                ∈ dom (build_dependency_graph parse work on_repo)).
  { vm_compute. reflexivity. }
  rewrite Hempty in Hin. by apply elem_of_empty in Hin.
Defined.

End built_graph_samples.

(** ** The matcher finds only what its pattern describes *)

Section matcher_sound.
Import Py nx pathlib re hcl TerraformEnhancer.
Import Samples.
Import Py re.

Lemma strip_prefix_app (p s r : string) :
  strip_prefix p s = Some r → s = p +:+ r.
Proof.
  revert s. induction p as [| c p IH]; intros s; cbn.
  - by intros [= ->].
  - destruct s as [| d s]; [done |].
    destruct (Ascii.eqb_spec c d) as [<- |]; [| done].
    intros H. by rewrite (IH s H).
Qed.

Lemma greedy_sound (k : cclass) (st : mstate) (cont : mstate → option mstate)
    (m : mstate) (s : string) (first : bool) :
  (first = true → rest st = s) →
  greedy k st s cont first = Some m →
  ∃ st' run, cont st' = Some m ∧ s = run +:+ rest st'
             ∧ all_in k run = true ∧ caps st' = caps st.
Proof.
  revert first. induction s as [| c s IH]; intros first Hfirst; cbn [greedy].
  - intros H. exists (if first then st else advance st EmptyString), EmptyString.
    split; [done |]. destruct first; [| done]. by rewrite Hfirst.
  - assert (Hhere : cont (if first then st else advance st (String c s)) = Some m →
      ∃ st' run, cont st' = Some m ∧ String c s = run +:+ rest st'
                 ∧ all_in k run = true ∧ caps st' = caps st).
    { intros H. exists (if first then st else advance st (String c s)), EmptyString.
      split; [done |]. destruct first; [| done]. by rewrite Hfirst. }
    destruct (in_class k c) eqn:Hc; [| done].
    destruct (greedy k st s cont false) as [m' |] eqn:Hrec; [| done].
    intros [= ->].
    destruct (IH false ltac:(done) Hrec) as (st' & run & Hcont & Hs & Hall & Hcaps).
    exists st', (String c run). split_and!; try done.
    + by rewrite Hs.
    + cbn. by rewrite Hc.
Qed.

Lemma lazy_sound (k : cclass) (st : mstate) (cont : mstate → option mstate)
    (m : mstate) (s : string) (first : bool) :
  (first = true → rest st = s) →
  lazy k st s cont first = Some m →
  ∃ st' run, cont st' = Some m ∧ s = run +:+ rest st'
             ∧ all_in k run = true ∧ caps st' = caps st.
Proof.
  revert first. induction s as [| c s IH]; intros first Hfirst; cbn [lazy].
  - destruct (cont _) as [m' |] eqn:Hcont; [| done]. intros [= ->].
    exists (if first then st else advance st EmptyString), EmptyString.
    split; [done |]. destruct first; [| done]. by rewrite Hfirst.
  - destruct (cont _) as [m' |] eqn:Hcont.
    + intros [= ->].
      exists (if first then st else advance st (String c s)), EmptyString.
      split; [done |]. destruct first; [| done]. by rewrite Hfirst.
    + destruct (in_class k c) eqn:Hc; [| done]. intros Hrec.
      destruct (IH false ltac:(done) Hrec)
        as (st' & run & Hcont' & Hs & Hall & Hcaps).
      exists st', (String c run). split_and!; try done.
      * by rewrite Hs.
      * cbn. by rewrite Hc.
Qed.

Lemma run_sound (r : regex) :
  ∀ (st : mstate) (cont : mstate → option mstate) (m : mstate),
    run r st cont = Some m → ∃ st', cont st' = Some m ∧ reaches r st st'.
Proof.
  induction r as [l | k | r1 IH1 r2 IH2 | r1 IH1 r2 IH2 | r1 IH1 | k | k | k | k
                  | i r1 IH1 | r1 IH1 | |]; intros st cont m; cbn [run reaches].
  - destruct l as [| c l]; [by exists st |].
    destruct (strip_prefix _ _) as [s' |] eqn:Hs; [| done].
    intros H. exists (advance st s'). split; [done |].
    split; [by apply strip_prefix_app | done].
  - unfold one. destruct (rest st) as [| c s'] eqn:Hrest; [done |].
    destruct (in_class k c) eqn:Hc; [| done]. intros H.
    exists (advance st s'). split; [done |]. by exists c.
  - intros H. destruct (IH1 _ _ _ H) as (mid & H2 & Hr1).
    destruct (IH2 _ _ _ H2) as (st' & Hcont & Hr2).
    exists st'. split; [done |]. by exists mid.
  - destruct (run r1 st cont) as [m' |] eqn:H1.
    + intros [= ->]. destruct (IH1 _ _ _ H1) as (st' & ? & ?).
      exists st'. split; [done | by left].
    + intros H2. destruct (IH2 _ _ _ H2) as (st' & ? & ?).
      exists st'. split; [done | by right].
  - destruct (run r1 st cont) as [m' |] eqn:H1.
    + intros [= ->]. destruct (IH1 _ _ _ H1) as (st' & ? & ?).
      exists st'. split; [done | by left].
    + intros H. exists st. split; [done | by right].
  - intros H. destruct (greedy_sound k st cont m (rest st) true ltac:(done) H)
      as (st' & run & ? & ? & ? & ?).
    exists st'. split; [done |]. by exists run.
  - unfold one. destruct (rest st) as [| c s'] eqn:Hrest; [done |].
    destruct (in_class k c) eqn:Hc; [| done]. intros H.
    destruct (greedy_sound k st cont m s' false ltac:(done) H)
      as (st' & run & ? & Hs & Hall & ?).
    exists st'. split; [done |]. exists c, run. split_and!; try done.
    + by rewrite Hs.
    + cbn. by rewrite Hc.
  - intros H. destruct (lazy_sound k st cont m (rest st) true ltac:(done) H)
      as (st' & run & ? & ? & ? & ?).
    exists st'. split; [done |]. by exists run.
  - unfold one. destruct (rest st) as [| c s'] eqn:Hrest; [done |].
    destruct (in_class k c) eqn:Hc; [| done]. intros H.
    destruct (lazy_sound k st cont m s' false ltac:(done) H)
      as (st' & run & ? & Hs & Hall & ?).
    exists st'. split; [done |]. exists c, run. split_and!; try done.
    + by rewrite Hs.
    + cbn. by rewrite Hc.
  - intros H. destruct (IH1 _ _ _ H) as (st1 & Hcont & Hr1).
    eexists. split; [exact Hcont |]. by exists st1.
  - destruct (run r1 st Some) as [x |] eqn:H1; [| done]. intros H.
    destruct (IH1 _ _ _ H1) as (st1 & _ & Hr1).
    exists st. split; [done |]. split; [done | by exists st1].
  - destruct (bos st); [| done]. intros H. by exists st.
  - destruct (at_end (rest st)) eqn:He; [| done]. intros H. by exists st.
Qed.

Lemma match_at_sound (r : regex) (start : bool) (s : string) (m : mstate) :
  match_at r start s = Some m →
  reaches r {| rest := s; bos := start; caps := [] |} m.
Proof.
  unfold match_at. intros H.
  by destruct (run_sound r _ _ _ H) as (st' & [= ->] & ?).
Qed.

Lemma scan_sound (r : regex) (s : string) :
  ∀ (start : bool) (skip : nat) (m : mstate),
    m ∈ scan r start skip s →
    ∃ start' s', match_at r start' s' = Some m.
Proof.
  induction s as [| c s IH]; intros start skip m; cbn [scan].
  - destruct skip; [| by intros ?%elem_of_nil].
    destruct (match_at r start EmptyString) as [m' |] eqn:Hm;
      [| by intros ?%elem_of_nil].
    intros ->%list_elem_of_singleton. eauto.
  - destruct skip as [| k]; [| apply IH].
    destruct (match_at r start (String c s)) as [m' |] eqn:Hm; [| apply IH].
    intros [-> | Hin]%elem_of_cons; [eauto | by apply IH in Hin].
Qed.

End matcher_sound.

(** ** The names and contents taken from a reply *)

Section segment_names.
Import Py nx pathlib re hcl TerraformEnhancer.
Import Samples.
Import Py re pathlib TerraformEnhancer.

Lemma length_append (a b : string) :
  String.length (a +:+ b) = String.length a + String.length b.
Proof. induction a as [| c a IH]; [done |]. rewrite append_cons. cbn. by rewrite IH. Qed.

Lemma take_append (a b : string) : take (String.length a) (a +:+ b) = a.
Proof. induction a as [| c a IH]; [by destruct b |]. rewrite append_cons. cbn. by rewrite IH. Qed.

Lemma between_append (a b : string) : between (a +:+ b) b = a.
Proof.
  unfold between. rewrite length_append.
  replace (String.length a + String.length b - String.length b)
    with (String.length a) by lia.
  apply take_append.
Qed.

(** The first group of a match of the [FILE:] pattern ends in [.tf]. *)
Lemma file_pattern_name (start : bool) (s : string) (m : mstate) :
  match_at FILE_PATTERN start s = Some m →
  ∃ stem, group 1 m = stem +:+ ".tf".
Proof.
  intros H%match_at_sound. unfold FILE_PATTERN in H.
  cbn [cat foldr reaches rest caps] in H.
  destruct H as (s1 & [_ C1] & s2 & (? & ? & _ & _ & C2) & s3 & G1 & s4
                 & (? & _ & _ & C4) & s5 & [_ C5] & s6 & G2 & s7
                 & [-> _] & [_ C7]).
  destruct G1 as (g1 & (a1 & (c & stem & R1 & _ & K1) & a2 & [R2 K2] & [R3 K3])
                  & _ & C3).
  destruct G2 as (g2 & (? & _ & _ & K4) & _ & C6).
  exists (String c stem).
  assert (Hname : between (rest s2) (rest g1) = String c stem +:+ ".tf").
  { rewrite R1, R2, R3.
    transitivity (between ((String c stem +:+ ".tf") +:+ rest g1) (rest g1));
      [| apply between_append].
    f_equal. by rewrite append_assoc. }
  unfold group. rewrite C7, C6, K4, C5, C4, C3, Hname. done.
Qed.

(** So does the first group of a match of the path-colon pattern. *)
Lemma path_colon_pattern_name (start : bool) (s : string) (m : mstate) :
  match_at PATH_COLON_PATTERN start s = Some m →
  ∃ stem, group 1 m = stem +:+ ".tf".
Proof.
  intros H%match_at_sound. unfold PATH_COLON_PATTERN in H.
  cbn [cat foldr reaches rest caps] in H.
  destruct H as (s1 & A1 & s2 & G1 & s3 & (? & _ & _ & C3) & s4
                 & (? & _ & _ & C4) & s5 & (? & _ & _ & C5) & s6 & [_ C6]
                 & s7 & G2 & s8 & [-> _] & [_ C8]).
  destruct G1 as (g1 & (a1 & (c & stem & R1 & _ & K1) & a2 & [R2 K2] & [R3 K3])
                  & _ & C2).
  destruct G2 as (g2 & (? & _ & _ & K7) & _ & C7).
  exists (String c stem).
  assert (Hname : between (rest s1) (rest g1) = String c stem +:+ ".tf").
  { rewrite R1, R2, R3.
    transitivity (between ((String c stem +:+ ".tf") +:+ rest g1) (rest g1));
      [| apply between_append].
    f_equal. by rewrite append_assoc. }
  unfold group. rewrite C8, C7, K7, C6, C5, C4, C3, C2, Hname. done.
Qed.

Lemma find_segments_names (cleaned : string) (segment : string * string) :
  segment ∈ find_segments cleaned → ∃ stem, fst segment = stem +:+ ".tf".
Proof.
  unfold find_segments.
  assert (Hfile : segment ∈ findall FILE_PATTERN cleaned →
                  ∃ stem, fst segment = stem +:+ ".tf").
  { unfold findall. intros (m & -> & Hm)%list_elem_of_fmap.
    apply scan_sound in Hm as (start & s' & Hm). cbn [fst].
    by eapply file_pattern_name. }
  destruct (findall FILE_PATTERN cleaned) as [| x l] eqn:Hfound; [| done].
  unfold findall. intros (m & -> & Hm)%list_elem_of_fmap.
  apply scan_sound in Hm as (start & s' & Hm). cbn [fst].
  by eapply path_colon_pattern_name.
Qed.

(** *** Stripping and the base name keep the suffix *)

Lemma rstrip_keeps (a b : string) :
  rstrip b = b → b ≠ EmptyString → rstrip (a +:+ b) = a +:+ b.
Proof.
  intros Hb Hne. induction a as [| c a IH]; [done |].
  rewrite append_cons. cbn [rstrip]. rewrite IH.
  destruct (a +:+ b) eqn:Hab; [| done].
  destruct a; [by cbn in Hab | done].
Qed.

Lemma lstrip_keeps_tf (a : string) :
  ∃ a', lstrip (a +:+ ".tf") = a' +:+ ".tf".
Proof.
  induction a as [| c a IH]; [by exists EmptyString |].
  rewrite append_cons. cbn [lstrip].
  destruct (isspace c); [done |]. by exists (String c a).
Qed.

Lemma strip_keeps_tf (a : string) : ∃ a', strip (a +:+ ".tf") = a' +:+ ".tf".
Proof.
  unfold strip. destruct (lstrip_keeps_tf a) as [a' ->]. exists a'.
  by apply rstrip_keeps.
Qed.

Lemma rstrip_cons (c : ascii) (s : string) :
  rstrip s ≠ EmptyString → rstrip (String c s) = String c (rstrip s).
Proof. intros H. cbn [rstrip]. by destruct (rstrip s). Qed.

Lemma rstrip_rstrip (s : string) : rstrip (rstrip s) = rstrip s.
Proof.
  induction s as [| c s IH]; [done |]. cbn [rstrip].
  destruct (rstrip s) as [| d r] eqn:Hr.
  - destruct (isspace c) eqn:Hc; [done |]. cbn. by rewrite Hc.
  - rewrite rstrip_cons; by rewrite IH.
Qed.

Lemma lstrip_head (c : ascii) (s : string) :
  isspace c = false → lstrip (String c s) = String c s.
Proof. intros H. cbn. by rewrite H. Qed.

Lemma lstrip_rstrip_lstrip (s : string) :
  lstrip (rstrip (lstrip s)) = rstrip (lstrip s).
Proof.
  induction s as [| c s IH]; [done |]. cbn [lstrip].
  destruct (isspace c) eqn:Hc; [done |]. cbn [rstrip].
  destruct (rstrip s); [by rewrite Hc; cbn; rewrite Hc | by apply lstrip_head].
Qed.

Lemma strip_strip (s : string) : strip (strip s) = strip s.
Proof. unfold strip. by rewrite lstrip_rstrip_lstrip, rstrip_rstrip. Qed.

Lemma split_slash_cons (c : ascii) (s : string) :
  split (String c s) "/"
  = if Ascii.eqb "/" c then EmptyString :: split s "/"
    else match split s "/" with
         | [] => [String c EmptyString]
         | w :: ws => String c w :: ws
         end.
Proof.
  unfold split. cbn [split_from]. rewrite startswith_cons.
  cbn [startswith]. rewrite andb_true_r. done.
Qed.

Lemma split_slash_nonempty (s : string) : split s "/" ≠ [].
Proof.
  destruct s as [| c s]; [done |]. rewrite split_slash_cons.
  destruct (Ascii.eqb "/" c); [done |]. by destruct (split s "/").
Qed.

Lemma contains_slash_cons (c : ascii) (s : string) :
  contains "/" (String c s) = Ascii.eqb "/" c || contains "/" s.
Proof.
  cbn [contains]. rewrite startswith_cons. cbn [startswith].
  by rewrite andb_true_r.
Qed.

Lemma split_slash_pieces (s : string) :
  ∀ piece, piece ∈ split s "/" → contains "/" piece = false.
Proof.
  induction s as [| c s IH]; intros piece.
  - by intros ->%list_elem_of_singleton.
  - rewrite split_slash_cons. destruct (Ascii.eqb "/" c) eqn:Hc.
    + intros [-> | H]%elem_of_cons; [done | by apply IH].
    + destruct (split s "/") as [| w ws] eqn:Hs.
      * intros ->%list_elem_of_singleton.
        by rewrite contains_slash_cons, Hc.
      * intros [-> | H]%elem_of_cons.
        -- rewrite contains_slash_cons, Hc. apply IH. left.
        -- apply IH. by right.
Qed.

Lemma last_in {A} (l : list A) (d : A) : l ≠ [] → List.last l d ∈ l.
Proof.
  induction l as [| x l IH]; [done |]. intros _.
  destruct l as [| y l]; [left |]. right. by apply IH.
Qed.

Lemma basename_no_slash (s : string) : contains "/" (basename s) = false.
Proof.
  apply (split_slash_pieces s), last_in, split_slash_nonempty.
Qed.

Lemma split_slash_plain (b : string) :
  contains "/" b = false → split b "/" = [b].
Proof.
  induction b as [| c b IH]; [done |]. rewrite contains_slash_cons.
  intros [Hc Hb]%orb_false_elim. rewrite split_slash_cons, Hc, (IH Hb). done.
Qed.

Lemma split_slash_app (a b : string) :
  contains "/" b = false →
  split (a +:+ b) "/"
  = removelast (split a "/") ++ [List.last (split a "/") EmptyString +:+ b].
Proof.
  intros Hb. induction a as [| c a IH]; [by apply split_slash_plain |].
  rewrite append_cons, !split_slash_cons, IH.
  pose proof (split_slash_nonempty a) as Hne.
  destruct (Ascii.eqb "/" c).
  - destruct (split a "/") as [| w ws]; [done |]. done.
  - destruct (split a "/") as [| w ws]; [done |].
    destruct ws as [| w2 ws]; done.
Qed.

Lemma last_snoc' {A} (l : list A) (x d : A) : List.last (l ++ [x]) d = x.
Proof. induction l as [| y l IH]; [done |]. cbn. rewrite IH. by destruct l. Qed.

Lemma basename_app (a b : string) :
  contains "/" b = false → basename (a +:+ b) = basename a +:+ b.
Proof.
  intros Hb. unfold basename. by rewrite split_slash_app, last_snoc'.
Qed.

(** The name under which [record_file] files a segment. *)
Lemma record_name_tf (name : string) :
  (∃ stem, name = stem +:+ ".tf") →
  let clean_filename := strip name in
  let key := if contains "/" clean_filename || contains "\" clean_filename
             then basename clean_filename else clean_filename in
  endswith key ".tf" = true ∧ contains "/" key = false.
Proof.
  intros [stem ->]. cbv zeta.
  destruct (strip_keeps_tf stem) as [stem' ->].
  assert (Htf : endswith (stem' +:+ ".tf") ".tf" = true) by by apply endswith_app.
  assert (Hbase : endswith (basename (stem' +:+ ".tf")) ".tf" = true).
  { rewrite basename_app by done. by apply endswith_app. }
  destruct (contains "/" (stem' +:+ ".tf")) eqn:Hs; cbn [orb].
  - split; [done | apply basename_no_slash].
  - destruct (contains "\" (stem' +:+ ".tf"));
      [split; [done | apply basename_no_slash] | done].
Qed.

Lemma foldl_record_file_lookup (segments : list (string * string)) :
  ∀ (files : gmap string string) (k v : string),
    foldl record_file files segments !! k = Some v →
    files !! k = Some v
    ∨ ∃ segment, segment ∈ segments
        ∧ foldl record_file ∅ [segment] !! k = Some v.
Proof.
  induction segments as [| x l IH]; intros files k v; cbn [foldl]; [by left |].
  intros [H | (segment & Hin & H)]%IH.
  - unfold record_file in H. apply lookup_insert_Some in H as [[<- <-] | [? H]].
    + right. exists x. split; [left |]. apply lookup_insert_eq.
    + by left.
  - right. exists segment. split; [by right | done].
Qed.

End segment_names.

Section extracted_files.
Import Py nx pathlib re hcl TerraformEnhancer.
Import Samples.
Import Py re pathlib TerraformEnhancer Samples.

Lemma fence_open_needs_fence (start : bool) (s : string) :
  startswith s "```" = false → match_at FENCE_OPEN start s = None.
Proof.
  intros H. unfold match_at, FENCE_OPEN. cbn [cat foldr run rest].
  rewrite startswith_strip_prefix in H. by destruct (strip_prefix "```" s).
Qed.

Lemma contains_cons_false (needle : string) (c : ascii) (s : string) :
  contains needle (String c s) = false →
  startswith (String c s) needle = false ∧ contains needle s = false.
Proof. cbn [contains]. by intros [? ?]%orb_false_elim. Qed.

Lemma sub_without_fence (s : string) :
  ∀ start, contains "```" s = false →
    sub_from FENCE_OPEN start 0 s = s ∧ sub_from FENCE start 0 s = s.
Proof.
  induction s as [| c s IH]; intros start; [done |].
  intros [Hhead Htail]%contains_cons_false.
  destruct (IH false Htail) as [IH1 IH2]. split.
  - rewrite sub_from_no_match by by apply fence_open_needs_fence.
    by rewrite IH1.
  - rewrite sub_fence_elsewhere by done. by rewrite IH2.
Qed.

(** X9.  Cleaning leaves a reply without three backquotes in a row as it
    is; cleaning a cleaned reply therefore changes nothing. *)
Theorem clean_response_idempotent :
  (∀ response : string,
     contains "```" response = false → clean_response response = response)
  ∧ (∀ response : string,
       clean_response (clean_response response) = clean_response response).
Proof.
  assert (Hid : ∀ response : string,
            contains "```" response = false →
            clean_response response = response).
  { intros response H. unfold clean_response, sub.
    destruct (sub_without_fence response true H) as [-> ?]. done. }
  split; [done |]. intros response. apply Hid.
  unfold clean_response, sub at 1.
  by apply (sub_fence_free (S (String.length (sub FENCE_OPEN response)))); lia.
Qed.

Lemma clean_response_idempotent_witness :
  clean_response "FILE: a.tf" = "FILE: a.tf".
Proof.
  destruct clean_response_idempotent as [H _]. apply H. reflexivity.
Defined.

(** X10.  Every name under which [extract_file_content] returns a content
    ends in [.tf] and has no slash, and every content is stripped. *)
Theorem extracted_names_are_bare_tf (w : world) (self : t)
    (response : string) (files : gmap string string) (k v : string) :
  fst (extract_file_content w self response) = Returns files →
  files !! k = Some v →
  endswith k ".tf" = true ∧ contains "/" k = false ∧ strip v = v.
Proof.
  unfold extract_file_content.
  set (segments := find_segments (clean_response response)).
  intros Hfiles Hk.
  assert (files = foldl record_file ∅ segments) as ->.
  { destruct (bool_decide _); [| by injection Hfiles].
    destruct (write_text _ _ _); [by injection Hfiles | done]. }
  apply foldl_record_file_lookup in Hk as [Hk | (segment & Hin & Hk)]; [done |].
  cbn [foldl] in Hk. unfold record_file in Hk.
  apply lookup_insert_Some in Hk as [[<- <-] | [_ Hk]]; [| done].
  destruct (record_name_tf (fst segment)) as [Htf Hslash].
  { by eapply find_segments_names. }
  split_and!; [done | done | apply strip_strip].
Qed.

Lemma extracted_names_are_bare_tf_witness :
  endswith "c.tf" ".tf" = true ∧ contains "/" "c.tf" = false
  ∧ strip "output {}" = "output {}".
Proof.
  apply (extracted_names_are_bare_tf work_with_output on_repo fenced_reply
           (default ∅ match fst (extract_file_content work_with_output on_repo
                                    fenced_reply) with
                      | Returns files => Some files
                      | _ => None
                      end)).
  - vm_compute. reflexivity.
  - vm_compute. reflexivity.
Defined.

End extracted_files.

(** * The fences of a reply, wherever they stand *)

Section fences_anywhere.
Import Py nx pathlib re hcl TerraformEnhancer.
Import Samples.

Lemma contains_char_cons (c d : ascii) (s : string) :
  contains (String c EmptyString) (String d s)
  = Ascii.eqb c d || contains (String c EmptyString) s.
Proof.
  cbn [contains]. rewrite startswith_cons. cbn [startswith].
  by rewrite andb_true_r.
Qed.

(** Neither pattern looks at the start of the subject. *)
Lemma fence_open_any_start (s : string) :
  match_at FENCE_OPEN true s = match_at FENCE_OPEN false s.
Proof.
  unfold match_at, FENCE_OPEN. cbn [cat foldr run rest].
  by destruct (strip_prefix "```" s).
Qed.

Lemma fence_any_start (s : string) :
  match_at FENCE true s = match_at FENCE false s.
Proof.
  unfold match_at, FENCE. cbn [run rest].
  by destruct (strip_prefix "```" s).
Qed.

Lemma sub_from_any_start (r : regex) (skip : nat) (s : string) :
  (∀ s', match_at r true s' = match_at r false s') →
  sub_from r true skip s = sub_from r false skip s.
Proof.
  intros Hr. destruct s as [| c s]; [done |]. cbn [sub_from].
  by rewrite Hr.
Qed.

Lemma clean_response_any_start (s : string) :
  clean_response s
  = sub_from FENCE false 0 (sub_from FENCE_OPEN false 0 s).
Proof.
  unfold clean_response, sub.
  rewrite (sub_from_any_start FENCE_OPEN) by apply fence_open_any_start.
  by rewrite (sub_from_any_start FENCE) by apply fence_any_start.
Qed.

(** Taking the opening fences out of what follows brings no fence token
    to a position that had none. *)
Lemma sub_fence_open_head (c : ascii) (s : string) :
  startswith (String c s) "```" = false →
  startswith (String c (sub_from FENCE_OPEN false 0 s)) "```" = false.
Proof.
  rewrite !startswith_cons.
  destruct (Ascii.eqb "`" c) eqn:Hc; [| done]. rewrite !andb_true_l.
  destruct s as [| d s]; [done |]. rewrite startswith_cons.
  destruct (Ascii.eqb "`" d) eqn:Hd.
  - rewrite andb_true_l. intros Hs.
    rewrite (sub_from_no_match FENCE_OPEN).
    2:{ apply fence_open_needs_fence. rewrite startswith_cons, Hd.
        destruct s as [| e s]; [done |].
        rewrite startswith_cons in Hs |- *. cbn [startswith] in Hs.
        rewrite andb_true_r in Hs. by rewrite Hs. }
    rewrite startswith_cons, Hd, andb_true_l.
    destruct s as [| e s]; [done |].
    rewrite startswith_cons in Hs. cbn [startswith] in Hs.
    rewrite andb_true_r in Hs.
    rewrite (sub_from_no_match FENCE_OPEN)
      by by apply fence_open_needs_backquote.
    rewrite startswith_cons. by rewrite Hs.
  - intros _.
    rewrite (sub_from_no_match FENCE_OPEN)
      by by apply fence_open_needs_backquote.
    rewrite startswith_cons. by rewrite Hd.
Qed.

(** A character that opens no fence token is passed on as it is. *)
Lemma clean_response_step (c : ascii) (s : string) :
  startswith (String c s) "```" = false →
  clean_response (String c s) = String c (clean_response s).
Proof.
  intros Hc. rewrite !clean_response_any_start.
  rewrite (sub_from_no_match FENCE_OPEN) by by apply fence_open_needs_fence.
  rewrite sub_fence_elsewhere; [done |]. by apply sub_fence_open_head.
Qed.

Lemma clean_response_cons (c : ascii) (s : string) :
  Ascii.eqb "`" c = false →
  clean_response (String c s) = String c (clean_response s).
Proof.
  intros Hc. apply clean_response_step.
  rewrite startswith_cons. by rewrite Hc.
Qed.

Lemma clean_response_plain_prefix (a s : string) :
  contains "`" a = false →
  clean_response (a +:+ s) = a +:+ clean_response s.
Proof.
  induction a as [| c a IH]; intros Hfree; [done |].
  apply contains_backquote_cons in Hfree as [Hc Hfree].
  rewrite !append_cons, clean_response_cons by done. by rewrite IH.
Qed.

Lemma clean_response_plain (a : string) :
  contains "`" a = false → clean_response a = a.
Proof.
  intros Hfree. rewrite <- (append_nil_r a) at 1.
  rewrite clean_response_plain_prefix by done.
  change (clean_response EmptyString) with EmptyString.
  apply append_nil_r.
Qed.

(** The opening fence with a known tag and its newline goes as a whole. *)
Lemma clean_response_known_tag (tag rest : string) :
  tag ∈ known_tags →
  clean_response ("```" +:+ tag +:+ nl +:+ rest) = clean_response rest.
Proof.
  intros Htag. rewrite (clean_response_any_start rest).
  unfold clean_response. rewrite sub_fence_open_tag by done.
  unfold sub. apply sub_from_any_start, fence_any_start.
Qed.

(** What the pattern of the opening fence matches. *)
Lemma fence_open_match_inv (start : bool) (s : string) (m : mstate) :
  match_at FENCE_OPEN start s = Some m →
  ∃ tag rest, tag ∈ known_tags ∧ s = "```" +:+ tag +:+ nl +:+ rest.
Proof.
  intros H%match_at_sound. unfold FENCE_OPEN in H.
  cbn [cat foldr reaches rest] in H.
  destruct H as (m1 & [H1 _] & m2 & Htag & m3 & [H3 _] & H4).
  cbn [rest] in H1. destruct H4 as [H4 _].
  change (EmptyString +:+ rest m) with (rest m) in H4.
  unfold known_tags.
  destruct Htag as [[[Ht _] | [[Ht _] | [Ht _]]] | ->].
  - exists "terraform", (rest m3). split; [set_solver |].
    by rewrite H1, Ht, H3.
  - exists "hcl", (rest m3). split; [set_solver |]. by rewrite H1, Ht, H3.
  - exists "tf", (rest m3). split; [set_solver |]. by rewrite H1, Ht, H3.
  - exists EmptyString, (rest m3). split; [set_solver |]. by rewrite H1, H3.
Qed.

(** Three backquotes that open no fence of the known form go alone. *)
Lemma clean_response_bare_fence (x : string) :
  startswith x "`" = false →
  (∀ tag rest, tag ∈ known_tags → x ≠ tag +:+ nl +:+ rest) →
  clean_response ("```" +:+ x) = clean_response x.
Proof.
  intros Hx Hform. rewrite !clean_response_any_start.
  change ("```" +:+ x) with (fenced x). unfold fenced.
  rewrite (sub_from_no_match FENCE_OPEN).
  2:{ destruct (match_at _ _ _) as [m |] eqn:Hm; [| done].
      apply fence_open_match_inv in Hm as (tag & rest & Htag & Heq).
      exfalso. apply (Hform tag rest Htag).
      change ("```" +:+ tag +:+ nl +:+ rest)
        with (fenced (tag +:+ nl +:+ rest)) in Heq.
      unfold fenced in Heq. by injection Heq. }
  rewrite (sub_from_no_match FENCE_OPEN).
  2:{ apply fence_open_needs_fence. rewrite !startswith_cons.
      cbn [Ascii.eqb Bool.eqb andb]. exact Hx. }
  rewrite (sub_from_no_match FENCE_OPEN).
  2:{ apply fence_open_needs_fence. rewrite !startswith_cons.
      destruct x as [| c x]; [done |].
      rewrite startswith_cons in Hx. cbn [startswith] in Hx.
      rewrite andb_true_r in Hx. rewrite startswith_cons, Hx.
      by rewrite !andb_false_r. }
  exact (sub_fence_at_fence false _).
Qed.

Lemma known_tags_one_line (tag : string) :
  tag ∈ known_tags → contains nl tag = false.
Proof.
  unfold known_tags. rewrite !elem_of_cons, elem_of_nil.
  by intros [-> | [-> | [-> | [-> | []]]]].
Qed.

(** The text before the first newline is determined. *)
Lemma first_line_unique (a b r r' : string) :
  contains nl a = false → contains nl b = false →
  a +:+ nl +:+ r = b +:+ nl +:+ r' → a = b.
Proof.
  revert b. induction a as [| c a IH]; intros [| d b] Ha Hb Heq; [done | | |].
  - exfalso. unfold nl in Hb. rewrite contains_char_cons in Hb.
    apply orb_false_elim in Hb as [Hd _]. injection Heq as Hc _.
    rewrite <- Hc in Hd. by rewrite Ascii.eqb_refl in Hd.
  - exfalso. unfold nl in Ha. rewrite contains_char_cons in Ha.
    apply orb_false_elim in Ha as [Hc _]. injection Heq as Hd _.
    rewrite Hd in Hc. by rewrite Ascii.eqb_refl in Hc.
  - unfold nl in Ha, Hb. rewrite contains_char_cons in Ha, Hb.
    apply orb_false_elim in Ha as [_ Ha].
    apply orb_false_elim in Hb as [_ Hb].
    rewrite !append_cons in Heq. injection Heq as -> Heq.
    f_equal. by apply (IH b).
Qed.

(** Of a fence with another tag only the backquotes go. *)
Lemma clean_response_other_tag (tag rest : string) :
  tag ∉ known_tags → contains "`" tag = false → contains nl tag = false →
  clean_response ("```" +:+ tag +:+ nl +:+ rest)
  = tag +:+ nl +:+ clean_response rest.
Proof.
  intros Htag Hfree Hline. rewrite clean_response_bare_fence.
  - rewrite clean_response_plain_prefix by done.
    change (nl +:+ rest) with (String LF rest).
    by rewrite (clean_response_cons LF rest).
  - destruct tag as [| c tag]; [exfalso; apply Htag; set_solver |].
    apply contains_backquote_cons in Hfree as [Hc _].
    rewrite append_cons, startswith_cons. by rewrite Hc.
  - intros tag' rest' Htag' Heq. apply Htag.
    rewrite (first_line_unique tag tag' rest rest'); [done | done | | done].
    by apply known_tags_one_line.
Qed.

(** A block with a known tag, wherever it stands in the reply. *)
Lemma clean_response_block (before tag body after : string) :
  tag ∈ known_tags →
  contains "`" before = false → contains "`" body = false →
  clean_response
    (before +:+ "```" +:+ tag +:+ nl +:+ body +:+ "```" +:+ after)
  = before +:+ body +:+ clean_response ("```" +:+ after).
Proof.
  intros Htag Hbefore Hbody.
  rewrite clean_response_plain_prefix by done.
  rewrite clean_response_known_tag by done.
  by rewrite clean_response_plain_prefix by done.
Qed.

(** C6, as the code has it.  Whatever the reply, no fence token is left
    in the text handed to the marker grammars.  The cleaning is the same
    at every position of the reply: a character that does not open three
    backquotes is passed on; an opening fence whose tag is [terraform],
    [hcl], [tf] or absent and is directly followed by a newline goes
    together with the tag and the newline; of a fence with any other tag on its line
    only the three backquotes go and the tag and its newline stay; three
    backquotes not followed by a known tag and a newline go alone.  So a
    block fenced with a known tag, with no backquote in it or before it,
    is reduced to its content wherever it stands in the reply, and a
    reply that is one such block to its inner content. *)
Theorem clean_response_strips_fences :
  (∀ response : string, contains "```" (clean_response response) = false)
  ∧ (∀ (c : ascii) (s : string), startswith (String c s) "```" = false →
       clean_response (String c s) = String c (clean_response s))
  ∧ (∀ tag rest : string, tag ∈ known_tags →
       clean_response ("```" +:+ tag +:+ nl +:+ rest) = clean_response rest)
  ∧ (∀ tag rest : string,
       tag ∉ known_tags → contains "`" tag = false →
       contains nl tag = false →
       clean_response ("```" +:+ tag +:+ nl +:+ rest)
       = tag +:+ nl +:+ clean_response rest)
  ∧ (∀ x : string,
       startswith x "`" = false →
       (∀ tag rest, tag ∈ known_tags → x ≠ tag +:+ nl +:+ rest) →
       clean_response ("```" +:+ x) = clean_response x)
  ∧ (∀ before tag body after : string,
       tag ∈ known_tags →
       contains "`" before = false → contains "`" body = false →
       clean_response
         (before +:+ "```" +:+ tag +:+ nl +:+ body +:+ "```" +:+ after)
       = before +:+ body +:+ clean_response ("```" +:+ after))
  ∧ (∀ tag body : string,
       tag ∈ known_tags → contains "`" body = false →
       clean_response ("```" +:+ tag +:+ nl +:+ body +:+ "```") = body).
Proof.
  split_and!.
  - intros response. unfold clean_response, sub.
    apply (sub_fence_free
             (S (String.length (sub_from FENCE_OPEN true 0 response)))).
    lia.
  - apply clean_response_step.
  - apply clean_response_known_tag.
  - apply clean_response_other_tag.
  - apply clean_response_bare_fence.
  - apply clean_response_block.
  - apply clean_fenced_block.
Qed.

Lemma clean_response_strips_fences_witness :
  clean_response
    (("FILE: a.tf" +:+ nl) +:+ "```" +:+ "hcl" +:+ nl
     +:+ ("resource {}" +:+ nl) +:+ "```"
     +:+ (nl +:+ "FILE: b.tf" +:+ nl +:+ "output {}"))
  = ("FILE: a.tf" +:+ nl) +:+ ("resource {}" +:+ nl)
    +:+ clean_response ("```" +:+ nl +:+ "FILE: b.tf" +:+ nl +:+ "output {}")
  ∧ clean_response ("```" +:+ "json" +:+ nl +:+ "FILE: a.tf")
    = "json" +:+ nl +:+ clean_response "FILE: a.tf"
  ∧ clean_response ("```" +:+ "hcl resource")
    = clean_response "hcl resource"
  ∧ clean_response ("```" +:+ "hcl" +:+ nl +:+ "resource {}" +:+ "```")
    = "resource {}".
Proof.
  pose proof clean_response_strips_fences
    as (_ & _ & _ & Hother & Hbare & Hblock & Hone).
  assert (Hhcl : "hcl" ∈ known_tags)
    by (unfold known_tags; apply list_elem_of_further, list_elem_of_here).
  split_and!.
  - apply (Hblock ("FILE: a.tf" +:+ nl) "hcl" ("resource {}" +:+ nl)
             (nl +:+ "FILE: b.tf" +:+ nl +:+ "output {}"));
      [exact Hhcl | reflexivity | reflexivity].
  - apply (Hother "json" "FILE: a.tf"); [| reflexivity | reflexivity].
    unfold known_tags. rewrite !elem_of_cons, elem_of_nil.
    intros [H | [H | [H | [H | []]]]]; discriminate H.
  - apply (Hbare "hcl resource"); [reflexivity |].
    intros tag rest. unfold known_tags.
    rewrite !elem_of_cons, elem_of_nil.
    intros [-> | [-> | [-> | [-> | []]]]]; discriminate.
  - apply (Hone "hcl" "resource {}"); [exact Hhcl | reflexivity].
Defined.

End fences_anywhere.

(** ** Making directories and writing files *)

Section directories.
Import Py nx pathlib re hcl TerraformEnhancer.
Import Samples.
Import Py pathlib.

Lemma trace_walk (r : fsnode) (ps : list string) :
  ∀ cur loc, trace r cur ps = inl loc ↔ walk r cur ps = Some loc.
Proof.
  induction ps as [| p ps IH]; intros cur loc; cbn [trace walk].
  - split; congruence.
  - destruct (lookup_node r cur) as [[? | es] |]; cbn [is_dir_node];
      [done | apply IH | done].
Qed.

Lemma lookup_node_app (n : fsnode) (l l' : list string) :
  lookup_node n (l ++ l')
  = match lookup_node n l with Some m => lookup_node m l' | None => None end.
Proof.
  revert n. induction l as [| p l IH]; intros n; [done |].
  cbn [app lookup_node]. destruct n as [? | es]; [done |].
  destruct (assoc p es); [apply IH | done].
Qed.

Lemma lookup_node_parent (n : fsnode) (l : list string) (x : string) :
  is_Some (lookup_node n (l ++ [x])) → is_dir_node (lookup_node n l) = true.
Proof.
  rewrite lookup_node_app. destruct (lookup_node n l) as [[? | es] |]; cbn;
    [by intros [? ?] | done | by intros [? ?]].
Qed.

Lemma walk_more_dirs (r r' : fsnode) (ps : list string) :
  (∀ q, is_dir_node (lookup_node r q) = true →
        is_dir_node (lookup_node r' q) = true) →
  ∀ cur loc, walk r cur ps = Some loc → walk r' cur ps = Some loc.
Proof.
  intros Hdirs. induction ps as [| p ps IH]; intros cur loc; [done |].
  cbn [walk]. destruct (is_dir_node (lookup_node r cur)) eqn:Hd; [| done].
  rewrite (Hdirs _ Hd). apply IH.
Qed.

Lemma keeps_kinds_refl (r : fsnode) : keeps_kinds r r.
Proof. by split. Qed.

Lemma keeps_kinds_trans (r1 r2 r3 : fsnode) :
  keeps_kinds r1 r2 → keeps_kinds r2 r3 → keeps_kinds r1 r3.
Proof. intros [? ?] [? ?]. split; eauto. Qed.

(** *** [mkdir] *)

Lemma mkdir_node_exists (ps : list string) :
  ∀ n, is_Some (lookup_node n ps) → mkdir_node ps n = inr EEXIST.
Proof.
  induction ps as [| p ps IH]; intros n; [by destruct n |].
  cbn [lookup_node]. destruct n as [? | es]; [by intros [? ?] |].
  cbn [mkdir_node]. destruct (assoc p es) as [c |]; [| by intros [? ?]].
  intros H. by rewrite (IH c H).
Qed.

Lemma mkdir_node_made (ps : list string) :
  ∀ n n', mkdir_node ps n = inl n' →
    lookup_node n' ps = Some (Dir [])
    ∧ lookup_node n ps = None
    ∧ keeps_kinds n n'
    ∧ (∀ q x, lookup_node n q = Some (File x) →
              lookup_node n' q = Some (File x)).
Proof.
  induction ps as [| p ps IH]; intros n n'; [by destruct n |].
  destruct n as [? | es]; [done |]. cbn [mkdir_node lookup_node].
  destruct (assoc p es) as [c |] eqn:Hp.
  - destruct (mkdir_node ps c) as [c' | e] eqn:Hc; [| done].
    intros [= <-]. destruct (IH c c' Hc) as (Hnew & Hold & [Hd Hf] & Hx).
    cbn [lookup_node]. rewrite assoc_update_eq. split_and!; [done | done | |].
    + split; intros [| k q]; try done; cbn [lookup_node];
        (destruct (String.eqb_spec k p) as [-> | Hk];
         [rewrite assoc_update_eq, Hp; auto | by rewrite assoc_update_ne]).
    + intros [| k q] x; [done |]. cbn [lookup_node].
      destruct (String.eqb_spec k p) as [-> | Hk];
        [rewrite assoc_update_eq, Hp; auto | by rewrite assoc_update_ne].
  - destruct ps as [| p2 ps]; [| done]. intros [= <-].
    cbn [lookup_node]. rewrite assoc_update_eq. split_and!; [done | done | |].
    + split; intros [| k q]; try done; cbn [lookup_node];
        (destruct (String.eqb_spec k p) as [-> | Hk];
         [by rewrite Hp | by rewrite assoc_update_ne]).
    + intros [| k q] x; [done |]. cbn [lookup_node].
      destruct (String.eqb_spec k p) as [-> | Hk];
        [by rewrite Hp | by rewrite assoc_update_ne].
Qed.

Lemma last_parts (ps : list string) :
  ps ≠ [] → ps = removelast ps ++ [List.last ps EmptyString].
Proof. intros H. by apply app_removelast_last. Qed.

Lemma stat_more_dirs (w w' : world) (p : Path) (loc : list string) :
  cwd w' = cwd w →
  (∀ q, is_dir_node (lookup_node (root w) q) = true →
        is_dir_node (lookup_node (root w') q) = true) →
  locate w p = Some loc → locate w' p = Some loc.
Proof.
  unfold locate. intros -> Hdirs. by apply walk_more_dirs.
Qed.

(** What a successful [os.mkdir] leaves. *)
Lemma os_mkdir_made (w w' : world) (p : Path) :
  os_mkdir w p = inl w' →
  is_dir w' p = true ∧ exists_ w p = false ∧ cwd w' = cwd w
  ∧ keeps_kinds (root w) (root w')
  ∧ (∀ q x, lookup_node (root w) q = Some (File x) →
            lookup_node (root w') q = Some (File x)).
Proof.
  unfold os_mkdir. destruct (parts p) as [| p0 ps0] eqn:Hparts; [done |].
  rewrite <- Hparts.
  assert (Hne : parts p ≠ []) by by rewrite Hparts.
  set (name := List.last (parts p) EmptyString).
  destruct (trace _ _ _) as [dir | e] eqn:Htrace; [| done].
  apply trace_walk in Htrace.
  destruct (String.eqb_spec name "..") as [Hname | Hname].
  { by destruct (lookup_node (root w) dir) as [[? | ?] |]. }
  destruct (mkdir_node _ _) as [r |] eqn:Hmk; [| done]. intros [= <-].
  destruct (mkdir_node_made _ _ _ Hmk) as (Hnew & Hold & [Hd Hf] & Hx).
  assert (Hdir : is_dir_node (lookup_node r dir) = true).
  { apply (lookup_node_parent r dir name). by rewrite Hnew. }
  assert (Hwalk : ∀ r0, is_dir_node (lookup_node r0 dir) = true →
            walk r0 (if absolute p then [] else cwd w)
                 (removelast (parts p)) = Some dir →
            walk r0 (if absolute p then [] else cwd w) (parts p)
            = Some (dir ++ [name])).
  { intros r0 Hd0 Hw0. rewrite (last_parts (parts p) Hne) at 1.
    rewrite walk_app, Hw0. cbn [walk]. rewrite Hd0.
    fold name. by rewrite (proj2 (String.eqb_neq name "..")). }
  split_and!; [| | done | done | done].
  - unfold is_dir, stat, locate. cbn [root cwd].
    rewrite (Hwalk r Hdir), Hnew; [done |].
    by apply (walk_more_dirs (root w)).
  - unfold exists_, stat, locate.
    destruct (is_dir_node (lookup_node (root w) dir)) eqn:Hd0.
    + by rewrite (Hwalk (root w) Hd0 Htrace), Hold.
    + rewrite (last_parts (parts p) Hne), walk_app.
      unfold parent in Htrace. cbn [parts] in Htrace. rewrite Htrace.
      cbn [walk]. by rewrite Hd0.
Qed.

(** [os.mkdir] on what is a directory already. *)
Lemma os_mkdir_exists (w : world) (p : Path) :
  exists_ w p = true → os_mkdir w p = inr EEXIST.
Proof.
  unfold exists_, stat, locate, os_mkdir.
  destruct (parts p) as [| p0 ps0] eqn:Hparts; [done |].
  rewrite <- Hparts.
  assert (Hne : parts p ≠ []) by by rewrite Hparts.
  set (name := List.last (parts p) EmptyString).
  rewrite (last_parts (parts p) Hne) at 1. fold name.
  rewrite walk_app. unfold parent. cbn [parts].
  destruct (walk _ _ (removelast _)) as [dir |] eqn:Hwalk; [| done].
  apply trace_walk in Hwalk. rewrite Hwalk. cbn [walk].
  destruct (lookup_node (root w) dir) as [[? | es] |] eqn:Hdir;
    cbn [is_dir_node]; [done | | done].
  destruct (String.eqb name ".."); [done |].
  destruct (lookup_node (root w) (dir ++ [name])) eqn:Hl; [| done].
  intros _. by rewrite mkdir_node_exists by by rewrite Hl.
Qed.

Lemma path_eta (p : Path) :
  {| absolute := absolute p; parts := rev (rev (parts p)) |} = p.
Proof. rewrite rev_involutive. by destruct p. Qed.

Lemma is_dir_exists (w : world) (p : Path) :
  is_dir w p = true → exists_ w p = true.
Proof. unfold is_dir, exists_. by destruct (stat w p). Qed.

Lemma is_file_exists (w : world) (p : Path) :
  is_file w p = true → exists_ w p = true.
Proof. unfold is_file, exists_. by destruct (stat w p). Qed.

Lemma is_file_not_dir (w : world) (p : Path) :
  is_file w p = true → is_dir w p = false.
Proof. unfold is_file, is_dir. by destruct (stat w p) as [[? | ?] |]. Qed.

(** [mkdir] on a directory changes nothing. *)
Lemma mkdir_existing (w : world) (p : Path) :
  is_dir w p = true → mkdir w p = (w, None).
Proof.
  intros Hdir. unfold mkdir.
  pose proof (os_mkdir_exists w p (is_dir_exists w p Hdir)) as Hos.
  rewrite <- (path_eta p) in Hos, Hdir.
  destruct (rev (parts p)) as [| x l]; cbn [mkdir_from]; by rewrite Hos, Hdir.
Qed.

(** [mkdir] on what exists and is no directory raises. *)
Lemma mkdir_in_the_way (w : world) (p : Path) :
  exists_ w p = true → is_dir w p = false → mkdir w p = (w, Some EEXIST).
Proof.
  intros Hex Hdir. unfold mkdir.
  pose proof (os_mkdir_exists w p Hex) as Hos.
  rewrite <- (path_eta p) in Hos, Hdir.
  destruct (rev (parts p)) as [| x l]; cbn [mkdir_from]; by rewrite Hos, Hdir.
Qed.

(** What [mkdir] leaves, however it ends. *)
Lemma mkdir_from_made (anchored : bool) (rparts : list string) :
  ∀ w w' e, mkdir_from w anchored rparts = (w', e) →
    cwd w' = cwd w
    ∧ keeps_kinds (root w) (root w')
    ∧ (∀ q x, lookup_node (root w) q = Some (File x) →
              lookup_node (root w') q = Some (File x))
    ∧ (e = None →
       is_dir w' {| absolute := anchored; parts := rev rparts |} = true).
Proof.
  assert (Hsame : ∀ (w : world) self (e : option errno),
            (e = None → is_dir w self = true) →
            cwd w = cwd w ∧ keeps_kinds (root w) (root w)
            ∧ (∀ q x, lookup_node (root w) q = Some (File x) →
                      lookup_node (root w) q = Some (File x))
            ∧ (e = None → is_dir w self = true)).
  { intros w self e H. split; [done |]. split; [apply keeps_kinds_refl |].
    by split. }
  assert (Hhere : ∀ (w w' : world) self (e : option errno) (err' : errno),
            (if is_dir w self then (w, None) else (w, Some err')) = (w', e) →
            cwd w' = cwd w ∧ keeps_kinds (root w) (root w')
            ∧ (∀ q x, lookup_node (root w) q = Some (File x) →
                      lookup_node (root w') q = Some (File x))
            ∧ (e = None → is_dir w' self = true)).
  { intros w w' self e err'.
    destruct (is_dir w self) eqn:Hd; intros [= <- <-]; by apply Hsame. }
  assert (Hmade : ∀ (w w' : world) self,
            os_mkdir w self = inl w' →
            cwd w' = cwd w ∧ keeps_kinds (root w) (root w')
            ∧ (∀ q x, lookup_node (root w) q = Some (File x) →
                      lookup_node (root w') q = Some (File x))
            ∧ (@None errno = None → is_dir w' self = true)).
  { intros w w' self Hos.
    destruct (os_mkdir_made _ _ _ Hos) as (? & ? & ? & ? & ?). done. }
  induction rparts as [| x rparent IH]; intros w w' e.
  - cbn [mkdir_from].
    destruct (os_mkdir w _) as [w1 | err] eqn:Hos.
    + intros [= <- <-]. by apply Hmade.
    + destruct err; [intros [= <- <-]; by apply Hsame | apply Hhere ..].
  - cbn [mkdir_from].
    set (self := {| absolute := anchored; parts := rev (x :: rparent) |}).
    destruct (os_mkdir w self) as [w1 | err] eqn:Hos.
    + intros [= <- <-]. by apply Hmade.
    + destruct err; [| apply Hhere ..].
      destruct (mkdir_from w anchored rparent) as [w1 [e1 |]] eqn:Hrec.
      * intros [= <- <-]. destruct (IH _ _ _ Hrec) as (? & ? & ? & _). done.
      * destruct (IH _ _ _ Hrec) as (Hc1 & Hk1 & Hf1 & _).
        assert (Hthen : ∀ (w' : world) (e' : option errno),
                  cwd w' = cwd w1 ∧ keeps_kinds (root w1) (root w')
                  ∧ (∀ q x, lookup_node (root w1) q = Some (File x) →
                            lookup_node (root w') q = Some (File x))
                  ∧ (e' = None → is_dir w' self = true) →
                  cwd w' = cwd w ∧ keeps_kinds (root w) (root w')
                  ∧ (∀ q x, lookup_node (root w) q = Some (File x) →
                            lookup_node (root w') q = Some (File x))
                  ∧ (e' = None → is_dir w' self = true)).
        { intros w0 e' (Hc2 & Hk2 & Hf2 & Hd2).
          split; [congruence |]. split; [by eapply keeps_kinds_trans |].
          split; [auto | done]. }
        destruct (os_mkdir w1 self) as [w2 | err2] eqn:Hos2.
        -- intros [= <- <-]. by apply Hthen, Hmade.
        -- destruct err2.
           ++ intros [= <- <-]. by apply Hthen, Hsame.
           ++ intros H. by apply Hthen, (Hhere _ _ _ _ _ H).
           ++ intros H. by apply Hthen, (Hhere _ _ _ _ _ H).
Qed.

(** *** Writing *)

Lemma write_node_written (text : string) (ps : list string) :
  ∀ n n', write_node ps text n = Some n' →
    lookup_node n' ps = Some (File (Some text))
    ∧ (∀ q, is_dir_node (lookup_node n' q) = is_dir_node (lookup_node n q))
    ∧ (∀ q, is_file_node (lookup_node n q) = true →
            is_file_node (lookup_node n' q) = true)
    ∧ (∀ q x, q ≠ ps → lookup_node n q = Some (File x) →
              lookup_node n' q = Some (File x)).
Proof.
  induction ps as [| p ps IH]; intros n n'.
  - destruct n as [? | es]; [| done]. intros [= <-]. split_and!; [done | | |].
    + by intros [| ? ?].
    + by intros [| ? ?].
    + by intros [| ? ?] x.
  - destruct n as [? | es]; [done |]. cbn [write_node].
    destruct (assoc p es) as [c |] eqn:Hp.
    + destruct (write_node ps text c) as [c' |] eqn:Hc; [| done].
      intros [= <-]. destruct (IH c c' Hc) as (Hnew & Hd & Hf & Hx).
      cbn [lookup_node]. rewrite assoc_update_eq. split_and!; [done | | |].
      * intros [| k q]; [done |]. cbn [lookup_node].
        destruct (String.eqb_spec k p) as [-> | Hk];
          [rewrite assoc_update_eq, Hp; auto | by rewrite assoc_update_ne].
      * intros [| k q]; [done |]. cbn [lookup_node].
        destruct (String.eqb_spec k p) as [-> | Hk];
          [rewrite assoc_update_eq, Hp; auto | by rewrite assoc_update_ne].
      * intros [| k q] x Hne; [done |]. cbn [lookup_node].
        destruct (String.eqb_spec k p) as [-> | Hk];
          [| by rewrite assoc_update_ne].
        rewrite assoc_update_eq, Hp. apply Hx. congruence.
    + destruct ps as [| p2 ps]; [| done]. intros [= <-].
      cbn [lookup_node]. rewrite assoc_update_eq. split_and!; [done | | |].
      * intros [| k q]; [done |]. cbn [lookup_node].
        destruct (String.eqb_spec k p) as [-> | Hk];
          [rewrite assoc_update_eq, Hp; by destruct q
          | by rewrite assoc_update_ne].
      * intros [| k q]; [done |]. cbn [lookup_node].
        destruct (String.eqb_spec k p) as [-> | Hk];
          [by rewrite Hp | by rewrite assoc_update_ne].
      * intros [| k q] x Hne; [done |]. cbn [lookup_node].
        destruct (String.eqb_spec k p) as [-> | Hk];
          [by rewrite Hp | by rewrite assoc_update_ne].
Qed.

(** What a successful write leaves. *)
Lemma write_text_written (w w' : world) (p : Path) (text : string) :
  write_text w p text = Some w' →
  cwd w' = cwd w
  ∧ (∀ q, is_dir_node (lookup_node (root w') q)
          = is_dir_node (lookup_node (root w) q))
  ∧ (∀ q, is_file_node (lookup_node (root w) q) = true →
          is_file_node (lookup_node (root w') q) = true)
  ∧ ∃ loc, locate w' p = Some loc
           ∧ lookup_node (root w') loc = Some (File (Some text))
           ∧ ∀ q x, q ≠ loc → lookup_node (root w) q = Some (File x) →
                    lookup_node (root w') q = Some (File x).
Proof.
  unfold write_text.
  destruct (locate w (parent p)) as [dir |] eqn:Hloc; [| done].
  destruct (parts p) as [| p0 ps0] eqn:Hparts; [done |].
  rewrite <- Hparts.
  assert (Hne : parts p ≠ []) by by rewrite Hparts.
  set (name := List.last (parts p) EmptyString).
  destruct (String.eqb_spec name "..") as [| Hname]; [done |].
  destruct (is_dir_node (lookup_node (root w) dir)) eqn:Hdir; [| done].
  destruct (write_node _ _ _) as [r |] eqn:Hw; [| done]. intros [= <-].
  destruct (write_node_written _ _ _ _ Hw) as (Hnew & Hd & Hf & Hx).
  cbn [root cwd]. split_and!; [done | done | done |].
  exists (dir ++ [name]). split_and!; [| done | done].
  unfold locate in *. cbn [root cwd].
  rewrite (walk_same_dirs (root w) r) by done.
  rewrite (last_parts (parts p) Hne), walk_app.
  unfold parent in Hloc. cbn [parts absolute] in Hloc. rewrite Hloc.
  cbn [walk]. rewrite Hdir. fold name.
  by rewrite (proj2 (String.eqb_neq name "..")).
Qed.

Lemma is_dir_same (w w' : world) (p : Path) :
  cwd w' = cwd w →
  (∀ q, is_dir_node (lookup_node (root w') q)
        = is_dir_node (lookup_node (root w) q)) →
  is_dir w' p = is_dir w p.
Proof.
  intros Hc Hd. unfold is_dir, stat, locate.
  rewrite Hc, (walk_same_dirs (root w) (root w')) by done.
  destruct (walk _ _ _); [apply Hd | done].
Qed.

Lemma is_file_kept (w w' : world) (p : Path) :
  cwd w' = cwd w → keeps_kinds (root w) (root w') →
  is_file w p = true → is_file w' p = true.
Proof.
  intros Hc [Hd Hf]. unfold is_file, stat, locate. rewrite Hc.
  destruct (walk (root w) _ _) as [loc |] eqn:Hwalk; [| done].
  rewrite (walk_more_dirs _ _ _ Hd _ _ Hwalk). apply (Hf loc).
Qed.

Lemma is_dir_kept (w w' : world) (p : Path) :
  cwd w' = cwd w → keeps_kinds (root w) (root w') →
  is_dir w p = true → is_dir w' p = true.
Proof.
  intros Hc [Hd Hf]. unfold is_dir, stat, locate. rewrite Hc.
  destruct (walk (root w) _ _) as [loc |] eqn:Hwalk; [| done].
  rewrite (walk_more_dirs _ _ _ Hd _ _ Hwalk). apply (Hd loc).
Qed.

Lemma write_text_keeps_kinds (w w' : world) (p : Path) (text : string) :
  write_text w p text = Some w' →
  cwd w' = cwd w ∧ keeps_kinds (root w) (root w') ∧ is_file w' p = true.
Proof.
  intros (Hc & Hd & Hf & loc & Hloc & Hnew & _)%write_text_written.
  split_and!; [done | |].
  - split; [| done]. intros q. by rewrite Hd.
  - unfold is_file, stat. by rewrite Hloc, Hnew.
Qed.

End directories.

(** ** Saving the extracted files *)

Section saving.
Import Py nx pathlib re hcl TerraformEnhancer.
Import Samples.
Import Py pathlib TerraformEnhancer.

Lemma contains_slash_startswith (k : string) :
  contains "/" k = false → startswith k "/" = false.
Proof. destruct k as [| c k]; [done |]. by intros [? ?]%contains_cons_false. Qed.

Lemma joinpath_bare (out : Path) (k : string) :
  bare k = true → joinpath out k = child out k.
Proof.
  unfold bare. intros [[Hslash Hkeep]%andb_prop _]%andb_prop.
  apply negb_true_iff in Hslash.
  unfold joinpath, Path_of, child. cbn [absolute parts].
  rewrite (contains_slash_startswith k Hslash), (split_slash_plain k Hslash).
  cbn [List.filter]. by rewrite Hkeep.
Qed.

Lemma bare_not_dotdot (k : string) : bare k = true → k ≠ "..".
Proof.
  unfold bare. intros [_ H%negb_true_iff]%andb_prop.
  by apply String.eqb_neq.
Qed.

Lemma tf_bare (k : string) :
  endswith k ".tf" = true → contains "/" k = false → bare k = true.
Proof.
  intros Htf Hslash. unfold bare, keep_part. rewrite Hslash. cbn [negb andb].
  destruct (String.eqb_spec k EmptyString) as [-> | _]; [done |].
  destruct (String.eqb_spec k ".") as [-> | _]; [done |].
  destruct (String.eqb_spec k "..") as [-> | _]; done.
Qed.

Lemma stat_child (w : world) (dir : Path) (k : string)
    (es : list (string * fsnode)) :
  stat w dir = Some (Dir es) → k ≠ ".." →
  stat w (child dir k) = assoc k es.
Proof.
  unfold stat, locate. cbn [child absolute parts]. intros Hstat Hk.
  rewrite walk_app.
  destruct (walk _ _ (parts dir)) as [loc |]; [| done].
  cbn [walk]. rewrite Hstat. cbn [is_dir_node].
  rewrite (proj2 (String.eqb_neq k "..")) by done.
  rewrite lookup_node_app, Hstat. cbn [lookup_node].
  by destruct (assoc k es).
Qed.

Lemma locate_child (w : world) (dir : Path) (k : string) :
  is_dir w dir = true → k ≠ ".." →
  ∃ dloc, locate w dir = Some dloc
          ∧ locate w (child dir k) = Some (dloc ++ [k]).
Proof.
  unfold is_dir, stat, locate. cbn [child absolute parts]. intros Hdir Hk.
  rewrite walk_app.
  destruct (walk _ _ (parts dir)) as [loc |]; [| done].
  exists loc. split; [done |]. cbn [walk]. rewrite Hdir.
  by rewrite (proj2 (String.eqb_neq k "..")).
Qed.

(** A file can be written below a directory under a name that is not
    the name of a directory. *)
Lemma write_text_child (w : world) (out : Path) (k text : string) :
  is_dir w out = true → is_dir w (child out k) = false → k ≠ ".." →
  ∃ w', write_text w (child out k) text = Some w'
        ∧ read_text w' (child out k) = Some text.
Proof.
  intros Hout Hk Hne. unfold is_dir in Hout.
  destruct (stat w out) as [[? | es] |] eqn:Hstat; try done.
  apply (write_then_read w out k text es); [done | | done].
  intros sub Hsub. unfold is_dir in Hk.
  by rewrite (stat_child w out k es), Hsub in Hk.
Qed.

(** A directory cannot be written as a file. *)
Lemma write_node_dir (text : string) (ps : list string) :
  ∀ n, is_dir_node (lookup_node n ps) = true → write_node ps text n = None.
Proof.
  induction ps as [| p ps IH]; intros n; [by destruct n |].
  destruct n as [? | es]; [done |]. cbn [lookup_node write_node].
  destruct (assoc p es) as [c |]; [| done]. intros H. by rewrite (IH c H).
Qed.

Lemma write_text_dir (w : world) (out : Path) (k text : string) :
  is_dir w (child out k) = true → write_text w (child out k) text = None.
Proof.
  unfold is_dir, stat, locate, write_text. rewrite parent_child.
  cbn [child absolute parts]. rewrite walk_app, last_last.
  unfold locate. destruct (walk _ _ (parts out)) as [dloc |]; [| done].
  cbn [walk]. destruct (is_dir_node (lookup_node (root w) dloc)); [| done].
  destruct (parts out ++ [k]) eqn:Happ; [by destruct (parts out) |].
  destruct (String.eqb k ".."); [done |].
  intros H. by rewrite (write_node_dir text _ _ H).
Qed.

(** Writing one entry of a directory keeps the text of the others. *)
Lemma write_text_sibling (w w' : world) (out : Path) (k text name x : string) :
  write_text w (child out k) text = Some w' →
  is_dir w out = true → k ≠ ".." → name ≠ ".." → name ≠ k →
  read_text w (child out name) = Some x →
  read_text w' (child out name) = Some x.
Proof.
  intros Hw Hout Hk Hname Hne.
  destruct (write_text_written _ _ _ _ Hw)
    as (Hc & Hd & Hf & loc & Hloc & Hnew & Hx).
  destruct (locate_child w out k Hout Hk) as (dloc & Hdloc & Hkloc).
  destruct (locate_child w out name Hout Hname) as (dloc' & Hdloc' & Hnloc).
  assert (dloc' = dloc) as -> by congruence.
  assert (Hsame : ∀ p, locate w' p = locate w p).
  { intros p. unfold locate. rewrite Hc. by apply walk_same_dirs. }
  rewrite Hsame, Hkloc in Hloc. injection Hloc as <-.
  unfold read_text, stat. rewrite Hsame, Hnloc.
  destruct (lookup_node (root w) (dloc ++ [name])) as [[[t |] | ?] |] eqn:Hl;
    try done.
  intros [= ->]. rewrite (Hx (dloc ++ [name]) (Some x)); [done | | done].
  intros H%app_inv_head. congruence.
Qed.

Lemma update_assoc_fresh {A} (k : string) (v : A) (l : list (string * A)) :
  k ∉ l.*1 → update_assoc k v l = l ++ [(k, v)].
Proof.
  induction l as [| [k' v'] l IH]; [done |]. cbn [fmap list_fmap fst].
  intros [Hne Hin]%not_elem_of_cons. cbn [update_assoc].
  rewrite (proj2 (String.eqb_neq k k')) by done. cbn. by rewrite <- IH.
Qed.

Lemma save_each_app (out : Path) (l1 l2 : list (string * string)) :
  ∀ w saved,
    save_each out (l1 ++ l2) w saved
    = match save_each out l1 w saved with
      | (Returns saved', w') => save_each out l2 w' saved'
      | other => other
      end.
Proof.
  induction l1 as [| [k v] l1 IH]; intros w saved; [done |].
  cbn [app save_each]. destruct (write_text w _ v); [apply IH | done].
Qed.

(** The loop of [save_modified_code] on names free to be written. *)
Lemma save_each_saves (out : Path) (items : list (string * string)) :
  NoDup items.*1 →
  ∀ w saved,
    is_dir w out = true →
    (∀ k, k ∈ items.*1 → bare k = true ∧ is_dir w (child out k) = false) →
    (∀ k, k ∈ items.*1 → k ∉ saved.*1) →
    ∃ w',
      save_each out items w saved
      = (Returns (saved ++ map (fun kv => (kv.1, child out kv.1)) items), w')
      ∧ cwd w' = cwd w
      ∧ (∀ q, is_dir_node (lookup_node (root w') q)
              = is_dir_node (lookup_node (root w) q))
      ∧ (∀ k v, (k, v) ∈ items → read_text w' (child out k) = Some v)
      ∧ (∀ name x, name ∉ items.*1 → name ≠ ".." →
                   read_text w (child out name) = Some x →
                   read_text w' (child out name) = Some x).
Proof.
  induction items as [| [k v] items IH]; intros Hnodup w saved Hout Hfree Hnew.
  - exists w. cbn [save_each map]. rewrite app_nil_r. split_and!; try done.
    by intros k v ?%elem_of_nil.
  - cbn [fmap list_fmap fst] in *.
    apply NoDup_cons in Hnodup as [Hk Hnodup].
    destruct (Hfree k) as [Hbare Hnodir]; [left |].
    pose proof (bare_not_dotdot k Hbare) as Hdots.
    destruct (write_text_child w out k v Hout Hnodir Hdots) as (w1 & Hw & Hr).
    destruct (write_text_written _ _ _ _ Hw) as (Hc & Hd & _).
    cbn [save_each]. rewrite (joinpath_bare out k Hbare), Hw.
    rewrite update_assoc_fresh by (apply Hnew; left).
    destruct (IH Hnodup w1 (saved ++ [(k, child out k)]))
      as (w' & Hsave & Hc' & Hd' & Hread & Hkept).
    + by rewrite (is_dir_same w w1).
    + intros k' Hk'. destruct (Hfree k') as [? ?]; [by right |].
      split; [done |]. by rewrite (is_dir_same w w1).
    + intros k' Hk'. rewrite fmap_app, not_elem_of_app. split.
      * apply Hnew. by right.
      * cbn. intros ->%list_elem_of_singleton. done.
    + exists w'. rewrite Hsave, <- app_assoc. cbn [app map fst].
      split_and!; [done | congruence | | |].
      * intros q. by rewrite Hd', Hd.
      * intros k' v' [[= -> ->] | Hin]%elem_of_cons.
        -- by apply (Hkept _ _ Hk Hdots).
        -- by apply Hread.
      * intros name x [Hne Hname]%not_elem_of_cons Hdd Hx.
        apply Hkept; [done | done |].
        by apply (write_text_sibling w w1 out k v name x).
Qed.

(** What reading gives is what the file holds. *)
Lemma read_text_stat (w : world) (p : Path) (text : string) :
  read_text w p = Some text → stat w p = Some (File (Some text)).
Proof.
  unfold read_text. destruct (stat w p) as [[[t |] | es] |]; try done.
  by intros [= ->].
Qed.

(** A loop that came to its end met no directory under one of its
    names. *)
Lemma save_each_free (out : Path) (items : list (string * string)) :
  ∀ w saved saved' w',
    (∀ k, k ∈ items.*1 → bare k = true) →
    save_each out items w saved = (Returns saved', w') →
    ∀ k, k ∈ items.*1 → is_dir w (child out k) = false.
Proof.
  induction items as [| [k v] items IH];
    intros w saved saved' w' Hbare Hsave k' Hk'.
  - by apply elem_of_nil in Hk'.
  - cbn [fmap list_fmap fst] in *. cbn [save_each] in Hsave.
    rewrite (joinpath_bare out k) in Hsave by (apply Hbare; left).
    destruct (write_text w (child out k) v) as [w1 |] eqn:Hw; [| done].
    destruct (write_text_written _ _ _ _ Hw) as (Hc & Hd & _).
    apply elem_of_cons in Hk' as [-> | Hk'].
    + destruct (is_dir w (child out k)) eqn:Hdir; [| done].
      by rewrite write_text_dir in Hw.
    + rewrite <- (is_dir_same w w1) by done.
      eapply (IH w1); [| exact Hsave | done].
      intros k0 Hk0. apply Hbare. by right.
Qed.

(** What the loop of [save_modified_code] leaves when it comes to its
    end. *)
Lemma save_each_returned (out : Path) (items : list (string * string))
    (w w' : world) (saved' : list (string * Path)) :
  NoDup items.*1 →
  (∀ k, k ∈ items.*1 → bare k = true) →
  is_dir w out = true →
  save_each out items w [] = (Returns saved', w') →
  saved' = map (fun kv => (kv.1, child out kv.1)) items
  ∧ is_dir w' out = true
  ∧ ∀ k v, (k, v) ∈ items → stat w' (child out k) = Some (File (Some v)).
Proof.
  intros Hnodup Hbare Hdir Hsave.
  pose proof (save_each_free _ _ _ _ _ _ Hbare Hsave) as Hfree.
  destruct (save_each_saves out items Hnodup w [] Hdir)
    as (w1 & Hsave1 & Hc & Hd & Hread & _).
  { intros k Hk. split; [by apply Hbare | by apply Hfree]. }
  { intros k _. apply not_elem_of_nil. }
  rewrite Hsave1 in Hsave. injection Hsave as <- <-.
  split_and!; [done | by rewrite (is_dir_same w w1) |].
  intros k v Hin. by apply read_text_stat, Hread.
Qed.

End saving.

(** ** One node per file below an absolute target directory *)

Section canonical_names.
Import Py nx pathlib re hcl TerraformEnhancer.
Import Samples.
Import Py nx pathlib hcl TerraformEnhancer.

Variable hcl2_load : string → option (list (string * pyval)).
Variable w : world.
Hypothesis Hwf : well_named (root w) = true.

Lemma fsnode_nested_ind (P : fsnode → Prop) :
  (∀ text, P (File text)) →
  (∀ es, Forall (fun e : string * fsnode => P e.2) es → P (Dir es)) →
  ∀ n, P n.
Proof.
  intros Hf Hd. fix IH 1. intros [text | es]; [apply Hf |].
  apply Hd. induction es as [| [name c] es IHes]; constructor;
    [apply IH | apply IHes].
Qed.

Lemma well_named_entries (es : list (string * fsnode)) :
  well_named (Dir es) = true →
  ∀ name c, (name, c) ∈ es → bare name = true ∧ well_named c = true.
Proof.
  induction es as [| [name0 c0] es IH]; intros Hes name c Hin.
  - by apply elem_of_nil in Hin.
  - cbn [well_named] in Hes.
    apply andb_prop in Hes as [[Hname Hc]%andb_prop Hrest].
    apply elem_of_cons in Hin as [[= -> ->] | Hin]; [done |].
    by apply IH.
Qed.

Lemma assoc_in {A} (k : string) (l : list (string * A)) (v : A) :
  assoc k l = Some v → (k, v) ∈ l.
Proof.
  induction l as [| [k' v'] l IH]; [done |]. cbn [assoc].
  destruct (String.eqb_spec k k') as [<- | _].
  - intros [= ->]. left.
  - intros H. right. by apply IH.
Qed.

Lemma well_named_lookup (ps : list string) :
  ∀ n m, well_named n = true → lookup_node n ps = Some m →
         well_named m = true.
Proof.
  induction ps as [| p ps IH]; intros n m Hn; [by intros [= <-] |].
  cbn [lookup_node]. destruct n as [? | es]; [done |].
  destruct (assoc p es) as [c |] eqn:Hp; [| done].
  apply (IH c). by apply (well_named_entries es Hn p c), assoc_in.
Qed.

Lemma stat_well_named (p : Path) (m : fsnode) :
  stat w p = Some m → well_named m = true.
Proof.
  unfold stat. destruct (locate w p) as [loc |]; [| done].
  by apply well_named_lookup.
Qed.

Lemma tf_below_bare (n : fsnode) :
  well_named n = true →
  ∀ rel, rel ∈ tf_below n → Forall (fun p => bare p = true) rel.
Proof.
  induction n as [text | es IH] using fsnode_nested_ind.
  - by intros _ rel ?%elem_of_nil.
  - induction es as [| [name c] es IHes]; intros Hes rel Hin.
    + by apply elem_of_nil in Hin.
    + cbn [well_named] in Hes.
      apply andb_prop in Hes as [[Hname Hc]%andb_prop Hrest].
      apply Forall_cons in IH as [IHc IH]. cbn [snd] in IHc.
      cbn [tf_below] in Hin.
      apply elem_of_app in Hin as [Hin | Hin];
        [| apply elem_of_app in Hin as [Hin | Hin]].
      * destruct (is_tf name); [| by apply elem_of_nil in Hin].
        apply list_elem_of_singleton in Hin as ->. by repeat constructor.
      * apply list_elem_of_fmap in Hin as (rel' & -> & Hin).
        constructor; [done |]. by apply IHc.
      * by apply IHes.
Qed.

Lemma bare_parts (name : string) :
  bare name = true →
  contains "/" name = false ∧ keep_part name = true ∧ name ≠ "..".
Proof.
  unfold bare. intros [[H1%negb_true_iff H2]%andb_prop H3%negb_true_iff]%andb_prop.
  split_and!; [done | done |]. by apply String.eqb_neq.
Qed.

(** *** Names of absolute paths *)

Lemma split_slash_prefix (a r : string) :
  contains "/" a = false →
  split (a +:+ "/" +:+ r) "/" = a :: split r "/".
Proof.
  induction a as [| c a IH]; intros Ha.
  - change (EmptyString +:+ "/" +:+ r) with (String "/" r).
    by rewrite split_slash_cons.
  - rewrite contains_slash_cons in Ha. apply orb_false_elim in Ha as [Hc Ha].
    rewrite append_cons, split_slash_cons, Hc, (IH Ha). done.
Qed.

Lemma split_join (ps : list string) :
  Forall (fun p => bare p = true) ps → ps ≠ [] →
  split (join "/" ps) "/" = ps.
Proof.
  induction ps as [| p ps IH]; [done |]. intros [Hp Hps]%Forall_cons _.
  destruct (bare_parts p Hp) as (Hslash & _ & _).
  destruct ps as [| q ps]; [by apply split_slash_plain |].
  rewrite join_cons_cons, split_slash_prefix by done. by rewrite IH.
Qed.

Lemma filter_keep_bare (ps : list string) :
  Forall (fun p => bare p = true) ps → List.filter keep_part ps = ps.
Proof.
  induction ps as [| p ps IH]; [done |]. intros [Hp Hps]%Forall_cons.
  destruct (bare_parts p Hp) as (_ & Hkeep & _).
  cbn [List.filter]. by rewrite Hkeep, IH.
Qed.

Lemma Path_of_str_absolute (ps : list string) :
  Forall (fun p => bare p = true) ps →
  Path_of (str {| absolute := true; parts := ps |})
  = {| absolute := true; parts := ps |}.
Proof.
  intros Hps. unfold str. cbn [absolute parts].
  change ("/" +:+ join "/" ps) with (String "/" (join "/" ps)).
  unfold Path_of. rewrite split_slash_cons, Ascii.eqb_refl.
  assert (Hparts : List.filter keep_part (EmptyString :: split (join "/" ps) "/")
                   = ps).
  { change (List.filter keep_part (EmptyString :: split (join "/" ps) "/"))
      with (List.filter keep_part (split (join "/" ps) "/")).
    destruct ps as [| p ps]; [done |].
    by rewrite split_join, filter_keep_bare. }
  by rewrite Hparts.
Qed.

Lemma normalize_bare (ps : list string) :
  Forall (fun p => bare p = true) ps →
  ∀ stack, normalize stack ps = stack ++ ps.
Proof.
  induction ps as [| p ps IH]; intros Hps stack; [by rewrite app_nil_r |].
  apply Forall_cons in Hps as [Hp Hps].
  destruct (bare_parts p Hp) as (_ & _ & Hdots).
  cbn [normalize]. rewrite (proj2 (String.eqb_neq p "..")) by done.
  by rewrite IH, <- app_assoc.
Qed.

Lemma resolve_canonical (ps : list string) :
  Forall (fun p => bare p = true) ps →
  resolve w (Path_of (str {| absolute := true; parts := ps |}))
  = {| absolute := true; parts := ps |}.
Proof.
  intros Hps. rewrite Path_of_str_absolute by done.
  unfold resolve. cbn [absolute parts]. by rewrite normalize_bare.
Qed.

Lemma Forall_removelast {A} (P : A → Prop) (l : list A) :
  Forall P l → Forall P (removelast l).
Proof.
  induction l as [| x l IH]; [done |]. intros [Hx Hl]%Forall_cons.
  cbn [removelast]. destruct l; [constructor |]. constructor; auto.
Qed.

Lemma normalize_gives_bare (ps : list string) :
  Forall (fun p => bare p = true ∨ p = "..") ps →
  ∀ stack, Forall (fun p => bare p = true) stack →
           Forall (fun p => bare p = true) (normalize stack ps).
Proof.
  induction ps as [| p ps IH]; intros Hps stack Hstack; [done |].
  apply Forall_cons in Hps as [Hp Hps]. cbn [normalize].
  destruct (String.eqb_spec p "..") as [-> | Hne].
  - by apply IH, Forall_removelast.
  - destruct Hp as [Hp | ?]; [| done].
    apply IH; [done |]. apply Forall_app. by repeat constructor.
Qed.

Lemma Path_of_parts (s : string) :
  Forall (fun p => bare p = true ∨ p = "..") (parts (Path_of s)).
Proof.
  unfold Path_of. cbn [parts]. apply Forall_forall. intros p Hp.
  apply elem_of_bool_filter in Hp as [Hkeep Hin].
  pose proof (split_slash_pieces s p Hin) as Hslash.
  destruct (String.eqb_spec p "..") as [-> | Hne]; [by right |].
  left. unfold bare. rewrite Hslash, Hkeep. cbn.
  by rewrite (proj2 (String.eqb_neq p "..")).
Qed.

(** *** The names the builder uses *)

Lemma canonical_child (ps : list string) :
  Forall (fun p => bare p = true) ps → canonical (str (mkPath true ps)).
Proof. intros Hps. by exists ps. Qed.

Lemma resolve_joinpath_bare (base : Path) (source : string) :
  absolute base = true → Forall (fun p => bare p = true) (parts base) →
  ∃ ps, Forall (fun p => bare p = true) ps
        ∧ resolve w (joinpath base source) = mkPath true ps.
Proof.
  intros Habs Hbase. unfold resolve, joinpath.
  destruct (absolute (Path_of source)) eqn:Hsrc.
  - rewrite Hsrc. eexists. split; [| done].
    apply normalize_gives_bare; [apply Path_of_parts | constructor].
  - cbn [absolute parts]. rewrite Habs. eexists. split; [| done].
    apply normalize_gives_bare; [| constructor].
    apply Forall_app. split; [| apply Path_of_parts].
    eapply Forall_impl; [exact Hbase |]. by left.
Qed.

Lemma glob_tf_canonical (p module_tf : Path) (ps : list string) :
  p = mkPath true ps → Forall (fun p => bare p = true) ps →
  module_tf ∈ glob_tf w p → canonical (str module_tf).
Proof.
  intros -> Hps. unfold glob_tf.
  destruct (stat w _) as [[? | es] |] eqn:Hstat;
    try by intros ?%elem_of_nil.
  intros (name & -> & Hname)%list_elem_of_fmap.
  apply elem_of_bool_filter in Hname as [_ Hname].
  apply list_elem_of_fmap in Hname as ([name' c] & -> & Hin).
  apply canonical_child. cbn [parts fst]. apply Forall_app. split; [done |].
  repeat constructor.
  by apply (well_named_entries es (stat_well_named _ _ Hstat) name' c).
Qed.

Lemma named_canonically_add_node (g : DiGraph) (n : string) :
  named_canonically g → canonical n → named_canonically (add_node g n).
Proof.
  intros Hg Hn x. rewrite dom_add_node.
  intros [->%elem_of_singleton | ?]%elem_of_union; auto.
Qed.

Lemma named_canonically_add_edge (g : DiGraph) (u v : string) :
  named_canonically g → canonical u → canonical v →
  named_canonically (add_edge g u v).
Proof.
  intros Hg Hu Hv x. rewrite dom_add_edge. intros Hin.
  assert (x = u ∨ x = v ∨ x ∈ dom g) as [-> | [-> | ?]] by set_solver; auto.
Qed.

Lemma named_canonically_add_edges (targets : list Path) (u : string) :
  canonical u → (∀ p, p ∈ targets → canonical (str p)) →
  ∀ g, named_canonically g →
       named_canonically (foldl (fun g p => add_edge g u (str p)) g targets).
Proof.
  intros Hu. induction targets as [| p targets IH]; intros Hts g Hg; [done |].
  cbn [foldl]. apply IH.
  - intros q Hq. apply Hts. by right.
  - apply named_canonically_add_edge; [done | done |]. apply Hts. left.
Qed.

Section one_file.

Variable tf_file : Path.
Variable ps : list string.
Hypothesis Htf : tf_file = mkPath true ps.
Hypothesis Hps : Forall (fun p => bare p = true) ps.

Lemma module_files_canonical (source : string) (module_tf : Path) :
  module_tf ∈ glob_tf w (resolve w (joinpath (parent tf_file) source)) →
  canonical (str module_tf).
Proof.
  destruct (resolve_joinpath_bare (parent tf_file) source)
    as (qs & Hqs & Hres).
  - by rewrite Htf.
  - rewrite Htf. cbn [parent parts]. by apply Forall_removelast.
  - by apply glob_tf_canonical with qs.
Qed.

Lemma named_canonically_add_module_dependency (g : DiGraph) (source : pyval) :
  named_canonically g →
  named_canonically
    (fst (_add_module_dependency w g source tf_file (str tf_file))).
Proof.
  intros Hg. unfold _add_module_dependency.
  assert (Hfile : canonical (str tf_file))
    by (rewrite Htf; by apply canonical_child).
  destruct source as [source | | |]; try done.
  repeat case_match; try done; cbn [fst];
    (apply named_canonically_add_edges; [done | | done]);
    intros p Hp; by apply (module_files_canonical source).
Qed.

Lemma named_canonically_process_module_list (g : DiGraph)
    (modules : list pyval) :
  named_canonically g →
  named_canonically
    (fst (_process_module_list w g modules tf_file (str tf_file))).
Proof.
  unfold _process_module_list. apply (for_each_preserves named_canonically).
  intros module_dict g' Hg'. destruct module_dict; try done.
  apply (for_each_preserves named_canonically); [| done].
  intros item g'' Hg''. repeat case_match; try done.
  by apply named_canonically_add_module_dependency.
Qed.

Lemma named_canonically_process_module_dict (g : DiGraph) (modules : pyval) :
  named_canonically g →
  named_canonically
    (fst (_process_module_dict w g modules tf_file (str tf_file))).
Proof.
  intros Hg. unfold _process_module_dict. destruct modules; try done.
  apply (for_each_preserves named_canonically); [| done].
  intros item g' Hg'. repeat case_match; try done;
    by apply named_canonically_add_module_dependency.
Qed.

Lemma named_canonically_scan_file (g : DiGraph) :
  named_canonically g → named_canonically (scan_file hcl2_load w g tf_file).
Proof.
  intros Hg. unfold scan_file.
  assert (Hnode : named_canonically (add_node g (str tf_file))).
  { apply named_canonically_add_node; [done |].
    rewrite Htf. by apply canonical_child. }
  repeat case_match; try done;
    first [ by apply named_canonically_process_module_list
          | by apply named_canonically_process_module_dict ].
Qed.

End one_file.

Lemma rglob_tf_canonical (target tf : Path) :
  absolute target = true →
  Forall (fun p => bare p = true) (parts target) →
  tf ∈ rglob_tf w target →
  ∃ ps, tf = mkPath true ps ∧ Forall (fun p => bare p = true) ps.
Proof.
  intros Habs Htarget. unfold rglob_tf.
  destruct (stat w target) as [n |] eqn:Hstat; [| by intros ?%elem_of_nil].
  intros (rel & -> & Hrel)%list_elem_of_fmap. rewrite Habs.
  eexists. split; [done |]. apply Forall_app. split; [done |].
  by apply (tf_below_bare n (stat_well_named _ _ Hstat)).
Qed.

Lemma named_canonically_build (self : t) :
  absolute (target_dir self) = true →
  Forall (fun p => bare p = true) (parts (target_dir self)) →
  named_canonically (build_dependency_graph hcl2_load w self).
Proof.
  intros Habs Htarget. unfold build_dependency_graph.
  assert (Hall : ∀ tf, tf ∈ rglob_tf w (target_dir self) →
            ∃ ps, tf = mkPath true ps ∧ Forall (fun p => bare p = true) ps)
    by (intros tf; by apply rglob_tf_canonical).
  revert Hall. generalize (rglob_tf w (target_dir self)). intros tf_files.
  assert (Hempty : named_canonically ∅)
    by (intros n Hn; rewrite dom_empty_L in Hn; by apply elem_of_empty in Hn).
  revert Hempty. generalize (∅ : DiGraph).
  induction tf_files as [| f l IH]; intros g Hg Hall; [done |].
  cbn [foldl]. destruct (Hall f) as (ps & Hf & Hps); [left |].
  apply IH.
  - by apply (named_canonically_scan_file f ps).
  - intros tf Htf. apply Hall. by right.
Qed.

End canonical_names.

(** X6.  One node per file.  The file system is a tree of directories
    and regular files without symbolic links, in which every entry has a
    name that is one component of a path.  When the target directory is
    given by an absolute path written with a single leading slash and
    without [..], every node of the graph that [build_dependency_graph]
    makes is a name that [resolve] leaves as it is, and so two nodes that
    resolve to the same path are the same node.  (A target written with
    two leading slashes, which [pathlib] keeps apart from the root, and a
    target reached through a symbolic link are outside this
    statement.) *)
Theorem absolute_target_gives_one_node_per_file
    (hcl2_load : string → option (list (string * hcl.pyval)))
    (w : pathlib.world) (self : TerraformEnhancer.t)
    (target n1 n2 : string) :
  pathlib.well_named (pathlib.root w) = true →
  TerraformEnhancer.target_dir self = pathlib.Path_of target →
  Py.startswith target "/" = true →
  Py.startswith target "//" = false →
  ".." ∉ pathlib.parts (pathlib.Path_of target) →
  n1 ∈ nx.nodes (TerraformEnhancer.build_dependency_graph hcl2_load w self) →
  n2 ∈ nx.nodes (TerraformEnhancer.build_dependency_graph hcl2_load w self) →
  pathlib.str (pathlib.resolve w (pathlib.Path_of n1)) = n1
  ∧ (pathlib.same_file w n1 n2 → n1 = n2).
Proof.
  intros Hwf Htarget Habs _ Hdots Hn1 Hn2.
  assert (Hbare : Forall (fun p => pathlib.bare p = true)
                    (pathlib.parts (TerraformEnhancer.target_dir self))).
  { rewrite Htarget. apply Forall_forall. intros p Hp.
    pose proof (Path_of_parts target) as Hparts.
    rewrite Forall_forall in Hparts.
    destruct (Hparts p Hp) as [? | ->]; [done | by destruct Hdots]. }
  assert (Hroot : pathlib.absolute (TerraformEnhancer.target_dir self) = true)
    by (by rewrite Htarget).
  pose proof (named_canonically_build hcl2_load w Hwf self Hroot Hbare)
    as Hall.
  destruct (Hall n1 Hn1) as (ps1 & Hps1 & ->).
  destruct (Hall n2 Hn2) as (ps2 & Hps2 & ->).
  unfold pathlib.same_file. rewrite !resolve_canonical by done.
  split; [done |]. by intros ->.
Qed.

Lemma absolute_target_gives_one_node_per_file_witness :
  pathlib.str (pathlib.resolve Samples.work
                 (pathlib.Path_of "/work/repo/main.tf"))
  = "/work/repo/main.tf"
  ∧ ¬ pathlib.same_file Samples.work "/work/repo/main.tf"
        "/work/repo/modules/x/a.tf".
Proof.
  destruct (absolute_target_gives_one_node_per_file Samples.parse
              Samples.work Samples.on_absolute_repo "/work/repo"
              "/work/repo/main.tf" "/work/repo/modules/x/a.tf")
    as [Hfixed Hone].
  - vm_compute. reflexivity.
  - reflexivity.
  - reflexivity.
  - reflexivity.
  - vm_compute. intros H. repeat (apply elem_of_cons in H as [H | H];
                                  [discriminate H |]).
    by apply elem_of_nil in H.
  - vm_compute. reflexivity.
  - vm_compute. reflexivity.
  - split; [exact Hfixed |]. intros H. discriminate (Hone H).
Defined.

(** ** What truncation keeps *)

Section truncation_order.
Import Py nx pathlib re hcl TerraformEnhancer.
Import Samples.
Import Py pathlib TerraformEnhancer Samples.

Lemma count_tokens_nonneg (self : t) (text : pystr) :
  (0 <= count_tokens self text)%Z.
Proof.
  unfold count_tokens, len. destruct (encoding self); [lia |].
  apply Z.div_pos; lia.
Qed.

(** The blocks kept by the loop are blocks of the files, in their order. *)
Lemma walk_sublist (w : world) (self : t) (files : list string) :
  ∀ st, ∃ kept,
    truncated_context (foldl (consider w self) st files)
    = truncated_context st ++ kept
    ∧ sublist kept (omap (file_block w) files).
Proof.
  induction files as [| f files IH]; intros st.
  - exists []. by rewrite app_nil_r.
  - cbn [foldl omap list_omap].
    destruct (IH (consider w self st f)) as (kept & -> & Hsub).
    unfold consider.
    destruct (file_block w f) as [file_text |]; [| by exists kept].
    destruct (_ <=? _)%Z.
    + exists (file_text :: kept). cbn [truncated_context].
      rewrite <- app_assoc. split; [done | by constructor].
    + exists kept. split; [done | by constructor].
Qed.

Lemma tokens_sum_nonneg (self : t) (l : list string) :
  (0 <= foldr (fun t acc => tokens self t + acc) 0 l)%Z.
Proof.
  induction l as [| x l IH]; cbn [foldr]; [lia |].
  pose proof (count_tokens_nonneg self (codepoints x)) as Hx.
  fold (tokens self x) in Hx. lia.
Qed.

(** Nothing is dropped when the tokens of all blocks fit together. *)
Lemma walk_keeps_all (w : world) (self : t) (files : list string) :
  ∀ st,
    (current_tokens st
     + foldr (fun t acc => tokens self t + acc) 0
             (omap (file_block w) files) <= 70000)%Z →
    truncated_context (foldl (consider w self) st files)
    = truncated_context st ++ omap (file_block w) files.
Proof.
  induction files as [| f files IH]; intros st Hfits.
  - by rewrite app_nil_r.
  - cbn [foldl omap list_omap] in *.
    destruct (file_block w f) as [file_text |] eqn:Hblock.
    + cbn [foldr] in Hfits.
      pose proof (tokens_sum_nonneg self (omap (file_block w) files)) as Hsum.
      rewrite (consider_fits w self st f file_text Hblock) by lia.
      rewrite IH by (cbn [include current_tokens]; lia).
      cbn [include truncated_context]. by rewrite <- app_assoc.
    + unfold consider at 2. rewrite Hblock. by apply IH.
Qed.

(** X7.  Truncation keeps blocks in the order of collection, the entry
    file first, and never adds or reorders one; when the tokens of all
    the blocks add up to 70000 at most it drops none. *)
Theorem truncation_keeps_order (w : world) (self : t)
    (files_to_read : list string) (entry_point : str_or_path) :
  let considered :=
    py_str entry_point
    :: List.filter (fun f => negb (String.eqb f (py_str entry_point)))
                   files_to_read in
  let blocks := omap (file_block w) considered in
  sublist (truncated_context (truncate_walk w self files_to_read entry_point))
          blocks
  ∧ ((foldr (fun t acc => tokens self t + acc) 0 blocks <= 70000)%Z →
     _truncate_context w self files_to_read entry_point = join nl blocks).
Proof.
  cbv zeta. unfold _truncate_context, truncate_walk. split.
  - destruct (walk_sublist w self
                (py_str entry_point
                 :: List.filter (fun f => negb (String.eqb f (py_str entry_point)))
                                files_to_read)
                (mkBudget [] 0 0)) as (kept & Hkept & Hsub).
    cbn [foldl] in Hkept. cbn [foldl]. by rewrite Hkept.
  - intros Hfits.
    pose proof (walk_keeps_all w self
                  (py_str entry_point
                   :: List.filter
                        (fun f => negb (String.eqb f (py_str entry_point)))
                        files_to_read)
                  (mkBudget [] 0 0)) as Hall.
    cbn [foldl current_tokens truncated_context] in Hall.
    cbn [foldl]. rewrite Hall; [done |]. lia.
Qed.

Lemma truncation_keeps_order_witness :
  _truncate_context work fallback
    ["repo/main.tf"; "repo/modules/x/a.tf"] (AsStr "repo/main.tf")
  = join nl (omap (file_block work) ["repo/main.tf"; "repo/modules/x/a.tf"]).
Proof.
  apply (truncation_keeps_order work fallback
           ["repo/main.tf"; "repo/modules/x/a.tf"] (AsStr "repo/main.tf")).
  vm_compute. discriminate.
Defined.

Lemma len_join_bound (l : list string) :
  (len (codepoints (join nl l))
   <= foldr (fun t acc => len (codepoints t) + acc) 0 l + len l)%Z.
Proof.
  induction l as [| x l IH]; [done |].
  destruct l as [| y l].
  - cbn [join foldr]. unfold len. cbn [length]. lia.
  - rewrite join_cons_cons, !len_codepoints_app. cbn [foldr] in *.
    unfold len in *. cbn [length codepoints nl] in *. lia.
Qed.

Lemma len_join_lower (l : list string) :
  (foldr (fun t acc => len (codepoints t) + acc) 0 l
   <= len (codepoints (join nl l)))%Z.
Proof.
  induction l as [| x l IH]; [done |].
  destruct l as [| y l].
  - cbn [join foldr]. lia.
  - rewrite join_cons_cons, !len_codepoints_app. cbn [foldr] in *.
    unfold len in *. lia.
Qed.

(** X8.  With the character-based counter, the context that
    [_truncate_context] returns counts at least the tokens added up by
    the loop and at most one more per file kept: at most 70000 plus the
    number of its files. *)
Theorem truncated_context_token_bound (w : world) (self : t)
    (files_to_read : list string) (entry_point : str_or_path) :
  encoding self = None →
  let st := truncate_walk w self files_to_read entry_point in
  let combined_context := _truncate_context w self files_to_read entry_point in
  (current_tokens st <= count_tokens self (codepoints combined_context))%Z
  ∧ (count_tokens self (codepoints combined_context)
     <= current_tokens st + files_included st)%Z
  ∧ (count_tokens self (codepoints combined_context)
     <= 70000 + files_included st)%Z.
Proof.
  intros Hnone st combined_context.
  assert (Hlimit : (current_tokens st <= 70000)%Z).
  { subst st. unfold truncate_walk. apply walk_within_limit, walk_within_limit.
    cbn. lia. }
  assert (Hacc : accurate self st).
  { subst st. unfold truncate_walk. apply walk_accurate, walk_accurate.
    by split. }
  destruct Hacc as [Htok Hlen].
  assert (Hbound :
    (current_tokens st <= count_tokens self (codepoints combined_context))%Z
    ∧ (count_tokens self (codepoints combined_context)
       <= current_tokens st + files_included st)%Z);
    [| destruct Hbound; split_and!; [done | done | lia]].
  subst combined_context. unfold _truncate_context. fold st.
  rewrite Htok, Hlen. clear Htok Hlen Hlimit.
  generalize (truncated_context st) as l. intros l.
  unfold count_tokens. rewrite Hnone.
  pose proof (len_join_bound l) as Hjoin.
  pose proof (len_join_lower l) as Hlower.
  assert (Hsum : (4 * foldr (fun t acc => tokens self t + acc) 0 l
                  <= foldr (fun t acc => len (codepoints t) + acc) 0 l
                  <= 4 * foldr (fun t acc => tokens self t + acc) 0 l
                     + 3 * len l)%Z).
  { clear Hjoin Hlower. induction l as [| x l IH]; [done |].
    cbn [foldr]. unfold tokens at 1 3, count_tokens. rewrite Hnone.
    unfold len in *. cbn [length].
    pose proof (Z.div_mod (Z.of_nat (length (codepoints x))) 4 ltac:(lia)).
    pose proof (Z.mod_pos_bound (Z.of_nat (length (codepoints x))) 4
                  ltac:(lia)).
    lia. }
  split.
  - apply Z.div_le_lower_bound; lia.
  - apply Z.div_le_upper_bound; lia.
Qed.

Lemma truncated_context_token_bound_witness :
  let st :=
    truncate_walk big fallback ["/r/main.tf"; "/r/b.tf"; "/r/c.tf"]
      (AsStr "/r/main.tf") in
  let combined_context :=
    _truncate_context big fallback ["/r/main.tf"; "/r/b.tf"; "/r/c.tf"]
      (AsStr "/r/main.tf") in
  (current_tokens st <= count_tokens fallback (codepoints combined_context))%Z
  ∧ (count_tokens fallback (codepoints combined_context)
     <= current_tokens st + files_included st)%Z
  ∧ (count_tokens fallback (codepoints combined_context)
     <= 70000 + files_included st)%Z.
Proof.
  by apply (truncated_context_token_bound big fallback).
Defined.

End truncation_order.

Section saved_files.
Import Py nx pathlib re hcl TerraformEnhancer.
Import Samples.
Import Py pathlib TerraformEnhancer Samples.

Lemma mkdir_made (w w' : world) (p : Path) :
  mkdir w p = (w', None) →
  is_dir w' p = true ∧ cwd w' = cwd w ∧ keeps_kinds (root w) (root w').
Proof.
  unfold mkdir. intros (Hc & Hk & _ & Hd)%mkdir_from_made.
  rewrite path_eta in Hd. auto.
Qed.

Lemma save_modified_code_returned_aux (w w' : world) (self : t)
    (file_content_map : list (string * string))
    (saved_files : list (string * Path)) :
  save_modified_code w self file_content_map = (Returns saved_files, w') →
  NoDup file_content_map.*1 →
  (∀ k, k ∈ file_content_map.*1 → bare k = true) →
  saved_files
  = map (fun kv => (kv.1, child (output_dir self) kv.1)) file_content_map
  ∧ ∀ k v, (k, v) ∈ file_content_map →
           stat w' (child (output_dir self) k) = Some (File (Some v)).
Proof.
  intros Hsave Hnodup Hbare. unfold save_modified_code in Hsave.
  destruct (mkdir w (output_dir self)) as [w0 [e |]] eqn:Hmk; [done |].
  destruct (mkdir_made _ _ _ Hmk) as (Hdir & _ & _).
  destruct (save_each_returned _ _ _ _ _ Hnodup Hbare Hdir Hsave)
    as (Hsaved & _ & Hfiles).
  done.
Qed.



(** X12.  [save_modified_code] raises without writing anything when the
    output directory is there as something else than a directory, and it
    stops at the first name that cannot be written, with the files before
    it written and left behind. *)
Theorem save_modified_code_stops_at_first_failure (w : world) (self : t) :
  (∀ file_content_map,
     exists_ w (output_dir self) = true → is_dir w (output_dir self) = false →
     save_modified_code w self file_content_map
     = (Raises "FileExistsError", w))
  ∧ (∀ w0 before k v after,
       mkdir w (output_dir self) = (w0, None) →
       NoDup before.*1 →
       (∀ k', k' ∈ before.*1 →
          bare k' = true ∧ is_dir w0 (child (output_dir self) k') = false) →
       bare k = true → is_dir w0 (child (output_dir self) k) = true →
       ∃ w',
         save_modified_code w self (before ++ (k, v) :: after)
         = (Raises "OSError", w')
         ∧ ∀ k' v', (k', v') ∈ before →
                    read_text w' (child (output_dir self) k') = Some v').
Proof.
  split.
  - intros items Hex Hdir. unfold save_modified_code.
    by rewrite (mkdir_in_the_way w _ Hex Hdir).
  - intros w0 before k v after Hmk Hnodup Hfree Hbare Hk.
    unfold save_modified_code. rewrite Hmk.
    destruct (mkdir_made _ _ _ Hmk) as (Hdir & _ & _).
    destruct (save_each_saves (output_dir self) before Hnodup w0 []
                Hdir Hfree) as (w' & Hsave & Hc & Hd & Hread & _).
    { intros k' _. apply not_elem_of_nil. }
    exists w'. rewrite save_each_app, Hsave. cbn [save_each].
    rewrite (joinpath_bare _ k Hbare), write_text_dir; [done |].
    by rewrite (is_dir_same w0 w').
Qed.

Lemma save_modified_code_stops_at_first_failure_witness :
  save_modified_code work_blocked on_repo [("a.tf", "resource {}")]
  = (Raises "FileExistsError", work_blocked)
  ∧ ∃ w',
      save_modified_code work_with_clash on_repo
        ([("a.tf", "resource {}")] ++ ("b.tf", "output {}")
         :: [("c.tf", "variable {}")])
      = (Raises "OSError", w')
      ∧ ∀ k' v', (k', v') ∈ [("a.tf", "resource {}")] →
                 read_text w' (child (output_dir on_repo) k') = Some v'.
Proof.
  split.
  - apply (proj1 (save_modified_code_stops_at_first_failure work_blocked
                    on_repo)); vm_compute; reflexivity.
  - apply (proj2 (save_modified_code_stops_at_first_failure work_with_clash
                    on_repo) work_with_clash).
    + vm_compute. reflexivity.
    + vm_compute. apply NoDup_cons. split; [apply not_elem_of_nil | apply NoDup_nil_2].
    + intros k ->%list_elem_of_singleton. vm_compute. done.
    + vm_compute. reflexivity.
    + vm_compute. reflexivity.
Defined.

End saved_files.

(** ** From the reply to the files on disk *)

Section reply_to_disk.
Import Py nx pathlib re hcl TerraformEnhancer.
Import Samples.
Import Py re pathlib TerraformEnhancer Samples.


Lemma update_assoc_keys {A} (k : string) (v : A) (l : list (string * A)) :
  (update_assoc k v l).*1 = if bool_decide (k ∈ l.*1) then l.*1 else l.*1 ++ [k].
Proof.
  induction l as [| [k' v'] l IH]; [done |]. cbn [update_assoc fmap list_fmap fst].
  destruct (String.eqb_spec k k') as [<- | Hne].
  - cbn. rewrite bool_decide_eq_true_2; [done | left].
  - cbn [fmap list_fmap fst]. fold (fmap (M := list) (@fst string A)).
    rewrite IH. destruct (decide (k ∈ l.*1)) as [Hin | Hin].
    + rewrite !bool_decide_eq_true_2; [done | by right | done].
    + rewrite !bool_decide_eq_false_2; [done | | done].
      by intros [? | ?]%elem_of_cons.
Qed.


Lemma update_assoc_key_in {A} (k k' : string) (v : A) (l : list (string * A)) :
  k' ∈ (update_assoc k v l).*1 → k' = k ∨ k' ∈ l.*1.
Proof.
  rewrite update_assoc_keys. case_bool_decide; [by right |].
  intros [? | ->%list_elem_of_singleton]%elem_of_app; auto.
Qed.



Lemma record_items_keys (segments : list (string * string)) :
  (∀ segment, segment ∈ segments → ∃ stem, fst segment = stem +:+ ".tf") →
  ∀ items k,
    k ∈ (foldl record_item items segments).*1 →
    k ∈ items.*1 ∨ (endswith k ".tf" = true ∧ contains "/" k = false).
Proof.
  induction segments as [| x l IH]; intros Hnames items k; [by left |].
  cbn [foldl]. intros [H | H]%IH; [| by right |].
  - unfold record_item in H. apply update_assoc_key_in in H as [-> | H];
      [| by left].
    right. apply (record_name_tf (fst x)), Hnames. left.
  - intros segment Hin. apply Hnames. by right.
Qed.

Lemma extracted_items_bare (response k : string) :
  k ∈ (extracted_items response).*1 →
  endswith k ".tf" = true ∧ contains "/" k = false.
Proof.
  unfold extracted_items. intros [H | H]%record_items_keys; [| done |].
  - by apply elem_of_nil in H.
  - intros segment Hin. by eapply find_segments_names.
Qed.



End reply_to_disk.

(** ** One prompt per file *)

Section one_by_one.
Import Py nx pathlib re hcl TerraformEnhancer.
Import Samples.
Import Py nx re pathlib TerraformEnhancer Samples.

Lemma read_text_is_file (w : world) (p : Path) (content : string) :
  read_text w p = Some content → is_file w p = true.
Proof. unfold read_text, is_file. by destruct (stat w p) as [[[?|]|?]|]. Qed.

(** X14.  For a file that can be read and is named as [Path] prints it,
    [generate_prompt_for_file] puts into its prompt the blocks that
    [generate_prompt] collects for that file and the same other files,
    one per file counted, whatever their size; [generate_prompt] has the
    same context and count as long as the context stays within 80000
    tokens. *)
Theorem individual_prompt_has_the_batch_context (w : world) (self : t)
    (target_file : Path) (context_files : list string) (content : string) :
  read_text w target_file = Some content →
  Path_of (str target_file) = target_file →
  let blocks := omap (file_block w) (str target_file :: context_files) in
  let prompt := file_prompt_text (AsPath target_file) (join nl blocks) in
  generate_prompt_for_file w self (AsPath target_file) context_files
  = (prompt, count_tokens self (codepoints prompt), len blocks)
  ∧ ((count_tokens self (codepoints (join nl blocks)) <= 80000)%Z →
     assemble w self (AsPath target_file) context_files
     = (join nl blocks, len blocks)).
Proof.
  intros Hread Hname blocks prompt. split.
  - unfold generate_prompt_for_file. cbn [py_path py_str]. rewrite Hread.
    subst prompt blocks. cbn [omap list_omap].
    assert (Hblock : file_block w (str target_file)
                     = if truthy (strip content)
                       then Some ("FILE: " +:+ str target_file +:+ nl
                                  +:+ content +:+ nl)
                       else None).
    { unfold file_block.
      by rewrite Hname, (read_text_is_file _ _ _ Hread), Hread. }
    rewrite Hblock. by destruct (truthy (strip content)).
  - apply (assemble_untruncated_count w self (AsPath target_file)).
Qed.

Lemma individual_prompt_has_the_batch_context_witness :
  let context_files := ["/work/repo/modules/x/a.tf"] in
  let blocks :=
    omap (file_block work) (str (Path_of "repo/main.tf") :: context_files) in
  let prompt :=
    file_prompt_text (AsPath (Path_of "repo/main.tf")) (join nl blocks) in
  generate_prompt_for_file work fallback (AsPath (Path_of "repo/main.tf"))
                           context_files
  = (prompt, count_tokens fallback (codepoints prompt), len blocks)
  ∧ ((count_tokens fallback (codepoints (join nl blocks)) <= 80000)%Z →
     assemble work fallback (AsPath (Path_of "repo/main.tf")) context_files
     = (join nl blocks, len blocks)).
Proof.
  apply (individual_prompt_has_the_batch_context work fallback
           (Path_of "repo/main.tf") ["/work/repo/modules/x/a.tf"] main_text).
  - vm_compute. reflexivity.
  - vm_compute. reflexivity.
Defined.

(** What the steps of the loop do to the file system. *)
Lemma extract_file_content_keeps_kinds (w w' : world) (self : t)
    (response : string) (result : outcome (gmap string string)) :
  extract_file_content w self response = (result, w') →
  cwd w' = cwd w ∧ keeps_kinds (root w) (root w').
Proof.
  unfold extract_file_content. case_bool_decide.
  - destruct (write_text _ _ _) as [w1 |] eqn:Hw; intros [= <- <-].
    + by destruct (write_text_keeps_kinds _ _ _ _ Hw) as (? & ? & _).
    + split; [done | apply keeps_kinds_refl].
  - intros [= <- <-]. split; [done | apply keeps_kinds_refl].
Qed.

Lemma update_assoc_in {A} (k k' : string) (v v' : A) (l : list (string * A)) :
  (k', v') ∈ update_assoc k v l → (k', v') = (k, v) ∨ (k', v') ∈ l.
Proof.
  induction l as [| [k0 v0] l IH]; cbn [update_assoc].
  - intros ->%list_elem_of_singleton. by left.
  - destruct (String.eqb k k0).
    + intros [-> | H]%elem_of_cons; [by left | right; by right].
    + intros [-> | H]%elem_of_cons; [right; left |].
      destruct (IH H); [by left | right; by right].
Qed.

Lemma save_each_kinds (out : Path) (items : list (string * string)) :
  ∀ w saved result w',
    save_each out items w saved = (result, w') →
    cwd w' = cwd w ∧ keeps_kinds (root w) (root w')
    ∧ ∀ saved', result = Returns saved' →
        ∀ k p, (k, p) ∈ saved' →
          (k, p) ∈ saved
          ∨ (k ∈ items.*1 ∧ p = joinpath out k ∧ is_file w' p = true).
Proof.
  induction items as [| [k v] items IH]; intros w saved result w'.
  - cbn [save_each]. intros [= <- <-].
    split_and!; [done | apply keeps_kinds_refl |].
    intros saved' [= <-] k p H. by left.
  - cbn [save_each].
    destruct (write_text w (joinpath out k) v) as [w1 |] eqn:Hw.
    + destruct (write_text_keeps_kinds _ _ _ _ Hw) as (Hc1 & Hk1 & Hfile).
      intros Hrec. destruct (IH _ _ _ _ Hrec) as (Hc & Hk & Hsaved).
      split_and!; [congruence | by eapply keeps_kinds_trans |].
      intros saved' Hres k' p' Hin.
      destruct (Hsaved saved' Hres k' p' Hin) as [Hold | (Hk' & -> & Hf)].
      * apply update_assoc_in in Hold as [[= -> ->] | Hold]; [| by left].
        right. split_and!; [left | done |].
        by apply (is_file_kept w1 w').
      * right. split_and!; [by right | done | done].
    + intros [= <- <-]. split_and!; [done | apply keeps_kinds_refl | done].
Qed.

Lemma save_modified_code_kinds (w w' : world) (self : t)
    (items : list (string * string))
    (result : outcome (list (string * Path))) :
  save_modified_code w self items = (result, w') →
  cwd w' = cwd w ∧ keeps_kinds (root w) (root w')
  ∧ ∀ saved', result = Returns saved' →
      ∀ k p, (k, p) ∈ saved' →
        k ∈ items.*1 ∧ p = joinpath (output_dir self) k
        ∧ is_file w' p = true.
Proof.
  unfold save_modified_code.
  destruct (mkdir w (output_dir self)) as [w0 [e |]] eqn:Hmk;
    unfold mkdir in Hmk;
    destruct (mkdir_from_made _ _ _ _ _ Hmk) as (Hc0 & Hk0 & _ & _).
  - intros [= <- <-]. done.
  - intros Hsave. destruct (save_each_kinds _ _ _ _ _ _ Hsave)
      as (Hc & Hk & Hsaved).
    split_and!; [congruence | by eapply keeps_kinds_trans |].
    intros saved' Hres k p Hin.
    destruct (Hsaved saved' Hres k p Hin) as [Hold | ?]; [| done].
    by apply elem_of_nil in Hold.
Qed.

Lemma foldl_update_assoc_in {A} (new : list (string * A)) :
  ∀ (all : list (string * A)) k v,
    (k, v) ∈ foldl (fun all item => update_assoc item.1 item.2 all) all new →
    (k, v) ∈ all ∨ (k, v) ∈ new.
Proof.
  induction new as [| [k0 v0] new IH]; intros all k v; cbn [foldl]; [by left |].
  intros [H | H]%IH; [| right; by right].
  apply update_assoc_in in H as [-> | H]; [right; left | by left].
Qed.

Section loop.

Variable apply_llm_changes : nat → string → option string.
Variable enumerate : gset string → list string.
Variable self : t.

Lemma reported_later (st : progress) (w' : world) (n : nat) :
  reported self st → cwd w' = cwd (fs st) →
  keeps_kinds (root (fs st)) (root w') →
  reported self (mkProgress w' n (all_saved_files st)).
Proof.
  intros Hst Hc Hk k p Hin. destruct (Hst k p Hin) as (? & ? & ? & ?).
  split_and!; try done. by apply (is_file_kept (fs st) w').
Qed.

Lemma process_file_reported (st : progress) (file : Path) :
  reported self st →
  reported self (process_file apply_llm_changes enumerate self st file).
Proof.
  intros Hst. unfold process_file.
  destruct (negb (exists_ (fs st) file) || negb (is_file (fs st) file));
    [done |].
  destruct (generate_prompt_for_file _ _ _ _) as [[prompt ?] ?].
  destruct (negb (truthy prompt)); [done |].
  destruct (apply_llm_changes (calls st) prompt) as [modified_code |];
    [| by apply reported_later; [| | apply keeps_kinds_refl]].
  destruct (extract_file_content (fs st) self modified_code)
    as [result w'] eqn:Hextract.
  destruct (extract_file_content_keeps_kinds _ _ _ _ _ Hextract) as [Hc Hk].
  destruct result as [file_content_map | |];
    [| by apply reported_later | by apply reported_later].
  case_bool_decide; [by apply reported_later |].
  destruct (save_modified_code w' self (extracted_items modified_code))
    as [result w''] eqn:Hsave.
  destruct (save_modified_code_kinds _ _ _ _ _ Hsave) as (Hc' & Hk' & Hsaved).
  assert (Hlater : reported self (mkProgress w'' (S (calls st))
                               (all_saved_files st))).
  { apply reported_later; [done | congruence | by eapply keeps_kinds_trans]. }
  destruct result as [saved_files | |]; [| done | done].
  intros k p [Hin | Hin]%foldl_update_assoc_in; [by apply Hlater |].
  destruct (Hsaved saved_files eq_refl k p Hin) as (Hkey & -> & Hfile).
  destruct (extracted_items_bare modified_code k Hkey) as [Htf Hslash].
  rewrite joinpath_bare in * by by apply tf_bare. done.
Qed.

Lemma process_files_reported (files : list Path) :
  ∀ st, reported self st →
        reported self (foldl (process_file apply_llm_changes enumerate self)
                        st files).
Proof.
  induction files as [| file files IH]; intros st Hst; [done |].
  cbn [foldl]. by apply IH, process_file_reported.
Qed.

Lemma process_file_without_reply (st : progress) (file : Path) :
  (∀ n prompt, apply_llm_changes n prompt = None) →
  ∃ n, process_file apply_llm_changes enumerate self st file
       = mkProgress (fs st) n (all_saved_files st).
Proof.
  intros Hnone. unfold process_file.
  destruct (negb (exists_ (fs st) file) || negb (is_file (fs st) file));
    [exists (calls st); by destruct st |].
  destruct (generate_prompt_for_file _ _ _ _) as [[prompt ?] ?].
  destruct (negb (truthy prompt)); [exists (calls st); by destruct st |].
  rewrite Hnone. by eexists.
Qed.

Lemma process_files_without_reply (files : list Path) :
  (∀ n prompt, apply_llm_changes n prompt = None) →
  ∀ st, ∃ n, foldl (process_file apply_llm_changes enumerate self) st files
             = mkProgress (fs st) n (all_saved_files st).
Proof.
  intros Hnone. induction files as [| file files IH]; intros st.
  - exists (calls st). by destruct st.
  - cbn [foldl].
    destruct (process_file_without_reply st file Hnone) as [n ->].
    destruct (IH (mkProgress (fs st) n (all_saved_files st))) as [n' ->].
    by exists n'.
Qed.

End loop.

(** X15.  Whatever the model replies, every file that
    [enhance_individual_files] reports is a file of the output directory
    itself, under a name that ends in [.tf] and has no slash, and it is a
    regular file when the method returns. *)
Theorem enhanced_files_lie_in_the_output_directory
    (apply_llm_changes : nat → string → option string)
    (enumerate : gset string → list string) (w : world) (self : t)
    (entry_point : Path) (all_files : list Path) (k : string) (p : Path) :
  let result :=
    enhance_individual_files apply_llm_changes enumerate w self entry_point
                             all_files in
  (k, p) ∈ result.1 →
  p = child (output_dir self) k ∧ endswith k ".tf" = true
  ∧ contains "/" k = false ∧ is_file result.2 p = true.
Proof.
  cbv zeta. unfold enhance_individual_files. cbn [fst snd].
  apply (process_files_reported apply_llm_changes enumerate self).
  by intros k' p' ?%elem_of_nil.
Qed.

Lemma enhanced_files_lie_in_the_output_directory_witness :
  let result :=
    enhance_individual_files (fun _ _ => Some fenced_reply) elements work
      on_repo (Path_of "repo/main.tf") [] in
  child (output_dir on_repo) "c.tf" = child (output_dir on_repo) "c.tf"
  ∧ endswith "c.tf" ".tf" = true
  ∧ contains "/" "c.tf" = false
  ∧ is_file result.2 (child (output_dir on_repo) "c.tf") = true.
Proof.
  apply (enhanced_files_lie_in_the_output_directory
           (fun _ _ => Some fenced_reply) elements work on_repo
           (Path_of "repo/main.tf") [] "c.tf").
  assert (Hresult :
    (enhance_individual_files (fun _ _ => Some fenced_reply) elements work
       on_repo (Path_of "repo/main.tf") []).1
    = [("a.tf", child (output_dir on_repo) "a.tf");
       ("c.tf", child (output_dir on_repo) "c.tf")])
    by (vm_compute; reflexivity).
  rewrite Hresult. right. left.
Defined.

(** X16.  When every call of the model raises, [enhance_individual_files]
    returns no file and leaves the file system as it was: the exceptions
    are caught file by file. *)
Theorem enhance_individual_files_without_reply
    (apply_llm_changes : nat → string → option string)
    (enumerate : gset string → list string) (w : world) (self : t)
    (entry_point : Path) (all_files : list Path) :
  (∀ n prompt, apply_llm_changes n prompt = None) →
  enhance_individual_files apply_llm_changes enumerate w self entry_point
                           all_files
  = ([], w).
Proof.
  intros Hnone. unfold enhance_individual_files.
  by destruct (process_files_without_reply apply_llm_changes enumerate self
                 ([entry_point]
                  ++ List.filter (fun f => negb (path_eqb f entry_point))
                                 all_files)
                 Hnone (mkProgress w 0 [])) as [n ->].
Qed.

Lemma enhance_individual_files_without_reply_witness :
  enhance_individual_files (fun _ _ => None) elements work on_repo
    (Path_of "repo/main.tf") [Path_of "repo/main.tf"]
  = ([], work).
Proof.
  by apply (enhance_individual_files_without_reply (fun _ _ => None)).
Defined.

End one_by_one.

(** ** A reply in the form the prompt asks for *)

Section asked_form.
Import Py nx pathlib re hcl TerraformEnhancer.
Import Samples.
Import Py re pathlib TerraformEnhancer Samples.

Lemma strip_prefix_append (p s : string) : strip_prefix p (p +:+ s) = Some s.
Proof.
  induction p as [| c p IH]; [done |]. rewrite append_cons. cbn [strip_prefix].
  by rewrite Ascii.eqb_refl.
Qed.

Lemma run_lit (c : ascii) (l s : string) (st : mstate)
    (cont : mstate → option mstate) :
  rest st = String c l +:+ s →
  run (Lit (String c l)) st cont = cont (advance st s).
Proof. intros H. cbn [run]. by rewrite H, strip_prefix_append. Qed.

Lemma run_lit_fails (c d : ascii) (l s : string) (st : mstate)
    (cont : mstate → option mstate) :
  rest st = String d s → Ascii.eqb c d = false →
  run (Lit (String c l)) st cont = None.
Proof. intros H Hc. cbn [run]. rewrite H. cbn [strip_prefix]. by rewrite Hc. Qed.

Lemma length_lstrip (s : string) : String.length (lstrip s) <= String.length s.
Proof.
  induction s as [| c s IH]; [done |]. cbn [lstrip].
  destruct (isspace c); cbn [String.length]; lia.
Qed.

Lemma lstrip_fixed (c : ascii) (s : string) :
  lstrip (String c s) = String c s → isspace c = false.
Proof.
  cbn [lstrip]. destruct (isspace c); [| done]. intros H.
  pose proof (length_lstrip s) as Hlen. rewrite H in Hlen.
  cbn [String.length] in Hlen. lia.
Qed.

(** A lazy run of any characters passes every position at which what
    follows fails. *)
Lemma lazy_any_run (a t : string) (st : mstate)
    (cont : mstate → option mstate) :
  (∀ a1 c a2, a = a1 +:+ String c a2 →
              cont (advance st (String c (a2 +:+ t))) = None) →
  lazy Any st (a +:+ t) cont false = lazy Any st t cont false.
Proof.
  revert st cont. induction a as [| c a IH]; intros st cont Hfail; [done |].
  rewrite append_cons. cbn [lazy].
  rewrite (Hfail EmptyString c a) by done. cbn [in_class].
  apply IH. intros a1 c' a2 ->. by apply (Hfail (String c a1) c' a2).
Qed.

Lemma lazy_here (k : cclass) (s : string) (st m : mstate)
    (cont : mstate → option mstate) :
  cont (advance st s) = Some m → lazy k st s cont false = Some m.
Proof. intros H. destruct s; cbn [lazy]; by rewrite H. Qed.

Lemma contains_suffix (needle a t : string) :
  contains needle (a +:+ t) = false → contains needle t = false.
Proof.
  induction a as [| c a IH]; [done |]. rewrite append_cons.
  intros [_ H]%contains_cons_false. by apply IH.
Qed.

Lemma contains_not_startswith (needle s : string) :
  contains needle s = false → startswith s needle = false.
Proof. destruct s; cbn [contains]; by intros [? ?]%orb_false_elim. Qed.

(** A lazy run of any characters before the look-ahead of the [FILE:]
    grammar, on a text without marker: it ends at the end of the text, or
    before a last line feed. *)
Lemma lazy_to_end (content : string) (st : mstate)
    (f : mstate → mstate) (cont : mstate → option mstate) :
  (∀ st', cont st'
          = if startswith (rest st') "FILE:" || at_end (rest st')
            then Some (f st') else None) →
  contains "FILE:" content = false →
  ∃ body t, content = body +:+ t ∧ at_end t = true
            ∧ lazy Any st content cont false = Some (f (advance st t)).
Proof.
  intros Hcont. induction content as [| c s IH]; intros Hfree.
  - exists EmptyString, EmptyString. split_and!; [done | done |].
    cbn [lazy]. by rewrite Hcont.
  - destruct (at_end (String c s)) eqn:Hend.
    + exists EmptyString, (String c s). split_and!; [done | done |].
      apply lazy_here. rewrite Hcont. cbn [advance rest].
      by rewrite Hend, orb_true_r.
    + apply contains_cons_false in Hfree as [Hhead Htail].
      destruct (IH Htail) as (body & t & -> & Ht & Hrun).
      exists (String c body), t. split_and!; [done | done |].
      cbn [lazy]. rewrite Hcont. cbn [advance rest].
      rewrite Hhead, Hend. cbn [orb in_class]. exact Hrun.
Qed.

Lemma greedy_stops (k : cclass) (st : mstate) (s : string)
    (cont : mstate → option mstate) :
  match s with String c _ => in_class k c = false | EmptyString => True end →
  greedy k st s cont false = cont (advance st s).
Proof. destruct s as [| c s]; [done |]. cbn [greedy]. by intros ->. Qed.

Lemma all_in_none_of_head (cs : string) (c d : ascii) (s : string) :
  all_in (NoneOf cs) (String c s) = true → mem d cs = true →
  Ascii.eqb d c = false.
Proof.
  cbn [all_in in_class]. intros [Hc _]%andb_prop Hd.
  apply negb_true_iff in Hc. destruct (Ascii.eqb_spec d c) as [-> |]; [| done].
  congruence.
Qed.

Lemma all_in_suffix (k : cclass) (a b : string) :
  all_in k (a +:+ b) = true → all_in k b = true.
Proof.
  induction a as [| c a IH]; [done |]. rewrite append_cons. cbn [all_in].
  intros [_ H]%andb_prop. by apply IH.
Qed.

Lemma isspace_LF : isspace LF = true.
Proof. reflexivity. Qed.

Lemma run_seq (r1 r2 : regex) (st : mstate) (cont : mstate → option mstate) :
  run (Seq r1 r2) st cont = run r1 st (fun st' => run r2 st' cont).
Proof. done. Qed.

Lemma run_group (i : nat) (r : regex) (st : mstate)
    (cont : mstate → option mstate) :
  run (Group i r) st cont
  = run r st (fun st' =>
      cont {| rest := rest st'; bos := bos st';
              caps := (i, between (rest st) (rest st')) :: caps st' |}).
Proof. done. Qed.

Lemma run_plus_one (k : cclass) (c : ascii) (s : string) (st : mstate)
    (cont : mstate → option mstate) :
  rest st = String c s → in_class k c = true →
  match s with String d _ => in_class k d = false | EmptyString => True end →
  run (Plus k) st cont = cont (advance st s).
Proof.
  intros Hrest Hc Hs. cbn [run]. unfold one. rewrite Hrest, Hc.
  by apply greedy_stops.
Qed.

Lemma run_lazy_plus_any (c : ascii) (a t : string) (st m : mstate)
    (cont : mstate → option mstate) :
  rest st = String c (a +:+ t) →
  (∀ a1 d a2, a = a1 +:+ String d a2 →
              cont (advance st (String d (a2 +:+ t))) = None) →
  cont (advance st t) = Some m →
  run (LazyPlus Any) st cont = Some m.
Proof.
  intros Hrest Hfail Hcont. cbn [run]. unfold one. rewrite Hrest.
  cbn [in_class]. rewrite lazy_any_run by done. by apply lazy_here.
Qed.

Lemma run_star_one_back (k : cclass) (c : ascii) (s : string) (st : mstate)
    (cont : mstate → option mstate) :
  rest st = String c s → in_class k c = true →
  match s with String d _ => in_class k d = false | EmptyString => True end →
  cont (advance st s) = None →
  run (Star k) st cont = cont st.
Proof.
  intros Hrest Hc Hs Hnone. cbn [run]. rewrite Hrest. cbn [greedy].
  by rewrite Hc, greedy_stops, Hnone.
Qed.

Lemma lazy_first (k : cclass) (s : string) (st : mstate)
    (cont : mstate → option mstate) :
  advance st s = st → lazy k st s cont true = lazy k st s cont false.
Proof. intros H. destruct s; cbn [lazy]; by rewrite H. Qed.

Lemma run_marker_ahead (st : mstate) :
  run (Seq (Lookahead (Alt (Lit "FILE:") Eos)) (Lit EmptyString)) st Some
  = if startswith (rest st) "FILE:" || at_end (rest st) then Some st else None.
Proof.
  cbn [run]. rewrite startswith_strip_prefix.
  destruct (strip_prefix "FILE:" (rest st)); [done |].
  cbn [orb]. by destruct (at_end (rest st)).
Qed.

Lemma run_lit_empty (st : mstate) (cont : mstate → option mstate) :
  run (Lit EmptyString) st cont = cont st.
Proof. done. Qed.

Lemma run_lit_none (c : ascii) (l : string) (st : mstate)
    (cont : mstate → option mstate) :
  strip_prefix (String c l) (rest st) = None →
  run (Lit (String c l)) st cont = None.
Proof. intros H. cbn [run]. by rewrite H. Qed.

Lemma run_lazy_star (k : cclass) (st : mstate)
    (cont : mstate → option mstate) :
  run (LazyStar k) st cont = lazy k st (rest st) cont true.
Proof. done. Qed.

(** The match of the [FILE:] pattern on a block in the form the prompt
    asks for. *)
Lemma file_pattern_on_block (start : bool) (c0 : ascii)
    (stem content : string) :
  isspace c0 = false →
  all_in (NoneOf "./\") (String c0 stem) = true →
  lstrip content = content →
  contains "FILE:" content = false →
  ∃ body t,
    content = body +:+ t ∧ at_end t = true
    ∧ match_at FILE_PATTERN start
        ("FILE: " +:+ String c0 stem +:+ ".tf" +:+ nl +:+ content)
      = Some {| rest := t; bos := false;
                caps := [(2, body); (1, String c0 stem +:+ ".tf")] |}.
Proof.
  intros Hc0 Hplain Hcontent Hfree.
  assert (Hhead : match content with
                  | String d _ => in_class Space d = false
                  | EmptyString => True
                  end).
  { destruct content as [| d content']; [done |].
    by apply lstrip_fixed in Hcontent. }
  assert (Hnl : strip_prefix nl content = None).
  { destruct content as [| d content']; [done |]. cbn [strip_prefix nl].
    destruct (Ascii.eqb_spec LF d) as [<- |]; [| done].
    by vm_compute in Hhead. }
  set (st5 := {| rest := content; bos := false;
                 caps := [(1, String c0 stem +:+ ".tf")] |}).
  set (f := fun st' : mstate =>
              {| rest := rest st'; bos := bos st';
                 caps := (2, between content (rest st')) :: caps st' |}).
  destruct (lazy_to_end content st5 f
              (fun st' => run (Seq (Lookahead (Alt (Lit "FILE:") Eos))
                                   (Lit EmptyString))
                              (f st') Some))
    as (body & t & Hsplit & Ht & Hlazy); [| done |].
  { intros st'. by rewrite run_marker_ahead. }
  exists body, t. split_and!; [done | done |].
  unfold match_at, FILE_PATTERN, cat. cbn [foldr].
  (* FILE: *)
  rewrite run_seq.
  rewrite (run_lit "F" "ILE:"
             (String " " (String c0 stem +:+ ".tf" +:+ nl +:+ content)))
    by done.
  (* \s+ *)
  rewrite run_seq.
  rewrite (run_plus_one Space " "
             (String c0 stem +:+ ".tf" +:+ nl +:+ content)); [| done | done |].
  2:{ rewrite append_cons. exact Hc0. }
  (* (.+?\.tf) *)
  rewrite run_seq, run_group, run_seq. cbn [advance rest bos caps].
  apply (run_lazy_plus_any c0 stem (".tf" +:+ nl +:+ content)).
  { by rewrite append_cons. }
  { intros a1 d a2 ->. rewrite run_seq.
    apply (run_lit_fails "." d "tf" (a2 +:+ ".tf" +:+ nl +:+ content));
      [done |].
    apply all_in_suffix with (a := String c0 a1) in Hplain.
    by apply (all_in_none_of_head "./\" d "." a2). }
  rewrite run_seq.
  rewrite (run_lit "." "tf" (nl +:+ content)) by done.
  rewrite run_lit_empty. cbn [advance rest bos caps].
  assert (Hname : between (String c0 stem +:+ ".tf" +:+ nl +:+ content)
                          (nl +:+ content) = String c0 stem +:+ ".tf").
  { transitivity (between ((String c0 stem +:+ ".tf") +:+ (nl +:+ content))
                          (nl +:+ content)); [| apply between_append].
    f_equal. by rewrite append_assoc. }
  rewrite Hname.
  (* \s*\n *)
  rewrite run_seq.
  rewrite (run_star_one_back Space LF content); [| done | done | done |].
  2:{ rewrite run_seq. by apply run_lit_none. }
  rewrite run_seq.
  rewrite (run_lit LF EmptyString content) by done.
  cbn [advance rest bos caps]. fold st5.
  (* (.*?)(?=FILE:|$) *)
  rewrite run_seq, run_group, run_lazy_star.
  rewrite lazy_first by done.
  etransitivity; [exact Hlazy |].
  subst f. cbn [advance rest bos caps st5]. by rewrite Hsplit, between_append.
Qed.

Lemma scan_skip (r : regex) (a t : string) :
  scan r false (String.length a) (a +:+ t) = scan r false 0 t.
Proof. induction a as [| c a IH]; [done |]. exact IH. Qed.

Lemma at_end_cases (t : string) : at_end t = true → t = EmptyString ∨ t = nl.
Proof.
  unfold at_end. intros [H | H]%orb_prop; apply String.eqb_eq in H; auto.
Qed.

(** The segments of a reply of one block in the asked form. *)
Lemma find_segments_on_block (c0 : ascii) (stem content : string) :
  isspace c0 = false →
  all_in (NoneOf "./\") (String c0 stem) = true →
  lstrip content = content →
  contains "FILE:" content = false →
  ∃ body t,
    content = body +:+ t ∧ at_end t = true
    ∧ find_segments ("FILE: " +:+ String c0 stem +:+ ".tf" +:+ nl +:+ content)
      = [(String c0 stem +:+ ".tf", body)].
Proof.
  intros Hc0 Hplain Hcontent Hfree.
  destruct (file_pattern_on_block true c0 stem content Hc0 Hplain Hcontent
              Hfree) as (body & t & Hsplit & Ht & Hmatch).
  exists body, t. split_and!; [done | done |].
  assert (Hfound : findall FILE_PATTERN
                     ("FILE: " +:+ String c0 stem +:+ ".tf" +:+ nl +:+ content)
                   = [(String c0 stem +:+ ".tf", body)]);
    [| unfold find_segments; by rewrite Hfound].
  unfold findall.
  set (a := "ILE: " +:+ String c0 stem +:+ ".tf" +:+ nl +:+ body).
  assert (Hreply : "FILE: " +:+ String c0 stem +:+ ".tf" +:+ nl +:+ content
                   = String "F" (a +:+ t)).
  { subst a. rewrite Hsplit.
    change ("FILE: " +:+ String c0 stem +:+ ".tf" +:+ nl +:+ body +:+ t)
      with (String "F" ("ILE: " +:+ String c0 stem +:+ ".tf" +:+ nl
                        +:+ body +:+ t)).
    f_equal. by rewrite !append_assoc. }
  rewrite Hreply in Hmatch |- *. cbn [scan]. rewrite Hmatch.
  unfold span. cbn [rest String.length]. rewrite length_append.
  replace (S (String.length a + String.length t) - String.length t - 1)
    with (String.length a) by lia.
  rewrite scan_skip.
  destruct (at_end_cases t Ht) as [-> | ->]; by vm_compute.
Qed.

Lemma contains_char_none_of (cs : string) (c : ascii) (a b : string) :
  all_in (NoneOf cs) a = true → mem c cs = true →
  contains (String c EmptyString) (a +:+ b)
  = contains (String c EmptyString) b.
Proof.
  intros Ha Hc. induction a as [| d a IH]; [done |].
  rewrite append_cons, contains_char_cons.
  rewrite (all_in_none_of_head cs d c a Ha Hc). cbn [orb]. apply IH.
  cbn [all_in] in Ha. by apply andb_prop in Ha as [_ ?].
Qed.

Lemma rstrip_app_nl (s : string) : rstrip (s +:+ nl) = rstrip s.
Proof.
  induction s as [| c s IH]; [done |]. rewrite append_cons. cbn [rstrip].
  by rewrite IH.
Qed.

Lemma strip_app_nl (s : string) : strip (s +:+ nl) = strip s.
Proof.
  unfold strip. induction s as [| c s IH]; [done |].
  rewrite append_cons. cbn [lstrip]. destruct (isspace c); [done |].
  rewrite <- append_cons. apply rstrip_app_nl.
Qed.

(** X17.  A reply of one block in the form the prompt asks for gives
    exactly one file.  The reply is [FILE:], one space, a name, a line
    feed and a content, where the name is a stem followed by [.tf], the
    stem begins with a character that is not white space and holds no
    dot, slash or backslash, the content begins with no white space and
    holds no [FILE:] marker, and the reply holds no fence token.  Then
    [extract_file_content] returns the mapping of that name to the
    stripped content and leaves the file system as it is.  When
    [save_modified_code] then returns for it, it returns the path of the
    name in the output directory, and the file there holds the stripped
    content.  (Whether that call returns is left open: the operating
    system may refuse the name.) *)
Theorem asked_form_is_extracted (w w' : world) (self : t) (c0 : ascii)
    (stem content : string) (saved_files : list (string * Path)) :
  let name := String c0 stem +:+ ".tf" in
  let response := "FILE: " +:+ String c0 stem +:+ ".tf" +:+ nl +:+ content in
  isspace c0 = false →
  all_in (NoneOf "./\") (String c0 stem) = true →
  lstrip content = content →
  contains "FILE:" content = false →
  contains "```" response = false →
  extract_file_content w self response
  = (Returns {[ name := strip content ]}, w)
  ∧ extracted_items response = [(name, strip content)]
  ∧ (save_modified_code w self (extracted_items response)
     = (Returns saved_files, w') →
     saved_files = [(name, child (output_dir self) name)]
     ∧ stat w' (child (output_dir self) name)
       = Some (File (Some (strip content)))).
Proof.
  intros name response Hc0 Hplain Hcontent Hfree Hfence.
  destruct (find_segments_on_block c0 stem content Hc0 Hplain Hcontent Hfree)
    as (body & t & Hsplit & Ht & Hsegments).
  assert (Hclean : clean_response response = response).
  { unfold clean_response, sub.
    destruct (sub_without_fence response true Hfence) as [-> ?]. done. }
  assert (Hbody : strip body = strip content).
  { rewrite Hsplit. destruct (at_end_cases t Ht) as [-> | ->].
    - by rewrite append_nil_r.
    - by rewrite strip_app_nl. }
  assert (Hname : strip name = name).
  { unfold strip, name. rewrite append_cons, lstrip_head by done.
    rewrite <- append_cons. by apply rstrip_keeps. }
  assert (Hslash : contains "/" name = false)
    by (unfold name; by rewrite (contains_char_none_of "./\" "/")).
  assert (Hback : contains "\" name = false)
    by (unfold name; by rewrite (contains_char_none_of "./\" "\")).
  assert (Hitems : extracted_items response = [(name, strip content)]).
  { unfold extracted_items. rewrite Hclean. fold name in Hsegments.
    subst response. rewrite Hsegments. cbn [foldl]. unfold record_item.
    cbn [fst snd]. by rewrite Hname, Hslash, Hback, Hbody. }
  split_and!; [| done |].
  - unfold extract_file_content. rewrite Hclean. fold name in Hsegments.
    subst response. rewrite Hsegments. cbn [foldl]. unfold record_file.
    cbn [fst snd]. rewrite Hname, Hslash, Hback, Hbody. cbn [orb].
    rewrite insert_empty.
    rewrite bool_decide_eq_false_2; [done |]. apply insert_non_empty.
  - rewrite Hitems. intros Hsave.
    assert (Hbare : bare name = true).
    { apply tf_bare; [| done]. unfold name. by apply endswith_app. }
    destruct (save_modified_code_returned_aux w w' self
                [(name, strip content)] saved_files Hsave)
      as (Hsaved & Hfiles).
    + apply NoDup_singleton.
    + by intros k ->%list_elem_of_singleton.
    + split; [done |]. apply Hfiles. left.
Qed.

Lemma asked_form_is_extracted_witness :
  extract_file_content work on_repo
    ("FILE: " +:+ "main" +:+ ".tf" +:+ nl +:+ main_text)
  = (Returns {[ "main" +:+ ".tf" := strip main_text ]}, work)
  ∧ extracted_items ("FILE: " +:+ "main" +:+ ".tf" +:+ nl +:+ main_text)
    = [("main" +:+ ".tf", strip main_text)]
  ∧ (save_modified_code work on_repo
       (extracted_items ("FILE: " +:+ "main" +:+ ".tf" +:+ nl +:+ main_text))).1
    = Returns [("main" +:+ ".tf",
                child (output_dir on_repo) ("main" +:+ ".tf"))]
  ∧ stat (save_modified_code work on_repo
            (extracted_items
               ("FILE: " +:+ "main" +:+ ".tf" +:+ nl +:+ main_text))).2
         (child (output_dir on_repo) ("main" +:+ ".tf"))
    = Some (File (Some (strip main_text))).
Proof.
  assert (Hrun :
    save_modified_code work on_repo
      (extracted_items ("FILE: " +:+ "main" +:+ ".tf" +:+ nl +:+ main_text))
    = (Returns [("main" +:+ ".tf",
                 child (output_dir on_repo) ("main" +:+ ".tf"))],
       (save_modified_code work on_repo
          (extracted_items
             ("FILE: " +:+ "main" +:+ ".tf" +:+ nl +:+ main_text))).2))
    by (vm_compute; reflexivity).
  destruct (asked_form_is_extracted work
              (save_modified_code work on_repo
                 (extracted_items
                    ("FILE: " +:+ "main" +:+ ".tf" +:+ nl +:+ main_text))).2
              on_repo "m" "ain" main_text
              [("main" +:+ ".tf",
                child (output_dir on_repo) ("main" +:+ ".tf"))])
    as (Hextract & Hitems & Hsave);
    try (vm_compute; reflexivity).
  destruct (Hsave Hrun) as (_ & Hfile).
  split_and!; [exact Hextract | exact Hitems | by rewrite Hrun | exact Hfile].
Defined.

End asked_form.

(** ** No content holds the marker *)

Section marker_free.
Import Py nx pathlib re hcl TerraformEnhancer.
Import Samples.
Import Py re pathlib TerraformEnhancer Samples.

(** A lazy run before the look-ahead of the [FILE:] grammar stops at the
    first position at which the look-ahead holds. *)
Lemma lazy_minimal (k : cclass) (s0 : string) (s : string) :
  ∀ (st m : mstate) (first : bool),
    (first = true → rest st = s) →
    lazy k st s
      (fun st' =>
         run (Seq (Lookahead (Alt (Lit "FILE:") Eos)) (Lit EmptyString))
             {| rest := rest st'; bos := bos st';
                caps := (2, between s0 (rest st')) :: caps st' |} Some)
      first = Some m →
    ∃ body t,
      s = body +:+ t
      ∧ (∀ a1 c a2, body = a1 +:+ String c a2 →
                    startswith (String c a2 +:+ t) "FILE:" = false)
      ∧ caps m = (2, between s0 t) :: caps st.
Proof.
  induction s as [| c s IH]; intros st m first Hfirst.
  - cbn [lazy]. rewrite run_marker_ahead. cbn [rest].
    destruct (_ || _); [| done]. intros [= <-].
    exists EmptyString, EmptyString. split_and!; [done | |].
    + intros a1 c a2 H. by destruct a1.
    + destruct first; cbn [caps rest advance]; [| done].
      by rewrite Hfirst.
  - cbn [lazy]. rewrite run_marker_ahead. cbn [rest].
    assert (Hhere : rest (if first then st else advance st (String c s))
                    = String c s)
      by (destruct first; [by apply Hfirst | done]).
    rewrite Hhere.
    destruct (startswith (String c s) "FILE:" || at_end (String c s))
      eqn:Hahead.
    + intros [= <-]. exists EmptyString, (String c s).
      split_and!; [done | |].
      * intros a1 d a2 H. by destruct a1.
      * cbn [caps]. by destruct first.
    + destruct (in_class k c); [| done]. intros Hrun.
      destruct (IH st m false ltac:(done) Hrun) as (body & t & -> & Hmin & Hcaps).
      exists (String c body), t. split_and!; [done | | done].
      intros [| d a1] c' a2.
      * intros [= <- <-]. rewrite append_cons.
        by apply orb_false_elim in Hahead as [? _].
      * rewrite append_cons. intros [= <- ->]. by apply (Hmin a1).
Qed.

Lemma no_marker_at_any_position (body t : string) :
  (∀ a1 c a2, body = a1 +:+ String c a2 →
              startswith (String c a2 +:+ t) "FILE:" = false) →
  contains "FILE:" body = false.
Proof.
  induction body as [| c body IH]; intros Hmin; [done |].
  cbn [contains]. apply orb_false_intro.
  - destruct (startswith (String c body) "FILE:") eqn:Hs; [| done].
    rewrite <- (Hmin EmptyString c body eq_refl). symmetry.
    by apply startswith_app.
  - apply IH. intros a1 d a2 ->. by apply (Hmin (String c a1)).
Qed.

(** The second group of a match of the [FILE:] pattern holds no marker. *)
Lemma file_pattern_content (start : bool) (s : string) (m : mstate) :
  match_at FILE_PATTERN start s = Some m →
  contains "FILE:" (group 2 m) = false.
Proof.
  unfold match_at, FILE_PATTERN, cat. cbn [foldr]. intros H.
  rewrite run_seq in H. apply run_sound in H as (st1 & H & _).
  rewrite run_seq in H. apply run_sound in H as (st2 & H & _).
  rewrite run_seq in H. apply run_sound in H as (st3 & H & _).
  rewrite run_seq in H. apply run_sound in H as (st4 & H & _).
  rewrite run_seq in H. apply run_sound in H as (st5 & H & _).
  rewrite run_seq, run_group, run_lazy_star in H.
  apply lazy_minimal in H as (body & t & Hsplit & Hmin & Hcaps); [| done].
  unfold group. rewrite Hcaps. cbn. rewrite Hsplit, between_append.
  by apply (no_marker_at_any_position body t).
Qed.

Lemma lstrip_suffix (s : string) : ∃ pre, s = pre +:+ lstrip s.
Proof.
  induction s as [| c s [pre IH]]; [by exists EmptyString |].
  cbn [lstrip]. destruct (isspace c); [| by exists EmptyString].
  exists (String c pre). by rewrite append_cons, <- IH.
Qed.

Lemma rstrip_prefix (s : string) : ∃ post, s = rstrip s +:+ post.
Proof.
  induction s as [| c s [post IH]]; [by exists EmptyString |].
  cbn [rstrip]. destruct (rstrip s) as [| d r] eqn:Hr.
  - destruct (isspace c); [by exists (String c s) |].
    exists s. done.
  - exists post. by rewrite append_cons, <- IH.
Qed.

Lemma contains_strip (needle s : string) :
  contains needle s = false → contains needle (strip s) = false.
Proof.
  intros H. unfold strip.
  destruct (lstrip_suffix s) as [pre Hpre]. rewrite Hpre in H.
  apply contains_suffix in H.
  destruct (rstrip_prefix (lstrip s)) as [post Hpost]. rewrite Hpost in H.
  destruct (contains needle (rstrip (lstrip s))) eqn:Hc; [| done].
  by rewrite (contains_app _ _ post Hc) in H.
Qed.

(** X18.  When the [FILE:] grammar finds a segment in a reply, no content
    that [extract_file_content] returns holds the marker [FILE:]: a
    content is cut where the marker occurs in it. *)
Theorem file_contents_hold_no_marker (w : world) (self : t)
    (response : string) (files : gmap string string) (k v : string) :
  findall FILE_PATTERN (clean_response response) ≠ [] →
  fst (extract_file_content w self response) = Returns files →
  files !! k = Some v →
  contains "FILE:" v = false.
Proof.
  unfold extract_file_content, find_segments.
  intros Hfound Hfiles Hk.
  destruct (findall FILE_PATTERN (clean_response response))
    as [| x l] eqn:Hsegments; [done |]. rewrite <- Hsegments in *.
  assert (files = foldl record_file ∅
                    (findall FILE_PATTERN (clean_response response))) as ->.
  { destruct (bool_decide _); [| by injection Hfiles].
    destruct (write_text _ _ _); [by injection Hfiles | done]. }
  apply foldl_record_file_lookup in Hk as [Hk | (segment & Hin & Hk)]; [done |].
  cbn [foldl] in Hk. unfold record_file in Hk.
  apply lookup_insert_Some in Hk as [[_ <-] | [_ Hk]]; [| done].
  apply contains_strip. unfold findall in Hin.
  apply list_elem_of_fmap in Hin as (m & -> & Hm).
  apply scan_sound in Hm as (start & s' & Hm). cbn [snd].
  by apply (file_pattern_content start s').
Qed.

Lemma file_contents_hold_no_marker_witness :
  contains "FILE:" "output {}" = false.
Proof.
  apply (file_contents_hold_no_marker work_with_output on_repo fenced_reply
           (default ∅ match fst (extract_file_content work_with_output on_repo
                                    fenced_reply) with
                      | Returns files => Some files
                      | _ => None
                      end) "c.tf").
  - vm_compute. discriminate.
  - vm_compute. reflexivity.
  - vm_compute. reflexivity.
Defined.

End marker_free.
